(** * iko_transaction_analyzer: the line classifier and detail associator

    A shallow embedding of [src/transaction_parser.py] (class
    [TransactionParser]) and the properties its specification states about
    it.  Python strings are sequences of Unicode code points, the regular
    expressions are run by a backtracking matcher with the search order of
    Python's [re] module, floats are binary64 values, and logging goes to an
    explicit world state. *)

From Stdlib Require Import ZArith NArith String Ascii Bool Lia Permutation List.
Import ListNotations.

Set Implicit Arguments.

(** ** Text *)

(** A Python [str]: a sequence of Unicode code points. *)
Definition char := N.
Definition str := list char.

Module Text.

Local Open Scope N_scope.

(** Decoding of the UTF-8 bytes of a literal of this file into code points,
    so that the literals of the source can be written as they are. *)
Fixpoint utf8 (bs : list N) : str :=
  match bs with
  | [] => []
  | b :: t =>
      if b <? 128 then b :: utf8 t
      else if b <? 224 then
        match t with
        | b1 :: t1 => ((b - 192) * 64 + (b1 - 128)) :: utf8 t1
        | _ => []
        end
      else if b <? 240 then
        match t with
        | b1 :: b2 :: t2 =>
            ((b - 224) * 4096 + (b1 - 128) * 64 + (b2 - 128)) :: utf8 t2
        | _ => []
        end
      else
        match t with
        | b1 :: b2 :: b3 :: t3 =>
            ((b - 240) * 262144 + (b1 - 128) * 4096 + (b2 - 128) * 64
             + (b3 - 128)) :: utf8 t3
        | _ => []
        end
  end.

Definition u (s : string) : str :=
  utf8 (map N_of_ascii (list_ascii_of_string s)).

Definition between (lo hi c : char) : bool := (lo <=? c) && (c <=? hi).
Arguments between (lo hi c)%_N.

(** [str.isspace] on one character, which is also what [\s] matches in a
    [str] pattern and what [str.strip()] removes. *)
Definition isspace (c : char) : bool :=
  between 9 13 c || between 28 32 c || (c =? 133) || (c =? 160)
  || (c =? 5760) || between 8192 8202 c || (c =? 8232) || (c =? 8233)
  || (c =? 8239) || (c =? 8287) || (c =? 12288).

Fixpoint lstrip (s : str) : str :=
  match s with
  | c :: t => if isspace c then lstrip t else s
  | [] => []
  end.

Definition rstrip (s : str) : str := rev (lstrip (rev s)).

(** [s.strip()] *)
Definition strip (s : str) : str := rstrip (lstrip s).

(** [s.replace(a, b)] for a one-character [a] and a one-character [b]. *)
Definition replace_char (a b : char) (s : str) : str :=
  map (fun c => if c =? a then b else c) s.

(** [s.replace(a, '')] for a one-character [a]. *)
Definition remove_char (a : char) (s : str) : str :=
  filter (fun c => negb (c =? a)) s.

Fixpoint eqb (s t : str) : bool :=
  match s, t with
  | [], [] => true
  | a :: s', b :: t' => (a =? b) && eqb s' t'
  | _, _ => false
  end.

Fixpoint prefix (p s : str) : bool :=
  match p, s with
  | [], _ => true
  | a :: p', b :: s' => (a =? b) && prefix p' s'
  | _ :: _, [] => false
  end.

(** [p in s] *)
Fixpoint contains (p s : str) : bool :=
  prefix p s || match s with [] => false | _ :: t => contains p t end.

(** [text.split('\n')]: always at least one piece. *)
Fixpoint split_on (sep : char) (s : str) : list str :=
  match s with
  | [] => [[]]
  | c :: t =>
      if c =? sep then [] :: split_on sep t
      else match split_on sep t with
           | l :: ls => (c :: l) :: ls
           | [] => [[c]]
           end
  end.

End Text.

Import Text.
Arguments split_on sep%_N s.
Arguments between (lo hi c)%_N.
Arguments replace_char (a b)%_N s.
Arguments remove_char a%_N s.

(** What every version of Python's Unicode database says about ASCII. *)
Definition ascii_decimal (c : char) : option N :=
  if between 48 57 c then Some (c - 48)%N else None.

(** The part of Python's Unicode database the program reads through [\d],
    [float()] and [str.lower()].  It changes with the Python version, so the
    development takes it as a parameter, of which it knows that the ASCII
    digits are the decimal digits of ASCII, that a digit has a value up to
    nine and that no space is a digit. *)
Record unicode_db := {
  todecimal : char -> option N;   (* the digit value of a decimal digit *)
  lower : str -> str;             (* str.lower() *)
  todecimal_ascii : forall c, (c < 128)%N -> todecimal c = ascii_decimal c;
  todecimal_digit : forall c d, todecimal c = Some d -> (d <= 9)%N;
  todecimal_space : forall c, isspace c = true -> todecimal c = None
}.

(** ** Regular expressions *)

Inductive regex :=
| Eps
| Bol                                   (* ^ *)
| Eol                                   (* $ *)
| Class (p : char -> bool)              (* one character of a class *)
| Seq (r1 r2 : regex)
| Alt (r1 r2 : regex)
| Rep (greedy : bool) (lo : nat) (hi : option nat) (r : regex)
| Group (n : nat) (r : regex).          (* the n-th capturing group *)

(** Captured groups, the most recent first. *)
Definition caps := list (nat * str).

Fixpoint group (n : nat) (c : caps) : str :=
  match c with
  | [] => []
  | (m, t) :: c' => if Nat.eqb m n then t else group n c'
  end.

Definition orelse {A} (a : option A) (b : unit -> option A) : option A :=
  match a with Some x => Some x | None => b tt end.

Definition cont := str -> caps -> option caps.

(** The loop of a repetition [r{lo,hi}] over a body matcher: a greedy one
    tries another iteration before it tries to stop, a lazy one the other
    way round; an iteration that consumes nothing ends the loop. *)
Fixpoint rep_loop (body : cont -> str -> caps -> option caps) (g : bool)
         (k : cont) (fuel lo : nat) (hi : option nat) (s : str) (c : caps)
         {struct fuel} : option caps :=
  match fuel with
  | O => None
  | S fuel' =>
      let more := fun _ : unit =>
        match hi with
        | Some O => None
        | _ =>
            body (fun s' c' =>
                    if Nat.ltb (length s') (length s)
                    then rep_loop body g k fuel' (pred lo)
                           (option_map pred hi) s' c'
                    else None) s c
        end in
      let stop := fun _ : unit =>
        match lo with O => k s c | S _ => None end in
      if g then orelse (more tt) stop else orelse (stop tt) more
  end.

Section Matcher.

(** Length of the whole subject, for [^]. *)
Variable n0 : nat.

(** [exec r k s c]: match [r] at the front of [s], then continue with [k]
    on what is left; alternatives are tried in the order of Python's
    matcher, the first that lets the continuation succeed is taken. *)
Fixpoint exec (r : regex) (k : cont) (s : str) (c : caps) {struct r}
  : option caps :=
  match r with
  | Eps => k s c
  | Bol => if Nat.eqb (length s) n0 then k s c else None
  | Eol =>
      match s with
      | [] => k s c
      | [x] => if N.eqb x 10 then k s c else None
      | _ => None
      end
  | Class p =>
      match s with
      | x :: s' => if p x then k s' c else None
      | [] => None
      end
  | Seq r1 r2 => exec r1 (exec r2 k) s c
  | Alt r1 r2 => orelse (exec r1 k s c) (fun _ => exec r2 k s c)
  | Group n r1 =>
      exec r1
        (fun s' c' => k s' ((n, firstn (length s - length s') s) :: c')) s c
  | Rep g lo hi r1 => rep_loop (exec r1) g k (S (length s)) lo hi s c
  end.

(** What it means for [r] to match [w] in front of [rest], taking the
    groups from [c] to [c']. *)
Inductive rep (D : str -> str -> caps -> caps -> Prop)
  : nat -> option nat -> str -> str -> caps -> caps -> Prop :=
| rep_stop hi rest c : rep D 0 hi [] rest c c
| rep_more lo hi w1 w2 rest c c1 c2 :
    hi <> Some 0 -> w1 <> [] ->
    D w1 (w2 ++ rest) c c1 ->
    rep D (pred lo) (option_map pred hi) w2 rest c1 c2 ->
    rep D lo hi (w1 ++ w2) rest c c2.

Fixpoint den (r : regex) (w rest : str) (c c' : caps) {struct r} : Prop :=
  match r with
  | Eps => w = [] /\ c' = c
  | Bol => w = [] /\ c' = c /\ length rest = n0
  | Eol => w = [] /\ c' = c /\ (rest = [] \/ rest = [10%N])
  | Class p => exists x, w = [x] /\ p x = true /\ c' = c
  | Seq r1 r2 =>
      exists w1 w2 c1,
        w = w1 ++ w2 /\ den r1 w1 (w2 ++ rest) c c1 /\ den r2 w2 rest c1 c'
  | Alt r1 r2 => den r1 w rest c c' \/ den r2 w rest c c'
  | Group n r1 => exists c1, den r1 w rest c c1 /\ c' = (n, w) :: c1
  | Rep _ lo hi r1 => rep (den r1) lo hi w rest c c'
  end.

End Matcher.

(** [pattern.match(s)]: the groups of the match, if there is one. *)
Definition re_match (r : regex) (s : str) : option caps :=
  exec (length s) r (fun _ c => Some c) s [].

(** Pattern syntax. *)
Definition chr (c : string) : regex :=
  match u c with x :: _ => Class (N.eqb x) | [] => Eps end.

(** The characters of a text, one after the other. *)
Definition lit_of (l : str) : regex :=
  fold_right (fun x r => Seq (Class (N.eqb x)) r) Eps l.

(** A literal of a pattern of the source. *)
Notation lit s := (lit_of (u s)) (only parsing).

Definition any : regex := Class (fun c => negb (N.eqb c 10)).   (* . *)
Definition space : regex := Class isspace.                       (* \s *)
Definition upper : regex := Class (between 65 90).               (* [A-Z] *)
Definition upper_digit : regex :=                                (* [A-Z0-9] *)
  Class (fun c => between 65 90 c || between 48 57 c).
Definition opt (r : regex) : regex := Rep true 0 (Some 1) r.
Definition star (r : regex) : regex := Rep true 0 None r.
Definition plus (r : regex) : regex := Rep true 1 None r.
Definition plus_lazy (r : regex) : regex := Rep false 1 None r.
Definition times (lo hi : nat) (r : regex) : regex := Rep true lo (Some hi) r.
Definition at_least (lo : nat) (r : regex) : regex := Rep true lo None r.

Declare Scope re_scope.
Delimit Scope re_scope with re.
Bind Scope re_scope with regex.
Notation "a ++ b" := (Seq a b) : re_scope.
Notation "a || b" := (Alt a b) : re_scope.

(** ** Outcomes *)

Inductive exn :=
| ValueError (arg : str).      (* could not convert string to float *)

Inductive outcome (A : Type) :=
| Ok (a : A)
| Raise (e : exn).
Arguments Ok {A} a.
Arguments Raise {A} e.

(** ** Floats *)

(** A binary64 value: [F_num neg m e] is (-1)^neg * m * 2^e, with m below
    2^53, and e between -1074 and 971 when m is not zero. *)
Inductive pyfloat :=
| F_nan
| F_inf (neg : bool)
| F_num (neg : bool) (m : Z) (e : Z).

Module Float.

Local Open Scope Z_scope.

(** The literal [0.0]. *)
Definition zero : pyfloat := F_num false 0 0.

(** The binary64 value nearest to [num / den] (ties to even), as Python's
    conversion from decimal text computes it; [num] and [den] positive. *)
Definition round (neg : bool) (num den : Z) : pyfloat :=
  let e1 := Z.log2 num - Z.log2 den - 53 in
  let scaled (e : Z) : Z * Z :=
    if 0 <=? e then (num, den * 2 ^ e) else (num * 2 ^ (- e), den) in
  let e2 := let (a, b) := scaled e1 in
            if 2 ^ 53 <=? a / b then e1 + 1 else e1 in
  let e := Z.max e2 (-1074) in
  let (a, b) := scaled e in
  let q := a / b in
  let r := a mod b in
  let m := if (b <? 2 * r) || ((b =? 2 * r) && Z.odd q) then q + 1 else q in
  let (m, e) := if m =? 2 ^ 53 then (2 ^ 52, e + 1) else (m, e) in
  if m =? 0 then F_num neg 0 0
  else if 971 <? e then F_inf neg else F_num neg m e.

(** The float written [digits]e[exp10] in decimal. *)
Definition of_decimal (neg : bool) (digits : N) (exp10 : Z) : pyfloat :=
  if (digits =? 0)%N then F_num neg 0 0
  else if 0 <=? exp10 then round neg (Z.of_N digits * 10 ^ exp10) 1
  else round neg (Z.of_N digits) (10 ^ (- exp10)).

Section Parse.

Variable U : unicode_db.

(** [float()] first maps its argument to ASCII: spaces to a space,
    decimal digits to their ASCII digit, anything else to [?]. *)
Definition to_ascii (c : char) : char :=
  if (c <? 127)%N then c
  else if isspace c then 32%N
  else match todecimal U c with
       | Some d => (48 + d)%N
       | None => 63%N
       end.

Definition ascii_space (c : char) : bool := between 9 13 c || (c =? 32)%N.
Definition ascii_digit (c : char) : bool := between 48 57 c.

Fixpoint lstrip_ascii (s : str) : str :=
  match s with
  | c :: t => if ascii_space c then lstrip_ascii t else s
  | [] => []
  end.

(** An underscore is allowed between two digits only, and is dropped. *)
Fixpoint underscores (prev : char) (s : str) : option str :=
  match s with
  | [] => if (prev =? 95)%N then None else Some []
  | c :: t =>
      if (c =? 95)%N then
        if ascii_digit prev then underscores c t else None
      else if (prev =? 95)%N && negb (ascii_digit c) then None
      else option_map (cons c) (underscores c t)
  end.

Fixpoint span_digits (s : str) : str * str :=
  match s with
  | c :: t =>
      if ascii_digit c
      then let (d, r) := span_digits t in (c :: d, r)
      else ([], s)
  | [] => ([], [])
  end.

Definition digits_value (d : str) : N :=
  fold_left (fun acc c => (10 * acc + (c - 48))%N) d 0%N.

Definition ascii_lower (c : char) : char :=
  if between 65 90 c then (c + 32)%N else c.

(** A sign, the rest and whether the sign was a minus. *)
Definition take_sign (s : str) : bool * str :=
  match s with
  | c :: t =>
      if (c =? 45)%N then (true, t)
      else if (c =? 43)%N then (false, t)
      else (false, s)
  | [] => (false, [])
  end.

(** The exponent part: nothing, or [e], a sign and digits to the end. *)
Definition exponent (s : str) : option Z :=
  match s with
  | [] => Some 0
  | c :: t =>
      if (ascii_lower c =? 101)%N then
        let (neg, t1) := take_sign t in
        match span_digits t1 with
        | ((_ :: _) as d, []) =>
            let n := Z.of_N (digits_value d) in
            Some (if neg then - n else n)
        | _ => None
        end
      else None
  end.

Definition number (s : str) : option pyfloat :=
  let (neg, s0) := take_sign s in
  let name := map ascii_lower s0 in
  if Text.eqb name (u "inf") || Text.eqb name (u "infinity")
  then Some (F_inf neg)
  else if Text.eqb name (u "nan") then Some F_nan
  else
    let (ip, s1) := span_digits s0 in
    let (fp, s2) :=
      match s1 with
      | c :: t => if (c =? 46)%N then span_digits t else ([], s1)
      | [] => ([], [])
      end in
    match ip ++ fp, exponent s2 with
    | (_ :: _) as d, Some e =>
        Some (of_decimal neg (digits_value d)
                (e - Z.of_nat (length fp)))
    | _, _ => None
    end.

(** [float(s)] for a string [s]. *)
Definition py_float (s : str) : outcome pyfloat :=
  let t := rev (lstrip_ascii (rev (lstrip_ascii (map to_ascii s)))) in
  match underscores 0%N t with
  | Some t' =>
      match number t' with
      | Some x => Ok x
      | None => Raise (ValueError s)
      end
  | None => Raise (ValueError s)
  end.

End Parse.

(** [x >= 0.0] *)
Definition nonneg (x : pyfloat) : bool :=
  match x with
  | F_nan => false
  | F_inf neg => negb neg
  | F_num neg m _ => negb neg || (m =? 0)
  end.

End Float.

(** ** The log and the world *)

(** The three messages the parser logs. *)
Inductive message :=
| Could_not_parse_amount (amount_str : str)
| Processing (name : str) (pages : nat)
| Error_processing (path : str) (e : exn).

Inductive level := INFO | WARNING | ERROR.

(** The format of the log puts the time of the call in front of a record. *)
Record log_record := { asctime : Z; levelname : level; msg : message }.

(** What the parser reads and writes outside its arguments: the clock, which
    the logger reads, and the log. *)
Record world := { clock : Z; log : list log_record }.

Definition M (A : Type) : Type := world -> outcome A * world.

Definition ret {A} (a : A) : M A := fun w => (Ok a, w).

Definition bind {A B} (m : M A) (f : A -> M B) : M B :=
  fun w => match m w with
           | (Ok a, w') => f a w'
           | (Raise e, w') => (Raise e, w')
           end.

Definition raise {A} (e : exn) : M A := fun w => (Raise e, w).

(** [try: m  except ValueError: h] *)
Definition try_except {A} (m : M A) (h : exn -> M A) : M A :=
  fun w => match m w with
           | (Ok a, w') => (Ok a, w')
           | (Raise e, w') => h e w'
           end.

Definition lift {A} (o : outcome A) : M A := fun w => (o, w).

Declare Scope monad_scope.
Delimit Scope monad_scope with monad.
Notation "x <- m ;; f" := (bind m (fun x => f))
  (at level 61, m at next level, right associativity) : monad_scope.
Notation "m ;;; f" := (bind m (fun _ => f))
  (at level 61, right associativity) : monad_scope.
Open Scope monad_scope.

Definition logger (l : level) (m : message) : M unit :=
  fun w => (Ok tt, {| clock := clock w;
                      log := log w ++ [{| asctime := clock w;
                                          levelname := l; msg := m |}] |}).

(** ** Records *)

Inductive value :=
| VNone
| VStr (s : str)
| VFloat (x : pyfloat)
| VInt (n : Z).

(** A Python [dict] with string keys, in insertion order. *)
Definition dict := list (string * value).

Fixpoint dict_get (k : string) (d : dict) : option value :=
  match d with
  | [] => None
  | (k', v) :: d' => if String.eqb k' k then Some v else dict_get k d'
  end.

(** [d[k] = v] *)
Fixpoint dict_set (k : string) (v : value) (d : dict) : dict :=
  match d with
  | [] => [(k, v)]
  | (k', v') :: d' =>
      if String.eqb k' k then (k, v) :: d' else (k', v') :: dict_set k v d'
  end.

(** [d.update(e)] *)
Definition dict_update (d e : dict) : dict :=
  fold_left (fun acc kv => dict_set (fst kv) (snd kv) acc) e d.

Definition keys (d : dict) : list string := map fst d.

(** ** The parser *)

Inductive detail_kind :=
| card_details
| web_payment_details
| original_amount
| currency_details
| transfer_details.

Section TransactionParser.

Variable U : unicode_db.

Local Open Scope re_scope.
Local Open Scope string_scope.

(** [\d] *)
Definition isdecimal (c : char) : bool :=
  match todecimal U c with Some _ => true | None => false end.

Definition digit : regex := Class isdecimal.

(** [\d{2}\.\d{2}\.\d{4}] *)
Definition date_re : regex :=
  times 2 2 digit ++ chr "." ++ times 2 2 digit ++ chr "." ++ times 4 4 digit.

(** [\d{1,3}(?:\s?\d{3})*,\d{2}] *)
Definition number_re : regex :=
  times 1 3 digit ++ star (opt space ++ times 3 3 digit) ++ chr ","
  ++ times 2 2 digit.

(** [-?\d{1,3}(?:\s?\d{3})*,\d{2}] *)
Definition signed_re : regex := opt (chr "-") ++ number_re.

(** The shape the first four patterns share:
    [^(date)\s+([A-Z0-9]+)\s+(description)\s+(signed)\s+(number)$] *)
Definition transaction_re (description : regex) : regex :=
  Bol ++ Group 1 date_re ++ plus space ++ Group 2 (plus upper_digit)
  ++ plus space ++ Group 3 description ++ plus space ++ Group 4 signed_re
  ++ plus space ++ Group 5 number_re ++ Eol.

Definition main_transaction : regex := transaction_re (plus_lazy any).

Definition card_transaction : regex :=
  transaction_re (lit "ZAKUP PRZY UŻYCIU KARTY" || lit "PŁATNOŚĆ WEB"
                  || lit "ZWROT BLIK").

Definition transfer_transaction : regex :=
  transaction_re (lit "PRZELEW WYCHODZĄCY" || lit "PRZELEW PRZYCHODZĄCY").

Definition currency_exchange : regex :=
  transaction_re (lit "WYMIANA W KANTORZE - UZNANIE"
                  || lit "WYMIANA W KANTORZE - OBCIĄŻENIE").

Definition balance_transfer : regex :=
  Bol ++ lit "Saldo z przeniesienia" ++ plus space ++ Group 1 number_re
  ++ Eol.

(** [self.patterns], in the order of the dict. *)
Definition patterns : list (string * regex) :=
  [("main_transaction", main_transaction);
   ("card_transaction", card_transaction);
   ("transfer_transaction", transfer_transaction);
   ("currency_exchange", currency_exchange);
   ("balance_transfer", balance_transfer)].

(** [self.detail_patterns] *)
Definition detail_patterns (k : detail_kind) : regex :=
  match k with
  | card_details =>
      Bol ++ Group 1 date_re ++ plus space ++ lit "Karta:"
      ++ Group 2 (times 4 4 digit ++ times 2 2 digit
                  ++ times 4 4 (chr "*") ++ times 4 4 digit)
      ++ plus space ++ lit "Lokalizacja:" ++ star space
      ++ Group 3 (plus_lazy any) ++ plus space ++ lit "Nr ref:"
  | web_payment_details =>
      Bol ++ Group 1 date_re ++ plus space ++ lit "Tel:"
      ++ Group 2 (plus digit) ++ plus space ++ lit "Godz."
      ++ Group 3 (times 2 2 digit ++ chr ":" ++ times 2 2 digit ++ chr ":"
                  ++ times 2 2 digit)
      ++ plus space ++ lit "Lokalizacja:" ++ star space
      ++ Group 4 (plus_lazy any) ++ plus space ++ lit "Nr ref:"
  | original_amount =>
      Bol ++ lit "Kwota oryg.:" ++ plus space ++ Group 1 number_re
      ++ plus space ++ lit "PLN"
  | currency_details =>
      Bol ++ Group 1 date_re ++ plus space ++ Group 2 (plus upper_digit)
      ++ plus space
      ++ Group 3 (times 3 3 upper ++ chr "/" ++ times 3 3 upper)
      ++ plus space ++ Group 4 (plus digit ++ chr "." ++ plus digit)
      ++ plus space ++ Group 5 signed_re ++ plus space ++ lit "PLN"
      ++ plus space ++ Group 6 signed_re ++ plus space
      ++ Group 7 (times 3 3 upper)
  | transfer_details =>
      Bol ++ Group 1 (at_least 10 digit) ++ plus space
      ++ Group 2 (plus_lazy any) ++ plus space ++ lit "Ref. wł. zlec.:"
      ++ plus space ++ Group 3 (plus digit)
  end.

(** [amount_str.replace(' ', '').replace(',', '.')] *)
Definition cleaned (amount_str : str) : str :=
  replace_char 44 46 (remove_char 32 amount_str).

(** [clean_amount]: Polish number format to float. *)
Definition clean_amount (amount_str : str) : M pyfloat :=
  match amount_str with
  | [] => ret Float.zero
  | _ =>
      try_except (lift (Float.py_float U (cleaned amount_str)))
        (fun _ =>
           logger WARNING (Could_not_parse_amount amount_str) ;;;
           ret Float.zero)
  end.

(** [_categorize_transaction] *)
Definition _categorize_transaction (description : str) : str :=
  let description_lower := lower U description in
  if contains (u "zakup przy użyciu karty") description_lower
  then u "Card Purchase"
  else if contains (u "płatność web") description_lower
  then u "Web Payment"
  else if contains (u "zwrot blik") description_lower
  then u "BLIK Refund"
  else if contains (u "przelew wychodzący") description_lower
  then u "Outgoing Transfer"
  else if contains (u "przelew przychodzący") description_lower
  then u "Incoming Transfer"
  else if contains (u "wymiana w kantorze") description_lower
  then u "Currency Exchange"
  else u "Other".

(** The record a matched pattern yields. *)
Definition transaction_of (pattern_name : string) (line : str) (m : caps)
  : M dict :=
  if String.eqb pattern_name "balance_transfer" then
    balance <- clean_amount (group 1 m) ;;
    ret [("date", VNone);
         ("transaction_id", VStr (u "BALANCE_TRANSFER"));
         ("type", VStr (u "Saldo z przeniesienia"));
         ("description", VStr (u "Balance transfer from previous period"));
         ("amount", VFloat Float.zero);
         ("balance", VFloat balance);
         ("raw_line", VStr line);
         ("pattern_used", VStr (u pattern_name))]
  else
    let date := group 1 m in
    let trans_id := group 2 m in
    let description := group 3 m in
    amount <- clean_amount (group 4 m) ;;
    balance <- clean_amount (group 5 m) ;;
    ret [("date", VStr date);
         ("transaction_id", VStr trans_id);
         ("type", VStr (_categorize_transaction description));
         ("description", VStr description);
         ("amount", VFloat amount);
         ("balance", VFloat balance);
         ("raw_line", VStr line);
         ("pattern_used", VStr (u pattern_name))].

(** The loop of [parse_transaction_line] over the patterns. *)
Fixpoint try_patterns (ps : list (string * regex)) (line : str)
  : M (option dict) :=
  match ps with
  | [] => ret None
  | (pattern_name, pattern) :: ps' =>
      match re_match pattern line with
      | Some m => t <- transaction_of pattern_name line m ;; ret (Some t)
      | None => try_patterns ps' line
      end
  end.

(** [parse_transaction_line] *)
Definition parse_transaction_line (line : str) : M (option dict) :=
  let line := strip line in
  match line with
  | [] => ret None
  | _ => try_patterns patterns line
  end.

(** The keys a detail pattern assigns and their values, in the order of
    the assignments. *)
Definition detail_fields (k : detail_kind) (m : caps) : M dict :=
  match k with
  | card_details =>
      ret [("card_number", VStr (group 2 m));
           ("location", VStr (group 3 m))]
  | web_payment_details =>
      ret [("phone", VStr (group 2 m));
           ("time", VStr (group 3 m));
           ("location", VStr (group 4 m))]
  | original_amount =>
      a <- clean_amount (group 1 m) ;;
      ret [("original_amount", VFloat a)]
  | currency_details =>
      rate <- lift (Float.py_float U (group 4 m)) ;;
      pln <- clean_amount (group 5 m) ;;
      foreign <- clean_amount (group 6 m) ;;
      ret [("currency_pair", VStr (group 3 m));
           ("exchange_rate", VFloat rate);
           ("pln_amount", VFloat pln);
           ("foreign_amount", VFloat foreign);
           ("foreign_currency", VStr (group 7 m))]
  | transfer_details =>
      ret [("account_number", VStr (group 1 m));
           ("recipient", VStr (group 2 m));
           ("reference", VStr (group 3 m))]
  end.

Definition assign (details : dict) (k : detail_kind) (m : caps) : M dict :=
  fs <- detail_fields k m ;; ret (dict_update details fs).

(** The tests of the loop of [extract_additional_details] in their order:
    the first detail pattern that matches the line, and its groups. *)
Definition detail_match (line : str) : option (detail_kind * caps) :=
  match re_match (detail_patterns card_details) line with
  | Some m => Some (card_details, m)
  | None =>
  match re_match (detail_patterns web_payment_details) line with
  | Some m => Some (web_payment_details, m)
  | None =>
  match re_match (detail_patterns original_amount) line with
  | Some m => Some (original_amount, m)
  | None =>
  match re_match (detail_patterns currency_details) line with
  | Some m => Some (currency_details, m)
  | None =>
  match re_match (detail_patterns transfer_details) line with
  | Some m => Some (transfer_details, m)
  | None => None
  end end end end end.

(** The body of that loop: the pattern that matched assigns its keys, and
    the loop goes on to the next line. *)
Definition scan_line (line : str) (details : dict) : M dict :=
  match detail_match (strip line) with
  | Some (k, m) => assign details k m
  | None => ret details
  end.

Fixpoint scan_lines (lines : list str) (js : list nat) (details : dict)
  : M dict :=
  match js with
  | [] => ret details
  | i :: js' =>
      details' <- scan_line (nth i lines []) details ;;
      scan_lines lines js' details'
  end.

(** [range(a, b)] *)
Definition range (a b : nat) : list nat := seq a (b - a).

(** [extract_additional_details] *)
Definition extract_additional_details (lines : list str)
           (transaction_index : nat) : M dict :=
  scan_lines lines
    (range (transaction_index + 1)
           (Nat.min (transaction_index + 5) (length lines))) [].

End TransactionParser.

(** A document as the PDF reader hands it over: its path, its file name and
    the text of each page ([None] or empty when the page has no text). *)
Record pdf := { path : str; name : str; pages : list (option str) }.

Section Pipeline.

Variable U : unicode_db.

Local Open Scope string_scope.

(** The loop over the lines of a page.  [transactions] is the list the
    method appends to; it is returned together with the exception that
    stopped the loop, if one did, since what was appended before stays. *)
Fixpoint page_lines (pdf_name : str) (page_num : Z) (lines : list str)
         (i : nat) (todo : list str) (transactions : list dict) (w : world)
  : (list dict * option exn) * world :=
  match todo with
  | [] => ((transactions, None), w)
  | line :: todo' =>
      match parse_transaction_line U line w with
      | (Raise e, w1) => ((transactions, Some e), w1)
      | (Ok None, w1) | (Ok (Some []), w1) =>
          page_lines pdf_name page_num lines (S i) todo' transactions w1
      | (Ok (Some transaction), w1) =>
          let transaction :=
            dict_set "page" (VInt page_num)
              (dict_set "source_file" (VStr pdf_name) transaction) in
          match extract_additional_details U lines i w1 with
          | (Raise e, w2) => ((transactions, Some e), w2)
          | (Ok details, w2) =>
              page_lines pdf_name page_num lines (S i) todo'
                (transactions ++ [dict_update transaction details]) w2
          end
      end
  end.

(** The loop over the pages, numbered from [page_num]. *)
Fixpoint pdf_pages (pdf_name : str) (page_num : Z) (ps : list (option str))
         (transactions : list dict) (w : world)
  : (list dict * option exn) * world :=
  match ps with
  | [] => ((transactions, None), w)
  | None :: ps' | Some [] :: ps' =>
      pdf_pages pdf_name (page_num + 1)%Z ps' transactions w
  | Some text :: ps' =>
      let lines := split_on 10%N text in
      match page_lines pdf_name page_num lines 0 lines transactions w with
      | ((ts, Some e), w1) => ((ts, Some e), w1)
      | ((ts, None), w1) => pdf_pages pdf_name (page_num + 1)%Z ps' ts w1
      end
  end.

(** [parse_pdf_file], for a document that could be opened. *)
Definition parse_pdf_file (f : pdf) (w : world) : list dict * world :=
  let w0 := snd (logger INFO (Processing (name f) (length (pages f))) w) in
  match pdf_pages (name f) 1%Z (pages f) [] w0 with
  | ((ts, None), w1) => (ts, w1)
  | ((ts, Some e), w1) =>
      (ts, snd (logger ERROR (Error_processing (path f) e) w1))
  end.

End Pipeline.

(** ** The Unicode database below U+0180 *)

Module Latin.

Local Open Scope N_scope.

(** [str.lower()] on Basic Latin, Latin-1 Supplement and Latin
    Extended-A; other characters are left as they are. *)
Definition lower_char (c : char) : str :=
  if between 65 90 c then [c + 32]
  else if between 192 214 c || between 216 222 c then [c + 32]
  else if c =? 304 then [105; 775]
  else if c =? 376 then [255]
  else if (between 256 303 c || between 306 311 c || between 330 375 c)
          && N.even c then [c + 1]
  else if (between 313 328 c || between 377 382 c) && N.odd c then [c + 1]
  else [c].

Definition decimal (c : char) : option N :=
  if c <? 384 then ascii_decimal c else None.

Lemma decimal_ascii c : c < 128 -> decimal c = ascii_decimal c.
Proof.
  intros H. unfold decimal.
  destruct (N.ltb_spec c 384) as [_|H']; [reflexivity | lia].
Qed.

Lemma decimal_digit c d : decimal c = Some d -> d <= 9.
Proof.
  unfold decimal, ascii_decimal, between.
  destruct (c <? 384); [|discriminate].
  destruct (N.leb_spec 48 c), (N.leb_spec c 57); simpl; try discriminate.
  intros [= <-]. lia.
Qed.

Lemma decimal_space c : isspace c = true -> decimal c = None.
Proof.
  unfold decimal, ascii_decimal.
  destruct (c <? 384); [|reflexivity].
  destruct (between 48 57 c) eqn:E; [|reflexivity].
  unfold isspace, between in *. intros H.
  rewrite ?Bool.orb_true_iff, ?Bool.andb_true_iff, ?N.leb_le, ?N.eqb_eq
    in *.
  lia.
Qed.

Definition db : unicode_db :=
  {| todecimal := decimal;
     lower := flat_map lower_char;
     todecimal_ascii := decimal_ascii;
     todecimal_digit := decimal_digit;
     todecimal_space := decimal_space |}.

End Latin.

(** * Properties *)

(** ** The matcher and the meaning of a pattern *)

Section MatcherFacts.

Variable n0 : nat.

Lemma app_length_lt (w rest : str) :
  Nat.ltb (length rest) (length (w ++ rest)) = true <-> w <> [].
Proof.
  rewrite Nat.ltb_lt, length_app. destruct w; simpl; split; intros H.
  - lia.
  - congruence.
  - discriminate.
  - lia.
Qed.

(** What the loop finds is a repetition of what its body finds. *)
Lemma rep_loop_sound D body :
  (forall k s c res, body k s c = Some res ->
     exists w rest c', s = w ++ rest /\ D w rest c c' /\
                       k rest c' = Some res) ->
  forall fuel g k lo hi s c res,
    rep_loop body g k fuel lo hi s c = Some res ->
    exists w rest c', s = w ++ rest /\ rep D lo hi w rest c c' /\
                      k rest c' = Some res.
Proof.
  intros Hbody. induction fuel as [|fuel IH]; intros g k lo hi s c res H.
  - discriminate.
  - assert (Hmore : forall k',
               k' = (fun s' c' =>
                       if Nat.ltb (length s') (length s)
                       then rep_loop body g k fuel (pred lo)
                              (option_map pred hi) s' c'
                       else None) ->
               hi <> Some 0 -> body k' s c = Some res ->
               exists w rest c', s = w ++ rest /\
                                 rep D lo hi w rest c c' /\
                                 k rest c' = Some res).
    { intros k' -> Hhi Hb.
      destruct (Hbody _ _ _ _ Hb) as (w1 & r1 & c1 & -> & HD & Hk).
      destruct (Nat.ltb (length r1) (length (w1 ++ r1))) eqn:E;
        [|discriminate].
      apply app_length_lt in E.
      destruct (IH _ _ _ _ _ _ _ Hk) as (w2 & rest & c' & -> & Hr & Hk').
      exists (w1 ++ w2), rest, c'. rewrite <- app_assoc.
      repeat split; try assumption.
      eapply rep_more; eauto. }
    assert (Hstop : lo = 0 -> k s c = Some res ->
                    exists w rest c', s = w ++ rest /\
                                      rep D lo hi w rest c c' /\
                                      k rest c' = Some res).
    { intros -> Hk. exists [], s, c. repeat split; [constructor | exact Hk]. }
    simpl in H. destruct g; unfold orelse in H.
    + destruct hi as [[|h]|].
      * destruct lo; [auto | discriminate].
      * match type of H with
        | match ?b with _ => _ end = _ => destruct b eqn:Eb
        end.
        -- injection H as <-.
           eapply Hmore; [reflexivity | discriminate | exact Eb].
        -- destruct lo; [auto | discriminate].
      * match type of H with
        | match ?b with _ => _ end = _ => destruct b eqn:Eb
        end.
        -- injection H as <-.
           eapply Hmore; [reflexivity | discriminate | exact Eb].
        -- destruct lo; [auto | discriminate].
    + destruct lo as [|lo'].
      * destruct (k s c) eqn:Ek.
        -- injection H as <-. auto.
        -- destruct hi as [[|h]|]; [discriminate | |];
             (eapply Hmore; [reflexivity | discriminate | exact H]).
      * destruct hi as [[|h]|]; [discriminate | |];
          (eapply Hmore; [reflexivity | discriminate | exact H]).
Qed.

(** Soundness: a successful run splits the subject into what the pattern
    matched and what the continuation accepted. *)
Lemma exec_sound r :
  forall k s c res,
    exec n0 r k s c = Some res ->
    exists w rest c', s = w ++ rest /\ den n0 r w rest c c' /\
                      k rest c' = Some res.
Proof.
  induction r as [| | |p|r1 IH1 r2 IH2|r1 IH1 r2 IH2|g lo hi r1 IH1|n r1 IH1];
    intros k s c res H; cbn [exec] in H.
  - exists [], s, c. simpl. repeat split; auto.
  - destruct (Nat.eqb_spec (length s) n0); [|discriminate].
    exists [], s, c. simpl. repeat split; auto.
  - destruct s as [|x [|y s]].
    + exists [], [], c. simpl. repeat split; auto.
    + destruct (N.eqb_spec x 10); [subst|discriminate].
      exists [], [10%N], c. simpl. repeat split; auto.
    + discriminate.
  - destruct s as [|x s]; [discriminate|].
    destruct (p x) eqn:E; [|discriminate].
    exists [x], s, c. simpl. eauto 10.
  - destruct (IH1 _ _ _ _ H) as (w1 & rest1 & c1 & -> & H1 & H1').
    destruct (IH2 _ _ _ _ H1') as (w2 & rest & c' & -> & H2 & H2').
    exists (w1 ++ w2), rest, c'. rewrite <- app_assoc. simpl. eauto 10.
  - unfold orelse in H. destruct (exec n0 r1 k s c) eqn:E.
    + injection H as <-.
      destruct (IH1 _ _ _ _ E) as (w & rest & c' & -> & H1 & H1').
      exists w, rest, c'. simpl. repeat split; auto.
    + destruct (IH2 _ _ _ _ H) as (w & rest & c' & -> & H1 & H1').
      exists w, rest, c'. simpl. repeat split; auto.
  - eapply rep_loop_sound in H; [exact H | exact IH1].
  - destruct (IH1 _ _ _ _ H) as (w & rest & c' & -> & H1 & H1').
    replace (firstn (length (w ++ rest) - length rest) (w ++ rest))
      with w in H1'.
    + exists w, rest, ((n, w) :: c'). simpl. eauto 10.
    + rewrite length_app, Nat.add_sub, firstn_app, Nat.sub_diag, firstn_all.
      simpl. now rewrite app_nil_r.
Qed.

(** When the loop fails, no repetition of its body leads to a success of
    the continuation. *)
Lemma rep_loop_complete (D : str -> str -> caps -> caps -> Prop) body :
  (forall k s c, body k s c = None ->
     forall w rest c', s = w ++ rest -> D w rest c c' ->
                       k rest c' = None) ->
  forall fuel g k lo hi s c,
    length s < fuel ->
    rep_loop body g k fuel lo hi s c = None ->
    forall w rest c', s = w ++ rest -> rep D lo hi w rest c c' ->
                      k rest c' = None.
Proof.
  intros Hbody. induction fuel as [|fuel IH];
    intros g k lo hi s c Hlen H w rest c' Hs Hr.
  - lia.
  - simpl in H.
    destruct Hr as [hi rest c | lo hi w1 w2 rest c c1 c2 Hhi Hw1 HD Hr].
    + simpl in Hs. subst s.
      destruct g; unfold orelse in H.
      * destruct (match hi with Some 0 => None | _ => _ end);
          [discriminate | exact H].
      * destruct (k rest c); [discriminate | reflexivity].
    + subst s.
      assert (Hb : body
                (fun s' c' =>
                   if Nat.ltb (length s') (length ((w1 ++ w2) ++ rest))
                   then rep_loop body g k fuel (pred lo)
                          (option_map pred hi) s' c'
                   else None) ((w1 ++ w2) ++ rest) c = None).
      { destruct g; unfold orelse in H.
        - destruct hi as [[|h]|]; [congruence | |];
            match type of H with
            | match ?b with _ => _ end = _ =>
                destruct b eqn:Eb; [discriminate | exact Eb]
            end.
        - destruct (match lo with 0 => k _ c | S _ => None end);
            [discriminate|].
          destruct hi as [[|h]|]; [congruence | exact H | exact H]. }
      specialize (Hbody _ _ _ Hb w1 (w2 ++ rest) c1).
      rewrite <- app_assoc in Hbody. specialize (Hbody eq_refl HD).
      simpl in Hbody.
      assert (E : Nat.ltb (length (w2 ++ rest))
                    (length (w1 ++ w2 ++ rest)) = true)
        by now apply app_length_lt.
      rewrite E in Hbody. rewrite <- app_assoc in Hlen.
      eapply IH; [| exact Hbody | reflexivity | exact Hr].
      apply Nat.ltb_lt in E. lia.
Qed.

(** Completeness: when a run fails, no way of matching the pattern leads
    to a success of the continuation. *)
Lemma exec_complete r :
  forall k s c,
    exec n0 r k s c = None ->
    forall w rest c', s = w ++ rest -> den n0 r w rest c c' ->
                      k rest c' = None.
Proof.
  induction r as [| | |p|r1 IH1 r2 IH2|r1 IH1 r2 IH2|g lo hi r1 IH1|n r1 IH1];
    intros k s c H w rest c' Hs Hd; cbn [exec] in H; cbn [den] in Hd.
  - destruct Hd as (-> & ->). simpl in Hs. now subst.
  - destruct Hd as (-> & -> & Hl). simpl in Hs. subst s.
    rewrite Hl, Nat.eqb_refl in H. exact H.
  - destruct Hd as (-> & -> & [-> | ->]); simpl in Hs; subst s;
      simpl in H; exact H.
  - destruct Hd as (x & -> & Hp & ->). simpl in Hs. subst s.
    now rewrite Hp in H.
  - destruct Hd as (w1 & w2 & c1 & -> & H1 & H2).
    rewrite <- app_assoc in Hs.
    pose proof (IH1 _ _ _ H _ _ _ Hs H1) as H1'.
    exact (IH2 _ _ _ H1' _ _ _ eq_refl H2).
  - unfold orelse in H. destruct (exec n0 r1 k s c) eqn:E; [discriminate|].
    destruct Hd as [Hd | Hd]; eauto.
  - eapply rep_loop_complete; eauto.
  - destruct Hd as (c1 & H1 & ->).
    pose proof (IH1 _ _ _ H _ _ _ Hs H1) as H1'. simpl in H1'.
    subst s.
    rewrite length_app, Nat.add_sub, firstn_app, Nat.sub_diag, firstn_all
      in H1'.
    simpl in H1'. now rewrite app_nil_r in H1'.
Qed.

End MatcherFacts.

Lemma re_match_sound r s m :
  re_match r s = Some m ->
  exists w rest, s = w ++ rest /\ den (length s) r w rest [] m.
Proof.
  unfold re_match. intros H.
  destruct (exec_sound _ _ _ _ _ H) as (w & rest & c' & -> & Hd & [= ->]).
  eauto.
Qed.

Lemma re_match_complete r s w rest m :
  s = w ++ rest -> den (length s) r w rest [] m ->
  exists m', re_match r s = Some m'.
Proof.
  intros Hs Hd. unfold re_match.
  destruct (exec (length s) r (fun _ c => Some c) s []) eqn:E; [eauto|].
  pose proof (exec_complete _ _ _ _ E _ _ _ Hs Hd). discriminate.
Qed.

(** A pattern without groups and anchors matches a word or not, whatever
    stands around it. *)
Fixpoint simple (r : regex) : bool :=
  match r with
  | Eps | Class _ => true
  | Seq r1 r2 | Alt r1 r2 => simple r1 && simple r2
  | Rep _ _ _ r1 => simple r1
  | Bol | Eol | Group _ _ => false
  end.

Definition matches (r : regex) (w : str) : Prop := den 0 r w [] [] [].

Lemma rep_mono (D D' : str -> str -> caps -> caps -> Prop) :
  (forall w rest c c', D w rest c c' -> D' w rest c c') ->
  forall lo hi w rest c c',
    rep D lo hi w rest c c' -> rep D' lo hi w rest c c'.
Proof.
  intros HD lo hi w rest c c' H.
  induction H; [constructor | eapply rep_more; eauto].
Qed.

Lemma rep_transport (D D' : str -> str -> caps -> caps -> Prop) :
  (forall w rest c c', D w rest c c' ->
     c' = c /\ forall rest' c0, D' w rest' c0 c0) ->
  forall lo hi w rest c c',
    rep D lo hi w rest c c' ->
    c' = c /\ forall rest' c0, rep D' lo hi w rest' c0 c0.
Proof.
  intros HD lo hi w rest c c' H.
  induction H as [hi rest c | lo hi w1 w2 rest c c1 c2 Hhi Hw1 H1 _ [-> IH]].
  - split; [reflexivity | intros; constructor].
  - destruct (HD _ _ _ _ H1) as [-> H1']. split; [reflexivity|].
    intros rest' c0. eapply rep_more; eauto.
Qed.

Lemma den_transport n0 r :
  simple r = true ->
  forall w rest c c',
    den n0 r w rest c c' ->
    c' = c /\ forall n1 rest' c0, den n1 r w rest' c0 c0.
Proof.
  induction r as [| | |p|r1 IH1 r2 IH2|r1 IH1 r2 IH2|g lo hi r1 IH1|n r1 IH1];
    intros Hs w rest c c' H; cbn [den simple] in *; try discriminate.
  - destruct H as (-> & ->). auto.
  - destruct H as (x & -> & Hp & ->). eauto.
  - apply andb_prop in Hs as [Hs1 Hs2].
    destruct H as (w1 & w2 & c1 & -> & H1 & H2).
    destruct (IH1 Hs1 _ _ _ _ H1) as [-> H1'].
    destruct (IH2 Hs2 _ _ _ _ H2) as [-> H2'].
    split; [reflexivity|]. intros n1 rest' c0. exists w1, w2, c0. auto.
  - apply andb_prop in Hs as [Hs1 Hs2]. destruct H as [H | H].
    + destruct (IH1 Hs1 _ _ _ _ H) as [-> H']. auto.
    + destruct (IH2 Hs2 _ _ _ _ H) as [-> H']. auto.
  - pose proof (@rep_transport (den n0 r1)
                  (fun w rest c c' => forall n1, den n1 r1 w rest c c')) as T.
    destruct (T (fun w rest c c' H => 
                   match IH1 Hs w rest c c' H with
                   | conj e f => conj e (fun rest' c0 n1 => f n1 rest' c0)
                   end) _ _ _ _ _ _ H) as [-> H'].
    split; [reflexivity|]. intros n1 rest' c0.
    eapply rep_mono; [|exact (H' rest' c0)]. simpl. auto.
Qed.

Lemma den_matches n0 r w rest c c' :
  simple r = true ->
  den n0 r w rest c c' <-> matches r w /\ c' = c.
Proof.
  intros Hs. split.
  - intros H. destruct (den_transport _ _ Hs _ _ _ _ H) as [-> H'].
    split; [apply H' | reflexivity].
  - intros [H ->]. apply (den_transport _ _ Hs _ _ _ _ H).
Qed.

Ltac break :=
  repeat match goal with
         | H : exists _, _ |- _ => destruct H
         | H : _ /\ _ |- _ => destruct H
         end.

(** Every hypothesis on a piece without groups becomes a fact about the
    word the piece matched. *)
Ltac to_matches :=
  repeat match goal with
         | H : den _ ?r _ _ _ _ |- _ =>
             apply (proj1 (@den_matches _ r _ _ _ _ eq_refl)) in H;
             destruct H
         end.

(** A repetition of a character class. *)
Lemma rep_class_inv n0 p lo hi w rest c c' :
  rep (den n0 (Class p)) lo hi w rest c c' ->
  Forall (fun x => p x = true) w /\ lo <= length w /\
  match hi with Some h => length w <= h | None => True end.
Proof.
  intros H.
  induction H as [hi rest c | lo hi w1 w2 rest c c1 c2 Hhi Hw1 H1 _ IH].
  - repeat split; [constructor | simpl; lia | destruct hi; simpl; lia].
  - destruct H1 as (x & -> & Hp & ->). destruct IH as (IH1 & IH2 & IH3).
    simpl. repeat split.
    + now constructor.
    + lia.
    + destruct hi as [[|h]|]; simpl in *; [congruence | lia | exact I].
Qed.

Lemma matches_class_rep g lo hi p w :
  matches (Rep g lo hi (Class p)) w <->
  Forall (fun x => p x = true) w /\ lo <= length w /\
  match hi with Some h => length w <= h | None => True end.
Proof.
  unfold matches. cbn [den]. split.
  - apply (@rep_class_inv 0).
  - intros (Hf & Hlo & Hhi). revert lo hi Hlo Hhi.
    induction Hf as [|x w Hx Hf IH]; intros lo hi Hlo Hhi; simpl in *.
    + replace lo with 0 by lia. constructor.
    + apply (@rep_more _ lo hi [x] w [] [] [] []).
      * destruct hi as [[|h]|]; [lia | discriminate | discriminate].
      * discriminate.
      * exists x. auto.
      * apply IH; [lia|]. destruct hi as [[|h]|]; simpl; [lia | lia | exact I].
Qed.

Lemma matches_seq r1 r2 w :
  simple r1 = true -> simple r2 = true ->
  matches (Seq r1 r2) w <->
  exists w1 w2, w = w1 ++ w2 /\ matches r1 w1 /\ matches r2 w2.
Proof.
  intros H1 H2. unfold matches at 1. cbn [den]. split.
  - intros (w1 & w2 & c1 & -> & Ha & Hb).
    apply den_matches in Ha as [Ha ->]; [|assumption].
    exists w1, w2. auto.
  - intros (w1 & w2 & -> & Ha & Hb). exists w1, w2, [].
    repeat split; [|exact Hb]. apply den_matches; auto.
Qed.

Lemma matches_class p w :
  matches (Class p) w <-> exists x, w = [x] /\ p x = true.
Proof.
  unfold matches. cbn [den]. split.
  - intros (x & -> & Hp & _). eauto.
  - intros (x & -> & Hp). eauto.
Qed.

Lemma matches_eps w : matches Eps w <-> w = [].
Proof. unfold matches. cbn [den]. tauto. Qed.

(** A literal. *)
Lemma simple_lit_of l : simple (lit_of l) = true.
Proof. induction l; simpl; auto. Qed.

Lemma matches_lit_of l w : matches (lit_of l) w <-> w = l.
Proof.
  revert w. induction l as [|x l IH]; intros w; simpl.
  - apply matches_eps.
  - rewrite matches_seq; [|reflexivity | apply simple_lit_of]. split.
    + intros (w1 & w2 & -> & H1 & H2). apply matches_class in H1.
      destruct H1 as (y & -> & Hy). apply N.eqb_eq in Hy. subst y.
      apply IH in H2. now subst.
    + intros ->. exists [x], l. repeat split.
      * apply matches_class. exists x. now rewrite N.eqb_refl.
      * now apply IH.
Qed.



(** ** The shapes of the patterns *)

Section Shapes.

Variable U : unicode_db.

Definition digit_or_space (c : char) : bool := isdecimal U c || isspace c.

(** The words of [\d{1,3}(?:\s?\d{3})*,\d{2}]: digits and spaces that begin
    with a digit, a comma, two digits. *)
Definition number_shape (w : str) : Prop :=
  exists d0 body d1 d2,
    w = (d0 :: body) ++ [44%N; d1; d2] /\
    isdecimal U d0 = true /\
    Forall (fun x => digit_or_space x = true) body /\
    isdecimal U d1 = true /\ isdecimal U d2 = true.

Definition spaces (w : str) : Prop :=
  w <> [] /\ Forall (fun x => isspace x = true) w.

Lemma matches_spaces w : matches (plus space) w <-> spaces w.
Proof.
  unfold plus, space, spaces. rewrite matches_class_rep.
  destruct w; simpl; intuition (try congruence; try lia).
Qed.

Lemma matches_times n r w :
  matches (times n n (Class r)) w <->
  length w = n /\ Forall (fun x => r x = true) w.
Proof. unfold times. rewrite matches_class_rep. intuition lia. Qed.

Lemma matches_chr_comma w : matches (chr ",") w <-> w = [44%N].
Proof.
  change (chr ",") with (Class (N.eqb 44)). rewrite matches_class. split.
  - intros (x & -> & Hx). apply N.eqb_eq in Hx. now subst.
  - intros ->. now exists 44%N.
Qed.

(** The words of the optional groups of thousands. *)
Lemma matches_thousands w :
  matches (star (opt space ++ times 3 3 (digit U))%re) w ->
  Forall (fun x => digit_or_space x = true) w.
Proof.
  unfold matches, star. cbn [den]. intros H.
  eapply (@rep_mono _ (fun w _ _ _ =>
                         Forall (fun x => digit_or_space x = true) w)) in H.
  - clear -H. induction H; [constructor | apply Forall_app; auto].
  - clear. intros w rest c c' (w1 & w2 & c1 & -> & H1 & H2).
    apply rep_class_inv in H1 as (H1 & _). apply rep_class_inv in H2 as (H2 & _).
    apply Forall_app. split; eapply Forall_impl; try eassumption;
      unfold digit_or_space; intros a Ha; rewrite Ha; auto using orb_true_r.
Qed.

Lemma number_re_shape w : matches (number_re U) w -> number_shape w.
Proof.
  unfold number_re. intros H.
  apply matches_seq in H as (w1 & r1 & -> & H1 & H); [|reflexivity..].
  apply matches_seq in H as (w2 & r2 & -> & H2 & H); [|reflexivity..].
  apply matches_seq in H as (w3 & w4 & -> & H3 & H4); [|reflexivity..].
  apply matches_chr_comma in H3. subst w3.
  apply matches_times in H4 as (Hl & H4).
  destruct w4 as [|d1 [|d2 [|]]]; try discriminate.
  apply matches_class_rep in H1 as (H1 & Hl1 & _).
  apply matches_thousands in H2.
  destruct w1 as [|d0 w1]; [simpl in Hl1; lia|].
  exists d0, (w1 ++ w2), d1, d2. repeat split.
  - simpl. now rewrite <- app_assoc.
  - now inversion H1.
  - apply Forall_app. split; [|assumption].
    inversion H1; subst. eapply Forall_impl; [|eassumption].
    unfold digit_or_space. intros a Ha. simpl in Ha. now rewrite Ha.
  - now inversion H4.
  - inversion H4 as [|? ? ? H5]; subst. now inversion H5.
Qed.

Lemma signed_re_shape w :
  matches (signed_re U) w <->
  exists sign n, w = sign ++ n /\ (sign = [] \/ sign = [45%N]) /\
                 matches (number_re U) n.
Proof.
  unfold signed_re. rewrite matches_seq; [|reflexivity..].
  change (opt (chr "-")) with (Rep true 0 (Some 1) (Class (N.eqb 45))).
  split; intros (sign & n & -> & H1 & H2); exists sign, n;
    (repeat split; [|assumption]).
  - apply matches_class_rep in H1 as (H1 & _ & Hl).
    destruct sign as [|x [|y sign]]; [now left | right | simpl in Hl; lia].
    inversion H1 as [|? ? Hx _]; subst. apply N.eqb_eq in Hx. now subst.
  - apply matches_class_rep.
    destruct H1 as [-> | ->]; simpl; repeat split; auto.
Qed.

(** The five fields of a transaction line and what separates them. *)
Record five_fields (description : regex)
       (date ws1 id ws2 d ws3 amt ws4 bal : str) : Prop := {
  ff_date : matches (date_re U) date;
  ff_ws1 : spaces ws1;
  ff_id : matches (plus upper_digit) id;
  ff_ws2 : spaces ws2;
  ff_description : matches description d;
  ff_ws3 : spaces ws3;
  ff_amount : matches (signed_re U) amt;
  ff_ws4 : spaces ws4;
  ff_balance : matches (number_re U) bal
}.

(** What [transaction_re] matches: the whole subject, but for a last
    newline, made of the five fields. *)
Lemma den_transaction_re n0 desc w rest c c' :
  simple desc = true ->
  den n0 (transaction_re U desc) w rest c c' <->
  exists date ws1 id ws2 d ws3 amt ws4 bal,
    w = date ++ ws1 ++ id ++ ws2 ++ d ++ ws3 ++ amt ++ ws4 ++ bal /\
    length (w ++ rest) = n0 /\ (rest = [] \/ rest = [10%N]) /\
    five_fields desc date ws1 id ws2 d ws3 amt ws4 bal /\
    c' = [(5, bal); (4, amt); (3, d); (2, id); (1, date)] ++ c.
Proof.
  intros Hs. unfold transaction_re. cbn [den]. split.
  - intros (w0 & r0 & c0 & -> & (-> & -> & Hlen)
            & date & r1 & c1 & -> & (c1' & Hdate & ->)
            & ws1 & r2 & c2 & -> & Hws1
            & id & r3 & c3 & -> & (c3' & Hid & ->)
            & ws2 & r4 & c4 & -> & Hws2
            & d & r5 & c5 & -> & (c5' & Hd & ->)
            & ws3 & r6 & c6 & -> & Hws3
            & amt & r7 & c7 & -> & (c7' & Hamt & ->)
            & ws4 & r8 & c8 & -> & Hws4
            & bal & r9 & c9 & -> & (c9' & Hbal & ->) & (-> & -> & Hrest)).
    repeat match goal with
           | H : den _ ?r _ _ _ _ |- _ =>
               apply den_matches in H;
               [destruct H | first [exact Hs | reflexivity]]
           end.
    subst. rewrite matches_spaces in *. rewrite app_nil_r in *.
    exists date, ws1, id, ws2, d, ws3, amt, ws4, bal.
    split; [reflexivity|].
    split; [first [assumption | now rewrite <- ?app_assoc]|].
    split; [assumption|].
    split; [constructor; assumption | reflexivity].
  - intros (date & ws1 & id & ws2 & d & ws3 & amt & ws4 & bal
            & -> & Hl & Hr & [] & ->).
    rewrite <- !matches_spaces in *.
    exists [], (date ++ ws1 ++ id ++ ws2 ++ d ++ ws3 ++ amt ++ ws4 ++ bal), c.
    split; [reflexivity|]. split; [auto|].
    exists date, (ws1 ++ id ++ ws2 ++ d ++ ws3 ++ amt ++ ws4 ++ bal),
      ((1, date) :: c).
    split; [reflexivity|]. split.
    { exists c. split; [|reflexivity]. apply den_matches; auto. }
    exists ws1, (id ++ ws2 ++ d ++ ws3 ++ amt ++ ws4 ++ bal), ((1, date) :: c).
    split; [reflexivity|]. split; [apply den_matches; auto|].
    exists id, (ws2 ++ d ++ ws3 ++ amt ++ ws4 ++ bal),
      ((2, id) :: (1, date) :: c).
    split; [reflexivity|]. split.
    { eexists. split; [|reflexivity]. apply den_matches; auto. }
    exists ws2, (d ++ ws3 ++ amt ++ ws4 ++ bal), ((2, id) :: (1, date) :: c).
    split; [reflexivity|]. split; [apply den_matches; auto|].
    exists d, (ws3 ++ amt ++ ws4 ++ bal),
      ((3, d) :: (2, id) :: (1, date) :: c).
    split; [reflexivity|]. split.
    { eexists. split; [|reflexivity]. apply den_matches; auto. }
    exists ws3, (amt ++ ws4 ++ bal), ((3, d) :: (2, id) :: (1, date) :: c).
    split; [reflexivity|]. split; [apply den_matches; auto|].
    exists amt, (ws4 ++ bal), ((4, amt) :: (3, d) :: (2, id) :: (1, date) :: c).
    split; [reflexivity|]. split.
    { eexists. split; [|reflexivity]. apply den_matches; auto. }
    exists ws4, bal, ((4, amt) :: (3, d) :: (2, id) :: (1, date) :: c).
    split; [reflexivity|]. split; [apply den_matches; auto|].
    exists bal, [], ((5, bal) :: (4, amt) :: (3, d) :: (2, id) :: (1, date) :: c).
    split; [now rewrite app_nil_r|]. split.
    { eexists. split; [|reflexivity]. apply den_matches; auto. }
    simpl. auto.
Qed.

End Shapes.

(** ** Floats read from text *)

Section FloatFacts.

Variable U : unicode_db.

Import Float.

(** Rounding keeps the sign. *)
Lemma round_sign neg num den :
  match round neg num den with
  | F_nan => False
  | F_inf s | F_num s _ _ => s = neg
  end.
Proof.
  unfold round. cbv zeta.
  repeat match goal with
         | |- context [if ?b then _ else _] => destruct b
         end; reflexivity.
Qed.

Lemma of_decimal_sign neg digits e :
  match of_decimal neg digits e with
  | F_nan => False
  | F_inf s | F_num s _ _ => s = neg
  end.
Proof.
  unfold of_decimal.
  destruct (digits =? 0)%N; [reflexivity|].
  destruct (0 <=? e)%Z; apply round_sign.
Qed.

(** A character that is no sign and begins none of [inf] and [nan]. *)
Definition plain (c : char) : bool :=
  negb (c =? 45)%N && negb (c =? 43)%N
  && negb (ascii_lower c =? 105)%N && negb (ascii_lower c =? 110)%N.

Definition all_plain (s : str) : Prop := Forall (fun c => plain c = true) s.

Lemma lstrip_ascii_plain s : all_plain s -> all_plain (lstrip_ascii s).
Proof.
  induction 1 as [|c s Hc Hs IH]; simpl; [constructor|].
  destruct (ascii_space c); [exact IH | now constructor].
Qed.

Lemma underscores_plain s : forall prev t,
  underscores prev s = Some t -> all_plain s -> all_plain t.
Proof.
  induction s as [|c s IH]; intros prev t H Hs; simpl in H.
  - destruct (prev =? 95)%N; [discriminate|]. injection H as <-. constructor.
  - inversion Hs as [|? ? Hc Hs']; subst.
    destruct (c =? 95)%N.
    + destruct (ascii_digit prev); [eauto | discriminate].
    + destruct ((prev =? 95)%N && negb (ascii_digit c)); [discriminate|].
      destruct (underscores c s) as [t'|] eqn:E; [|discriminate].
      injection H as <-. constructor; [assumption|].
      exact (IH _ _ E Hs').
Qed.

Lemma number_plain s x :
  number s = Some x -> all_plain s -> nonneg x = true.
Proof.
  unfold number. intros H Hs.
  assert (Hsign : take_sign s = (false, snd (take_sign s)) /\
                  all_plain (snd (take_sign s))).
  { destruct Hs as [|c s Hc Hs]; simpl; [split; [reflexivity | constructor]|].
    pose proof Hc as Hc'. unfold plain in Hc.
    destruct (c =? 45)%N; [discriminate|].
    destruct (c =? 43)%N; [discriminate|]. simpl. split; auto.
    constructor; auto. }
  destruct Hsign as [E Hs']. rewrite E in H.
  set (s0 := snd (take_sign s)) in *. clearbody s0.
  assert (Hname : Text.eqb (map ascii_lower s0) (u "inf") = false /\
                  Text.eqb (map ascii_lower s0) (u "infinity") = false /\
                  Text.eqb (map ascii_lower s0) (u "nan") = false).
  { destruct Hs' as [|c s1 Hc _]; [repeat split|].
    unfold plain in Hc. apply andb_prop in Hc as [Hc Hn].
    apply andb_prop in Hc as [_ Hi].
    apply negb_true_iff in Hn, Hi.
    change (u "inf") with [105; 110; 102]%N.
    change (u "infinity") with [105; 110; 102; 105; 110; 105; 116; 121]%N.
    change (u "nan") with [110; 97; 110]%N.
    simpl. rewrite Hn, Hi. auto. }
  destruct Hname as (E1 & E2 & E3). rewrite E1, E2, E3 in H. simpl in H.
  destruct (span_digits s0) as [ip s1].
  destruct (match s1 with
            | [] => ([], [])
            | c :: t => if (c =? 46)%N then span_digits t else ([], s1)
            end) as [fp s2].
  destruct (ip ++ fp); [discriminate|].
  destruct (exponent s2); [|discriminate].
  injection H as <-.
  match goal with
  | |- nonneg (of_decimal ?n ?d ?e) = true =>
      pose proof (of_decimal_sign n d e) as Hd;
      destruct (of_decimal n d e)
  end; simpl in *; subst; tauto.
Qed.

(** What [float()] reads from plain characters is not negative. *)
Lemma py_float_plain s x :
  all_plain (map (to_ascii U) s) -> py_float U s = Ok x -> nonneg x = true.
Proof.
  unfold py_float. intros Hs H.
  match type of H with
  | match underscores _ ?t with _ => _ end = _ =>
      assert (Ht : all_plain t); [|destruct (underscores 0%N t) as [t'|] eqn:E]
  end.
  - apply Forall_rev, lstrip_ascii_plain, Forall_rev, lstrip_ascii_plain, Hs.
  - destruct (number t') eqn:En; [|discriminate]. injection H as <-.
    eapply number_plain; [exact En|]. eapply underscores_plain; eauto.
  - discriminate.
Qed.

End FloatFacts.

(** ** Amounts *)

Section Amounts.

Variable U : unicode_db.

Import Float.

Lemma plain_iff x :
  plain x = true <->
  (x <> 45 /\ x <> 43 /\ x <> 73 /\ x <> 105 /\ x <> 78 /\ x <> 110)%N.
Proof.
  unfold plain, ascii_lower, between.
  destruct (N.leb_spec 65 x), (N.leb_spec x 90); simpl;
    rewrite !andb_true_iff, !negb_true_iff, !N.eqb_neq; lia.
Qed.

Lemma isdecimal_ascii c :
  (c < 128)%N -> isdecimal U c = between 48 57 c.
Proof.
  intros H. unfold isdecimal. rewrite (@todecimal_ascii U c H).
  unfold ascii_decimal. now destruct (between 48 57 c).
Qed.

Lemma isdecimal_not_space c : isdecimal U c = true -> isspace c = false.
Proof.
  unfold isdecimal. intros H. destruct (isspace c) eqn:E; [|reflexivity].
  now rewrite (@todecimal_space U c E) in H.
Qed.

Lemma between_spec lo hi c :
  between lo hi c = true <-> (lo <= c <= hi)%N.
Proof. unfold between. rewrite andb_true_iff, !N.leb_le. tauto. Qed.

Lemma isspace_spec c :
  isspace c = true <->
  (9 <= c <= 13 \/ 28 <= c <= 32 \/ c = 133 \/ c = 160 \/ c = 5760 \/
   8192 <= c <= 8202 \/ c = 8232 \/ c = 8233 \/ c = 8239 \/ c = 8287 \/
   c = 12288)%N.
Proof.
  unfold isspace. rewrite !orb_true_iff, !between_spec, !N.eqb_eq. tauto.
Qed.

(** What [float()] makes of the characters of an amount is plain. *)
Lemma to_ascii_plain c :
  isdecimal U c = true \/ isspace c = true \/ c = 46%N ->
  plain (to_ascii U c) = true.
Proof.
  intros H. apply plain_iff. unfold to_ascii.
  destruct (N.ltb_spec c 127) as [Hc | Hc].
  - destruct H as [H | [H | ->]]; [| |lia].
    + rewrite isdecimal_ascii in H by lia. apply between_spec in H. lia.
    + apply isspace_spec in H. lia.
  - destruct (isspace c); [lia|].
    destruct (todecimal U c) as [d|] eqn:E; [|lia].
    apply todecimal_digit in E. lia.
Qed.

Definition amount_char (c : char) : bool :=
  isdecimal U c || isspace c || (c =? 44)%N.

Lemma cleaned_plain s :
  Forall (fun c => amount_char c = true) s ->
  all_plain (map (to_ascii U) (cleaned s)).
Proof.
  unfold cleaned, replace_char, remove_char.
  induction 1 as [|c s Hc Hs IH]; simpl; [constructor|].
  destruct (N.eqb_spec c 32); simpl; [exact IH|].
  constructor; [|exact IH]. apply to_ascii_plain.
  unfold amount_char in Hc. rewrite !orb_true_iff in Hc.
  destruct (N.eqb_spec c 44); [auto | intuition discriminate].
Qed.

(** [clean_amount] spelled out: it never raises, and it logs only when it
    substitutes zero. *)
Lemma clean_amount_eq s w :
  clean_amount U s w =
  match s with
  | [] => (Ok zero, w)
  | _ =>
      match py_float U (cleaned s) with
      | Ok x => (Ok x, w)
      | Raise _ =>
          (Ok zero, snd (logger WARNING (Could_not_parse_amount s) w))
      end
  end.
Proof.
  unfold clean_amount. destruct s; [reflexivity|].
  unfold try_except, lift. now destruct (py_float U (cleaned (c :: s))).
Qed.

Lemma clean_amount_total s w :
  exists x w', clean_amount U s w = (Ok x, w').
Proof.
  rewrite clean_amount_eq. destruct s; [eauto|].
  destruct (py_float U (cleaned (c :: s))); eauto.
Qed.

Lemma clean_amount_nonneg s w x w' :
  Forall (fun c => amount_char c = true) s ->
  clean_amount U s w = (Ok x, w') -> nonneg x = true.
Proof.
  intros Hs. rewrite clean_amount_eq. destruct s as [|c s].
  - now intros [= <- _].
  - destruct (py_float U (cleaned (c :: s))) eqn:E.
    + intros [= <- _]. eapply py_float_plain; [|exact E].
      now apply cleaned_plain.
    + now intros [= <- _].
Qed.

Lemma number_shape_chars w :
  number_shape U w -> Forall (fun c => amount_char c = true) w.
Proof.
  intros (d0 & body & d1 & d2 & -> & H0 & Hb & H1 & H2).
  unfold amount_char. apply Forall_app. split.
  - constructor; [now rewrite H0|].
    eapply Forall_impl; [|exact Hb]. unfold digit_or_space.
    intros a Ha. now rewrite Ha.
  - repeat constructor; [| now rewrite H1 | now rewrite H2].
    apply orb_true_r.
Qed.

End Amounts.

(** ** Transaction lines *)

Section Lines.

Variable U : unicode_db.

(** What a pattern [^literal\s+(number)$] matches. *)
Lemma den_literal_number n0 (l : str) w rest c c' :
  den n0 (Bol ++ lit_of l ++ plus space ++ Group 1 (number_re U) ++ Eol)%re
      w rest c c' <->
  exists ws bal,
    w = l ++ ws ++ bal /\
    length (w ++ rest) = n0 /\ (rest = [] \/ rest = [10%N]) /\
    spaces ws /\ matches (number_re U) bal /\ c' = (1, bal) :: c.
Proof.
  cbn [den]. split.
  - intros (w0 & r0 & c0 & -> & (-> & -> & Hlen)
            & l' & r1 & c1 & -> & Hl
            & ws & r2 & c2 & -> & Hws
            & bal & r3 & c3 & -> & (c3' & Hbal & ->) & (-> & -> & Hrest)).
    apply den_matches in Hl as [Hl ->]; [|apply simple_lit_of].
    apply den_matches in Hws as [Hws ->]; [|reflexivity].
    apply den_matches in Hbal as [Hbal ->]; [|reflexivity].
    apply matches_lit_of in Hl. subst l'. apply matches_spaces in Hws.
    rewrite app_nil_r in *. exists ws, bal.
    split; [apply app_nil_l|]. split; [exact Hlen|].
    split; [exact Hrest|]. split; [exact Hws|].
    split; [exact Hbal | reflexivity].
  - intros (ws & bal & -> & Hlen & Hrest & Hws & Hbal & ->).
    apply matches_spaces in Hws.
    exists [], (l ++ ws ++ bal), c.
    split; [symmetry; apply app_nil_l|].
    split; [split; [reflexivity | split; [reflexivity | exact Hlen]]|].
    exists l, (ws ++ bal), c.
    split; [reflexivity|]. split.
    { apply den_matches; [apply simple_lit_of|]. split; [|reflexivity].
      now apply matches_lit_of. }
    exists ws, bal, c. split; [reflexivity|].
    split; [apply den_matches; [reflexivity | split; [exact Hws | reflexivity]]|].
    exists bal, [], ((1, bal) :: c).
    split; [symmetry; apply app_nil_r|]. split.
    { exists c. split; [|reflexivity].
      apply den_matches; [reflexivity | split; [exact Hbal | reflexivity]]. }
    split; [reflexivity | split; [reflexivity | exact Hrest]].
Qed.

Lemma den_balance_transfer n0 w rest c c' :
  den n0 (balance_transfer U) w rest c c' <->
  exists ws bal,
    w = u "Saldo z przeniesienia" ++ ws ++ bal /\
    length (w ++ rest) = n0 /\ (rest = [] \/ rest = [10%N]) /\
    spaces ws /\ matches (number_re U) bal /\ c' = (1, bal) :: c.
Proof. unfold balance_transfer. apply den_literal_number. Qed.

(** The group that holds the balance. *)
Definition balance_group (pattern_name : string) : nat :=
  if String.eqb pattern_name "balance_transfer" then 1 else 5.

Lemma transaction_of_balance name line m w t w' :
  transaction_of U name line m w = (Ok t, w') ->
  exists b w1 w2,
    clean_amount U (group (balance_group name) m) w1 = (Ok b, w2) /\
    dict_get "balance" t = Some (VFloat b).
Proof.
  unfold transaction_of, balance_group.
  destruct (String.eqb name "balance_transfer"); unfold bind, ret.
  - destruct (clean_amount_total U (group 1 m) w) as (b & w1 & E).
    rewrite E. intros [= <- <-]. exists b, w, w1. auto.
  - destruct (clean_amount_total U (group 4 m) w) as (a & w1 & E).
    rewrite E.
    destruct (clean_amount_total U (group 5 m) w1) as (b & w2 & E2).
    rewrite E2. intros [= <- <-]. exists b, w1, w2. auto.
Qed.

Lemma transaction_of_total name line m w :
  exists t w', transaction_of U name line m w = (Ok t, w').
Proof.
  unfold transaction_of.
  destruct (String.eqb name "balance_transfer"); unfold bind, ret.
  - destruct (clean_amount_total U (group 1 m) w) as (b & w1 & E).
    rewrite E. eauto.
  - destruct (clean_amount_total U (group 4 m) w) as (a & w1 & E).
    rewrite E.
    destruct (clean_amount_total U (group 5 m) w1) as (b & w2 & E2).
    rewrite E2. eauto.
Qed.

Lemma try_patterns_some ps line w t w' :
  try_patterns U ps line w = (Ok (Some t), w') ->
  exists name pattern m,
    In (name, pattern) ps /\ re_match pattern line = Some m /\
    transaction_of U name line m w = (Ok t, w').
Proof.
  induction ps as [|[name pattern] ps IH]; simpl.
  - discriminate.
  - destruct (re_match pattern line) as [m|] eqn:E.
    + unfold bind, ret.
      destruct (transaction_of_total name line m w) as (t' & w1 & Et).
      rewrite Et. intros [= <- <-]. exists name, pattern, m. auto.
    + intros H. destruct (IH H) as (n & p & m & Hin & Hm & Ht).
      exists n, p, m. auto.
Qed.

Lemma try_patterns_none ps line w :
  (forall name pattern, In (name, pattern) ps ->
                        re_match pattern line = None) ->
  try_patterns U ps line w = (Ok None, w).
Proof.
  induction ps as [|[name pattern] ps IH]; simpl; intros H.
  - reflexivity.
  - rewrite (H name pattern) by auto. apply IH. eauto.
Qed.

Lemma parse_transaction_line_some line w t w' :
  parse_transaction_line U line w = (Ok (Some t), w') ->
  exists name pattern m,
    In (name, pattern) (patterns U) /\
    re_match pattern (strip line) = Some m /\
    transaction_of U name (strip line) m w = (Ok t, w').
Proof.
  unfold parse_transaction_line. destruct (strip line) eqn:E.
  - discriminate.
  - apply try_patterns_some.
Qed.

(** Every pattern of the catalog ends in the balance, and in front of the
    balance and the spaces and digits before it stands a character that
    is neither: the comma of the amount, or the last letter of the
    carryover phrase. *)
Lemma match_tail name pattern s m :
  In (name, pattern) (patterns U) ->
  re_match pattern s = Some m ->
  exists front y mid bal rest,
    s = front ++ y :: mid ++ bal ++ rest /\
    (rest = [] \/ rest = [10%N]) /\
    digit_or_space U y = false /\ y <> 45%N /\
    Forall (fun x => digit_or_space U x = true) mid /\
    matches (number_re U) bal /\
    group (balance_group name) m = bal.
Proof.
  intros Hin Hm. apply re_match_sound in Hm as (w & rest & Hs & Hd).
  assert (Hcomma : digit_or_space U 44%N = false).
  { unfold digit_or_space. now rewrite isdecimal_ascii. }
  assert (Ha : digit_or_space U 97%N = false).
  { unfold digit_or_space. now rewrite isdecimal_ascii. }
  assert (Hshape : forall desc, simple desc = true ->
            den (length s) (transaction_re U desc) w rest [] m ->
            exists front y mid bal rest,
              s = front ++ y :: mid ++ bal ++ rest /\
              (rest = [] \/ rest = [10%N]) /\
              digit_or_space U y = false /\ y <> 45%N /\
              Forall (fun x => digit_or_space U x = true) mid /\
              matches (number_re U) bal /\ group 5 m = bal).
  { intros desc Hsimple H.
    apply den_transaction_re in H; [|exact Hsimple].
    destruct H as (date & ws1 & id & ws2 & d & ws3 & amt & ws4 & bal
                   & -> & _ & Hrest
                   & [Hdate Hws1 Hid Hws2 Hdesc Hws3 Hamt Hws4 Hbal] & ->).
    apply signed_re_shape in Hamt as (sign & n & -> & _ & Hn).
    apply number_re_shape in Hn
        as (a0 & abody & a1 & a2 & -> & _ & _ & Ha1 & Ha2).
    exists (date ++ ws1 ++ id ++ ws2 ++ d ++ ws3 ++ sign ++ a0 :: abody),
      44%N, ([a1; a2] ++ ws4), bal, rest.
    split.
    { subst s. repeat rewrite <- app_assoc. simpl.
      repeat (rewrite <- app_assoc; simpl). reflexivity. }
    split; [assumption|]. split; [assumption|]. split; [discriminate|].
    split; [|split; [assumption | reflexivity]].
    apply Forall_app. split.
    - unfold digit_or_space.
      repeat constructor; [now rewrite Ha1 | now rewrite Ha2].
    - destruct Hws4 as [_ Hws]. eapply Forall_impl; [|exact Hws].
      unfold digit_or_space. intros x Hx. rewrite Hx. apply orb_true_r. }
  simpl in Hin.
  destruct Hin as [[= <- <-] | [[= <- <-] | [[= <- <-] | [[= <- <-]
                  | [[= <- <-] | []]]]]];
    try (apply Hshape in Hd; [exact Hd | reflexivity]).
  apply den_balance_transfer in Hd
      as (ws & bal & -> & _ & Hrest & [_ Hws] & Hbal & ->).
  assert (El : u "Saldo z przeniesienia" = u "Saldo z przeniesieni" ++ [97%N])
    by (vm_compute; reflexivity).
  exists (u "Saldo z przeniesieni"), 97%N, ws, bal, rest.
  split; [subst s; rewrite El, <- !app_assoc; reflexivity|].
  split; [assumption|]. split; [assumption|]. split; [discriminate|].
  split; [|split; [assumption | reflexivity]].
  eapply Forall_impl; [|exact Hws].
  unfold digit_or_space. intros x Hx. rewrite Hx. apply orb_true_r.
Qed.

End Lines.

(** ** Lists read from their end *)

Lemma app_same_length_tail (A : Type) (l1 l2 X Y : list A) :
  length l1 = length l2 -> X ++ l1 = Y ++ l2 -> X = Y /\ l1 = l2.
Proof.
  intros Hl H.
  assert (length X = length Y) as HXY.
  { apply (f_equal (@length A)) in H. rewrite !length_app in H. lia. }
  revert Y H HXY. induction X as [|a X IH]; intros [|b Y] H HXY;
    simpl in *; try discriminate; auto.
  injection H as -> H. destruct (IH Y H) as [-> ->]; auto.
Qed.

Lemma first_other (cls : char -> bool) (A B R1 R2 : str) x y :
  Forall (fun c => cls c = true) A -> cls x = false ->
  Forall (fun c => cls c = true) B -> cls y = false ->
  A ++ x :: R1 = B ++ y :: R2 -> x = y.
Proof.
  intros HA Hx. revert B.
  induction HA as [|a A Ha HA IH]; intros B HB Hy H.
  - destruct HB as [|b B Hb HB]; simpl in H; injection H as H1 H2; [auto|].
    congruence.
  - destruct HB as [|b B Hb HB]; simpl in H; injection H as H1 H2.
    + congruence.
    + eapply IH; eauto.
Qed.

(** The last character outside a class is the same however the text is
    cut. *)
Lemma last_other (cls : char -> bool) (A B P Q : str) x y :
  Forall (fun c => cls c = true) A -> cls x = false ->
  Forall (fun c => cls c = true) B -> cls y = false ->
  P ++ x :: A = Q ++ y :: B -> x = y.
Proof.
  intros HA Hx HB Hy H. apply (f_equal (@rev char)) in H.
  rewrite !rev_app_distr in H. simpl in H. rewrite <- !app_assoc in H.
  simpl in H.
  apply (@first_other cls (rev A) (rev B) (rev P) (rev Q) x y);
    auto using Forall_rev.
Qed.

Lemma lstrip_keeps (pre t : str) c :
  isspace c = false -> exists pre', lstrip (pre ++ c :: t) = pre' ++ c :: t.
Proof.
  intros Hc. induction pre as [|a pre IH]; simpl.
  - rewrite Hc. now exists [].
  - destruct (isspace a); [exact IH | now exists (a :: pre)].
Qed.

Lemma rstrip_keeps (s : str) c :
  isspace c = false -> rstrip (s ++ [c]) = s ++ [c].
Proof.
  intros Hc. unfold rstrip. rewrite rev_app_distr. simpl. rewrite Hc.
  simpl. now rewrite rev_involutive.
Qed.

(** ** The balance of a record *)

Section Balance.

Variable U : unicode_db.

Lemma digit_not_space_class c :
  isdecimal U c = true -> isspace c = false.
Proof. apply isdecimal_not_space. Qed.

(** A line that ends in a minus sign and a number is left as it is by
    [strip], but for the spaces in front. *)
Lemma strip_minus pre n :
  number_shape U n ->
  exists pre', strip (pre ++ 45%N :: n) = pre' ++ 45%N :: n.
Proof.
  intros (d0 & body & d1 & d2 & -> & _ & _ & _ & H2).
  unfold strip.
  destruct (@lstrip_keeps pre ((d0 :: body) ++ [44%N; d1; d2]) 45%N
              eq_refl) as (pre' & E).
  exists pre'.
  transitivity (rstrip ((pre' ++ 45%N :: (d0 :: body) ++ [44%N; d1])
                          ++ [d2])).
  - apply f_equal. etransitivity; [exact E|].
    rewrite <- app_assoc. simpl. rewrite <- app_assoc. reflexivity.
  - rewrite rstrip_keeps by now apply isdecimal_not_space with U.
    rewrite <- app_assoc. simpl. rewrite <- app_assoc. reflexivity.
Qed.

(** No pattern of the catalog matches a line that ends in a minus sign
    and a number. *)
Lemma minus_balance_no_match name pattern pre n :
  In (name, pattern) (patterns U) ->
  number_shape U n ->
  re_match pattern (pre ++ 45%N :: n) = None.
Proof.
  intros Hin Hn.
  destruct (re_match pattern (pre ++ 45%N :: n)) as [m|] eqn:Em;
    [exfalso | reflexivity].
  destruct (match_tail _ Hin Em)
    as (front & y & mid & bal & rest & Hs & Hrest & Hy & Hy45 & Hmid
        & Hbal & _).
  apply number_re_shape in Hbal
      as (e0 & bbody & e1 & e2 & -> & He0 & Hbb & He1 & He2).
  destruct Hn as (d0 & body & d1 & d2 & -> & Hd0 & Hb & Hd1 & Hd2).
  assert (H45 : digit_or_space U 45%N = false).
  { unfold digit_or_space. now rewrite isdecimal_ascii. }
  destruct Hrest as [-> | ->].
  - rewrite app_nil_r in Hs.
    assert (E : (pre ++ 45%N :: d0 :: body) ++ [44%N; d1; d2]
                = (front ++ y :: mid ++ e0 :: bbody) ++ [44%N; e1; e2]).
    { rewrite <- !app_assoc. simpl. rewrite <- !app_assoc. exact Hs. }
    apply app_same_length_tail in E as [E _]; [|reflexivity].
    apply Hy45. symmetry.
    apply (@last_other (digit_or_space U) (d0 :: body)
             (mid ++ e0 :: bbody) pre front 45%N y); auto.
    + constructor; [|exact Hb]. unfold digit_or_space. now rewrite Hd0.
    + apply Forall_app. split; [exact Hmid|].
      constructor; [|exact Hbb]. unfold digit_or_space. now rewrite He0.
  - assert (E : (pre ++ 45%N :: (d0 :: body) ++ [44%N; d1]) ++ [d2]
                = (front ++ y :: mid ++ (e0 :: bbody) ++ [44%N; e1; e2])
                    ++ [10%N]).
    { repeat (progress (simpl in Hs; rewrite <- ?app_assoc in Hs)).
      repeat (progress (simpl; rewrite <- ?app_assoc)). exact Hs. }
    apply app_inj_tail in E as [_ ->].
    rewrite isdecimal_ascii in Hd2 by reflexivity. discriminate.
Qed.

End Balance.

(** C10.  Every record [parse_transaction_line] emits has a balance that is
    not negative (a float with the sign bit clear or a zero: the pattern of
    the balance admits no minus sign, so [clean_amount] reads a number
    without a sign or substitutes zero), and a line that ends in a minus
    sign followed by a number of the balance's format matches no rule and
    yields no record. *)
Theorem balance_never_negative (U : unicode_db) :
  (forall line w t w',
      parse_transaction_line U line w = (Ok (Some t), w') ->
      exists b, dict_get "balance" t = Some (VFloat b) /\
                Float.nonneg b = true) /\
  (forall pre n w,
      matches (number_re U) n ->
      parse_transaction_line U (pre ++ 45%N :: n) w = (Ok None, w)).
Proof.
  split.
  - intros line w t w' H.
    apply parse_transaction_line_some in H
        as (name & pattern & m & Hin & Hm & Ht).
    apply transaction_of_balance in Ht as (b & w1 & w2 & Hb & Hget).
    exists b. split; [exact Hget|].
    destruct (match_tail _ Hin Hm)
      as (_ & _ & _ & bal & _ & _ & _ & _ & _ & _ & Hbal & Hg).
    rewrite Hg in Hb.
    eapply clean_amount_nonneg; [|exact Hb].
    now apply number_shape_chars, number_re_shape.
  - intros pre n w Hn. apply number_re_shape in Hn.
    unfold parse_transaction_line.
    destruct (strip_minus pre Hn) as (pre' & ->).
    destruct (pre' ++ 45%N :: n) eqn:E; [now destruct pre'|].
    rewrite <- E. apply try_patterns_none.
    intros name pattern Hin. exact (minus_balance_no_match pre' Hin Hn).
Qed.

(** A decision procedure for [matches], for concrete words. *)
Definition fullmatch (r : regex) (s : str) : bool :=
  match exec 0 r (fun rest c => match rest with [] => Some c | _ => None end)
          s [] with
  | Some _ => true
  | None => false
  end.

Lemma fullmatch_matches r s :
  simple r = true -> fullmatch r s = true -> matches r s.
Proof.
  unfold fullmatch. intros Hs H.
  destruct (exec 0 r _ s []) as [m|] eqn:E; [|discriminate].
  apply exec_sound in E as (w & rest & c' & -> & Hd & Hk).
  destruct rest; [|discriminate]. rewrite app_nil_r.
  apply den_matches in Hd; [|exact Hs]. apply Hd.
Qed.

Definition world0 : world := {| clock := 0; log := [] |}.

Definition sample_line : str :=
  u "01.02.2024 ABC123 PRZELEW WYCHODZĄCY -100,00 900,00".

Definition sample_record : dict :=
  Eval vm_compute in
    match fst (parse_transaction_line Latin.db sample_line world0) with
    | Ok (Some t) => t
    | _ => []
    end.

Lemma balance_never_negative_witness :
  (exists b, dict_get "balance" sample_record = Some (VFloat b) /\
             Float.nonneg b = true) /\
  parse_transaction_line Latin.db
    (u "01.02.2024 ABC X 5,00 " ++ 45%N :: u "3,00") world0
  = (Ok None, world0).
Proof.
  split.
  - apply (proj1 (balance_never_negative Latin.db)
             sample_line world0 sample_record world0).
    vm_compute. reflexivity.
  - apply (proj2 (balance_never_negative Latin.db)).
    apply fullmatch_matches; vm_compute; reflexivity.
Defined.

(** C4.  [clean_amount] returns 1234.56 for "1 234,56" and -12.00 for
    "-12,00" (the binary64 values of these literals); whenever [float()]
    raises on the cleaned text, as for "garbage", it returns 0.0; and it
    raises for no input at all. *)
Theorem clean_amount_normalizes (U : unicode_db) :
  (forall w, clean_amount U (u "1 234,56") w
             = (Ok (F_num false 5429652300748554 (-42)), w)) /\
  Float.of_decimal false 123456 (-2) = F_num false 5429652300748554 (-42) /\
  (forall w, clean_amount U (u "-12,00") w
             = (Ok (F_num true 6755399441055744 (-49)), w)) /\
  Float.of_decimal true 1200 (-2) = F_num true 6755399441055744 (-49) /\
  (forall s w e,
      Float.py_float U (cleaned s) = Raise e ->
      fst (clean_amount U s w) = Ok Float.zero) /\
  (forall w, fst (clean_amount U (u "garbage") w) = Ok Float.zero) /\
  (forall s w, exists x w', clean_amount U s w = (Ok x, w')).
Proof.
  split; [|split; [|split; [|split; [|split; [|split]]]]].
  - intros w. rewrite clean_amount_eq. vm_compute. reflexivity.
  - vm_compute. reflexivity.
  - intros w. rewrite clean_amount_eq. vm_compute. reflexivity.
  - vm_compute. reflexivity.
  - intros s w e H. rewrite clean_amount_eq. destruct s; [reflexivity|].
    now rewrite H.
  - intros w. rewrite clean_amount_eq. vm_compute. reflexivity.
  - intros s w. apply clean_amount_total.
Qed.

Lemma clean_amount_normalizes_witness :
  fst (clean_amount Latin.db (u "12x,5") world0) = Ok Float.zero.
Proof.
  apply (proj1 (proj2 (proj2 (proj2 (proj2
           (clean_amount_normalizes Latin.db)))))
           (u "12x,5") world0 (ValueError (u "12x.5"))).
  vm_compute. reflexivity.
Defined.

(** ** Patterns that agree on the characters of a subject *)

(** Two patterns of the same build whose classes agree on the characters
    that satisfy [P]. *)
Fixpoint agree (P : char -> Prop) (r r' : regex) {struct r} : Prop :=
  match r, r' with
  | Eps, Eps | Bol, Bol | Eol, Eol => True
  | Class p, Class p' => forall c, P c -> p c = p' c
  | Seq a b, Seq a' b' | Alt a b, Alt a' b' => agree P a a' /\ agree P b b'
  | Rep g lo hi a, Rep g' lo' hi' a' =>
      g = g' /\ lo = lo' /\ hi = hi' /\ agree P a a'
  | Group n a, Group n' a' => n = n' /\ agree P a a'
  | _, _ => False
  end.

Section Agree.

Variable P : char -> Prop.
Variable n0 : nat.

Definition cont_agree (k k' : cont) : Prop :=
  forall s c, Forall P s -> k s c = k' s c.

Lemma rep_loop_agree body body' :
  (forall k k' s c, Forall P s -> cont_agree k k' ->
                    body k s c = body' k' s c) ->
  forall fuel g k k' lo hi s c,
    Forall P s -> cont_agree k k' ->
    rep_loop body g k fuel lo hi s c = rep_loop body' g k' fuel lo hi s c.
Proof.
  intros Hb. induction fuel as [|fuel IH]; intros g k k' lo hi s c Hs Hk.
  - reflexivity.
  - simpl.
    assert (Hmore :
              body (fun s' c' =>
                      if Nat.ltb (length s') (length s)
                      then rep_loop body g k fuel (pred lo)
                             (option_map pred hi) s' c'
                      else None) s c
              = body' (fun s' c' =>
                         if Nat.ltb (length s') (length s)
                         then rep_loop body' g k' fuel (pred lo)
                                (option_map pred hi) s' c'
                         else None) s c).
    { apply Hb; [exact Hs|]. intros s' c' Hs'.
      destruct (Nat.ltb (length s') (length s)); [|reflexivity].
      now apply IH. }
    rewrite Hmore, (Hk s c Hs). reflexivity.
Qed.

Lemma exec_agree r :
  forall r' k k' s c,
    agree P r r' -> Forall P s -> cont_agree k k' ->
    exec n0 r k s c = exec n0 r' k' s c.
Proof.
  induction r as [| | |p|r1 IH1 r2 IH2|r1 IH1 r2 IH2|g lo hi r1 IH1|n r1 IH1];
    intros r' k k' s c Ha Hs Hk; destruct r'; cbn [agree] in Ha;
    try contradiction; cbn [exec].
  - now apply Hk.
  - destruct (Nat.eqb (length s) n0); [now apply Hk | reflexivity].
  - destruct s as [|x [|y s]]; [now apply Hk | | reflexivity].
    destruct (N.eqb x 10); [now apply Hk | reflexivity].
  - destruct Hs as [|x s Hx Hs]; [reflexivity|].
    rewrite (Ha x Hx). destruct (p0 x); [now apply Hk | reflexivity].
  - destruct Ha as [Ha1 Ha2]. apply IH1; auto.
    intros s' c' Hs'. now apply IH2.
  - destruct Ha as [Ha1 Ha2].
    rewrite (IH1 _ k k' s c Ha1 Hs Hk), (IH2 _ k k' s c Ha2 Hs Hk).
    reflexivity.
  - destruct Ha as (<- & <- & <- & Ha).
    apply rep_loop_agree; auto; intros; now apply IH1.
  - destruct Ha as [<- Ha].
    apply IH1; auto; intros s' c' Hs'; now apply Hk.
Qed.

Lemma agree_refl r : agree P r r.
Proof. induction r; simpl; auto. Qed.

End Agree.

Lemma re_match_agree P r r' s :
  agree P r r' -> Forall P s -> re_match r s = re_match r' s.
Proof.
  intros Ha Hs. unfold re_match.
  apply exec_agree with (P := P); auto. intros s' c' _. reflexivity.
Qed.

(** ** ASCII subjects *)

Definition is_ascii (c : char) : Prop := (c < 128)%N.

Section Ascii.

Variable U : unicode_db.

Lemma digit_ascii :
  forall c, is_ascii c -> isdecimal U c = isdecimal Latin.db c.
Proof.
  intros c Hc. now rewrite !isdecimal_ascii by exact Hc.
Qed.

Ltac agree_tac :=
  repeat first
    [ apply agree_refl
    | exact digit_ascii
    | progress cbn [agree]
    | split; [|] ].

Lemma number_re_ascii : agree is_ascii (number_re U) (number_re Latin.db).
Proof.
  unfold number_re, digit, times, star, opt. agree_tac; reflexivity.
Qed.

Lemma date_re_ascii : agree is_ascii (date_re U) (date_re Latin.db).
Proof. unfold date_re, digit, times. agree_tac; reflexivity. Qed.

Lemma transaction_re_ascii d :
  agree is_ascii (transaction_re U d) (transaction_re Latin.db d).
Proof.
  unfold transaction_re, signed_re. cbn [agree].
  pose proof number_re_ascii. pose proof date_re_ascii.
  repeat split; auto using agree_refl; exact digit_ascii.
Qed.

Lemma literal_number_ascii (l : str) :
  agree is_ascii
    (Bol ++ lit_of l ++ plus space ++ Group 1 (number_re U) ++ Eol)%re
    (Bol ++ lit_of l ++ plus space ++ Group 1 (number_re Latin.db)
     ++ Eol)%re.
Proof.
  cbn [agree].
  split; [exact I|]. split; [apply agree_refl|].
  split; [apply agree_refl|]. split; [|exact I].
  split; [reflexivity | exact number_re_ascii].
Qed.

Lemma balance_transfer_ascii :
  agree is_ascii (balance_transfer U) (balance_transfer Latin.db).
Proof. unfold balance_transfer. apply literal_number_ascii. Qed.

(** On an ASCII subject the patterns of the catalog do what they do with
    the ASCII digits. *)
Lemma try_patterns_ascii s w :
  Forall is_ascii s ->
  try_patterns U (patterns U) s w = try_patterns U (patterns Latin.db) s w.
Proof.
  intros Hs. unfold patterns. cbn [try_patterns].
  unfold main_transaction, card_transaction, transfer_transaction,
    currency_exchange.
  rewrite !(fun d => re_match_agree _ _ (transaction_re_ascii d) Hs).
  rewrite (re_match_agree _ _ balance_transfer_ascii Hs).
  reflexivity.
Qed.

End Ascii.

(** ** A page of one line *)

Lemma single_line_page U p file line t w :
  line <> [] -> split_on 10 line = [line] -> t <> [] ->
  (forall w, parse_transaction_line U line w = (Ok (Some t), w)) ->
  fst (parse_pdf_file U {| path := p; name := file; pages := [Some line] |} w)
  = [dict_set "page" (VInt 1) (dict_set "source_file" (VStr file) t)].
Proof.
  intros Hline Hsplit Ht Hparse. unfold parse_pdf_file.
  cbn [pages name path pdf_pages].
  destruct line as [|c l]; [congruence|]. rewrite Hsplit.
  cbn [page_lines]. rewrite Hparse.
  destruct t as [|kv t]; [congruence|].
  unfold extract_additional_details. cbn [length Nat.add Nat.min].
  unfold range. cbn [Nat.sub seq scan_lines]. unfold ret.
  cbn [page_lines pdf_pages dict_update fold_left app fst].
  reflexivity.
Qed.

Definition carryover_line : str := u "Saldo z przeniesienia 5 000,00".

Definition carryover_record : dict :=
  [("date", VNone);
   ("transaction_id", VStr (u "BALANCE_TRANSFER"));
   ("type", VStr (u "Saldo z przeniesienia"));
   ("description", VStr (u "Balance transfer from previous period"));
   ("amount", VFloat (F_num false 0 0));
   ("balance", VFloat (F_num false 5497558138880000 (-40)));
   ("raw_line", VStr carryover_line);
   ("pattern_used", VStr (u "balance_transfer"))]%string.

(** C6.  The line "Saldo z przeniesienia 5 000,00" yields exactly one
    record: no date, the identifier BALANCE_TRANSFER, the amount 0.0 and the
    balance 5000.00 (the binary64 value of that literal), whatever the
    state of the log and the Unicode tables of the Python at hand. *)
Theorem carryover_line_record (U : unicode_db) (w : world) (p file : str) :
  parse_transaction_line U carryover_line w = (Ok (Some carryover_record), w)
  /\ fst (parse_pdf_file U {| path := p; name := file;
                              pages := [Some carryover_line] |} w)
     = [carryover_record ++ [("source_file", VStr file);
                             ("page", VInt 1)]%string]
  /\ Float.of_decimal false 500000 (-2)
     = F_num false 5497558138880000 (-40).
Proof.
  assert (H : forall w, parse_transaction_line U carryover_line w
                        = (Ok (Some carryover_record), w)).
  { intros w1. unfold parse_transaction_line.
    change (strip carryover_line) with carryover_line.
    assert (Ha : Forall is_ascii carryover_line).
    { unfold is_ascii. vm_compute. repeat constructor. }
    transitivity (try_patterns U (patterns U) carryover_line w1);
      [reflexivity|].
    rewrite try_patterns_ascii by exact Ha. vm_compute. reflexivity. }
  split; [apply H|]. split; [|vm_compute; reflexivity].
  etransitivity;
    [apply (@single_line_page U p file carryover_line carryover_record w);
     [discriminate | reflexivity | discriminate | exact H]
    | reflexivity].
Qed.

(** ** Which rule names itself in a record *)

Section RuleOrder.

Variable U : unicode_db.

Lemma matches_alt r1 r2 w :
  matches (Alt r1 r2) w <-> matches r1 w \/ matches r2 w.
Proof. unfold matches. cbn [den]. tauto. Qed.

(** A text without a newline is a description of the generic rule. *)
Definition text_ok (l : str) : bool :=
  forallb (fun c => negb (N.eqb c 10)) l && Nat.leb 1 (length l).

Lemma lit_is_description l d :
  text_ok l = true ->
  matches (lit_of l) d -> matches (plus_lazy any) d.
Proof.
  unfold text_ok. intros Hl H. apply andb_prop in Hl as [Hnl Hlen].
  apply matches_lit_of in H. subst d.
  unfold plus_lazy, any. apply matches_class_rep.
  repeat split; [|now apply Nat.leb_le].
  apply Forall_forall. intros x Hx.
  exact (proj1 (forallb_forall _ _) Hnl x Hx).
Qed.

Lemma alt2_is_description l1 l2 d :
  text_ok l1 = true -> text_ok l2 = true ->
  matches (lit_of l1 || lit_of l2) d -> matches (plus_lazy any) d.
Proof.
  intros H1 H2 H. apply matches_alt in H as [H | H].
  - exact (@lit_is_description l1 d H1 H).
  - exact (@lit_is_description l2 d H2 H).
Qed.

Lemma alt3_is_description l1 l2 l3 d :
  text_ok l1 = true -> text_ok l2 = true -> text_ok l3 = true ->
  matches (lit_of l1 || lit_of l2 || lit_of l3) d ->
  matches (plus_lazy any) d.
Proof.
  intros H1 H2 H3 H. apply matches_alt in H as [H | H].
  - exact (@alt2_is_description l1 l2 d H1 H2 H).
  - exact (@lit_is_description l3 d H3 H).
Qed.

Lemma specific_matches_main desc s m :
  simple desc = true ->
  (forall d, matches desc d -> matches (plus_lazy any) d) ->
  re_match (transaction_re U desc) s = Some m ->
  exists m', re_match (main_transaction U) s = Some m'.
Proof.
  intros Hs Hd Hm. apply re_match_sound in Hm as (w & rest & E & Hden).
  apply den_transaction_re in Hden; [|exact Hs].
  destruct Hden as (date & ws1 & id & ws2 & d & ws3 & amt & ws4 & bal
                    & Hw & Hlen & Hrest
                    & [Hdate Hws1 Hid Hws2 Hdesc Hws3 Hamt Hws4 Hbal] & Hm).
  eapply re_match_complete; [exact E|].
  unfold main_transaction. apply den_transaction_re; [reflexivity|].
  exists date, ws1, id, ws2, d, ws3, amt, ws4, bal.
  repeat split; auto; try apply Hws1; try apply Hws2; try apply Hws3;
    try apply Hws4.
Qed.

Lemma transaction_of_pattern_used pattern_name line m w t w' :
  transaction_of U pattern_name line m w = (Ok t, w') ->
  dict_get "pattern_used" t = Some (VStr (u pattern_name)).
Proof.
  unfold transaction_of.
  destruct (String.eqb pattern_name "balance_transfer"); unfold bind, ret.
  - destruct (clean_amount_total U (group 1 m) w) as (b & w1 & E).
    rewrite E. now intros [= <- <-].
  - destruct (clean_amount_total U (group 4 m) w) as (a & w1 & E).
    rewrite E.
    destruct (clean_amount_total U (group 5 m) w1) as (b & w2 & E2).
    rewrite E2. now intros [= <- <-].
Qed.

(** The generic rule stands first in [patterns] and matches whatever a
    specific rule matches, so no record is ever made by a specific
    rule. *)
Lemma specific_rules_unreachable line w t w' :
  parse_transaction_line U line w = (Ok (Some t), w') ->
  dict_get "pattern_used" t = Some (VStr (u "main_transaction")) \/
  dict_get "pattern_used" t = Some (VStr (u "balance_transfer")).
Proof.
  unfold parse_transaction_line. destruct (strip line) as [|c l] eqn:E;
    [discriminate|].
  set (s := c :: l). unfold patterns. cbn [try_patterns].
  destruct (re_match (main_transaction U) s) as [m|] eqn:Emain.
  - unfold bind, ret.
    destruct (transaction_of_total U "main_transaction" s m w)
      as (t' & w1 & Et).
    rewrite Et. intros [= <- <-]. left.
    eapply transaction_of_pattern_used; exact Et.
  - assert (Hno : forall desc m,
               simple desc = true ->
               (forall d, matches desc d -> matches (plus_lazy any) d) ->
               re_match (transaction_re U desc) s = Some m -> False).
    { intros desc m Hs Hd Hm.
      destruct (@specific_matches_main desc s m Hs Hd Hm) as (m' & Hm').
      congruence. }
    destruct (re_match (card_transaction U) s) as [m|] eqn:E1.
    { exfalso. unfold card_transaction in E1.
      refine (Hno _ m _ _ E1); [vm_compute; reflexivity|].
      intros d Hd. revert Hd. apply alt3_is_description; vm_compute; reflexivity. }
    destruct (re_match (transfer_transaction U) s) as [m|] eqn:E2.
    { exfalso. unfold transfer_transaction in E2.
      refine (Hno _ m _ _ E2); [vm_compute; reflexivity|].
      intros d Hd. revert Hd. apply alt2_is_description; vm_compute; reflexivity. }
    destruct (re_match (currency_exchange U) s) as [m|] eqn:E3.
    { exfalso. unfold currency_exchange in E3.
      refine (Hno _ m _ _ E3); [vm_compute; reflexivity|].
      intros d Hd. revert Hd. apply alt2_is_description; vm_compute; reflexivity. }
    destruct (re_match (balance_transfer U) s) as [m|] eqn:E4;
      [|discriminate].
    unfold bind, ret.
    destruct (transaction_of_total U "balance_transfer" s m w)
      as (t' & w1 & Et).
    rewrite Et. intros [= <- <-]. right.
    eapply transaction_of_pattern_used; exact Et.
Qed.

End RuleOrder.


(** ** The exchange rate always parses *)

Section ExchangeRate.

Variable U : unicode_db.

Import Float.

Definition ascii_digits (s : str) : Prop :=
  Forall (fun c => ascii_digit c = true) s.

Lemma to_ascii_digit c :
  isdecimal U c = true -> ascii_digit (to_ascii U c) = true.
Proof.
  intros H. unfold to_ascii, ascii_digit.
  destruct (N.ltb_spec c 127) as [Hc | Hc].
  - rewrite isdecimal_ascii in H by lia. exact H.
  - rewrite (isdecimal_not_space U c H).
    unfold isdecimal in H. destruct (todecimal U c) as [d|] eqn:E;
      [|discriminate].
    apply todecimal_digit in E. apply between_spec. lia.
Qed.

Lemma ascii_digit_spec c : ascii_digit c = true <-> (48 <= c <= 57)%N.
Proof. apply between_spec. Qed.

Lemma span_digits_app ip t :
  ascii_digits ip ->
  match t with c :: _ => ascii_digit c = false | [] => True end ->
  span_digits (ip ++ t) = (ip, t).
Proof.
  intros Hip Ht. induction Hip as [|c ip Hc Hip IH]; simpl.
  - destruct t as [|c t]; simpl; [reflexivity|]. now rewrite Ht.
  - now rewrite Hc, IH.
Qed.

Lemma underscores_none s :
  Forall (fun c => c <> 95%N) s ->
  forall prev, prev <> 95%N -> underscores prev s = Some s.
Proof.
  induction 1 as [|c s Hc Hs IH]; intros prev Hp; simpl.
  - destruct (N.eqb_spec prev 95); [contradiction | reflexivity].
  - destruct (N.eqb_spec c 95); [contradiction|].
    destruct (N.eqb_spec prev 95); [contradiction|]. simpl.
    now rewrite (IH c Hc).
Qed.

Lemma lstrip_ascii_digit c s :
  ascii_digit c = true -> lstrip_ascii (c :: s) = c :: s.
Proof.
  intros H. simpl. apply ascii_digit_spec in H.
  unfold ascii_space, between.
  destruct (N.leb_spec 9 c), (N.leb_spec c 13), (N.eqb_spec c 32);
    simpl; try reflexivity; lia.
Qed.

(** Digits, a point and digits read as a number. *)
Lemma number_decimal ip fp :
  ascii_digits ip -> ip <> [] -> ascii_digits fp ->
  exists x, number (ip ++ 46%N :: fp) = Some x.
Proof.
  intros Hip Hne Hfp. unfold number.
  destruct ip as [|c ip]; [congruence|].
  inversion Hip as [|? ? Hc Hip']; subst.
  pose proof (proj1 (ascii_digit_spec c) Hc) as Hr.
  assert (Hs : take_sign ((c :: ip) ++ 46%N :: fp)
               = (false, (c :: ip) ++ 46%N :: fp)).
  { simpl. destruct (N.eqb_spec c 45); [lia|].
    destruct (N.eqb_spec c 43); [lia | reflexivity]. }
  rewrite Hs.
  assert (Hlow : ascii_lower c = c).
  { unfold ascii_lower, between.
    destruct (N.leb_spec 65 c), (N.leb_spec c 90); simpl; try reflexivity;
      lia. }
  assert (Hname : forall n l, (n =? c)%N = false ->
            Text.eqb (map ascii_lower ((c :: ip) ++ 46%N :: fp)) (n :: l)
            = false).
  { intros n l Hn. simpl. rewrite Hlow, N.eqb_sym, Hn. reflexivity. }
  change (u "inf") with [105; 110; 102]%N.
  change (u "infinity") with [105; 110; 102; 105; 110; 105; 116; 121]%N.
  change (u "nan") with [110; 97; 110]%N.
  rewrite !Hname by (apply N.eqb_neq; lia). simpl orb. cbv iota.
  rewrite (@span_digits_app (c :: ip) (46%N :: fp) Hip eq_refl).
  rewrite N.eqb_refl.
  assert (Hsp : span_digits fp = (fp, [])).
  { pose proof (@span_digits_app fp [] Hfp I) as E.
    now rewrite app_nil_r in E. }
  rewrite Hsp. simpl. eauto.
Qed.

Lemma py_float_decimal ip fp :
  Forall (fun c => isdecimal U c = true) ip -> ip <> [] ->
  Forall (fun c => isdecimal U c = true) fp -> fp <> [] ->
  exists x, py_float U (ip ++ 46%N :: fp) = Ok x.
Proof.
  intros Hip Hne Hfp Hnf. unfold py_float.
  set (ip' := map (to_ascii U) ip). set (fp' := map (to_ascii U) fp).
  assert (Hip' : ascii_digits ip').
  { apply Forall_map. eapply Forall_impl; [|exact Hip].
    apply to_ascii_digit. }
  assert (Hfp' : ascii_digits fp').
  { apply Forall_map. eapply Forall_impl; [|exact Hfp].
    apply to_ascii_digit. }
  assert (Hmap : map (to_ascii U) (ip ++ 46%N :: fp) = ip' ++ 46%N :: fp').
  { now rewrite map_app. }
  rewrite Hmap.
  assert (Hl : lstrip_ascii (ip' ++ 46%N :: fp') = ip' ++ 46%N :: fp').
  { destruct ip' as [|c t] eqn:E.
    - destruct ip; [congruence | discriminate].
    - inversion Hip'; subst. now apply lstrip_ascii_digit. }
  rewrite Hl.
  assert (Hr : lstrip_ascii (rev (ip' ++ 46%N :: fp'))
               = rev (ip' ++ 46%N :: fp')).
  { destruct (rev fp') as [|c t] eqn:E.
    - apply (f_equal (@rev char)) in E. rewrite rev_involutive in E.
      subst fp'. destruct fp; [congruence | discriminate].
    - rewrite rev_app_distr. simpl. rewrite E. simpl.
      assert (Hc : ascii_digit c = true).
      { assert (Hin : In c (rev fp')) by (rewrite E; now left).
        apply in_rev in Hin.
        exact (proj1 (Forall_forall _ _) Hfp' c Hin). }
      change (lstrip_ascii (c :: (t ++ [46%N]) ++ rev ip')
              = c :: (t ++ [46%N]) ++ rev ip').
      now apply lstrip_ascii_digit. }
  rewrite Hr, rev_involutive.
  rewrite underscores_none.
  - assert (Hne' : ip' <> []).
    { intros E. destruct ip; [congruence | discriminate]. }
    destruct (@number_decimal ip' fp' Hip' Hne' Hfp') as (x & ->). eauto.
  - apply Forall_app. split; [|constructor; [discriminate|]];
      (eapply Forall_impl; [|eassumption]); intros a Ha;
      apply ascii_digit_spec in Ha; lia.
  - discriminate.
Qed.

End ExchangeRate.


(** ** Dicts *)

Lemma dict_get_set k k' v d :
  dict_get k (dict_set k' v d)
  = if String.eqb k' k then Some v else dict_get k d.
Proof.
  induction d as [|[k0 v0] d IH]; simpl.
  - reflexivity.
  - destruct (String.eqb_spec k0 k') as [-> | Hk0]; simpl.
    + destruct (String.eqb k' k); reflexivity.
    + rewrite IH. destruct (String.eqb_spec k0 k) as [-> | Hk].
      * destruct (String.eqb_spec k' k); [congruence | reflexivity].
      * reflexivity.
Qed.

Lemma keys_set k v d : incl (keys (dict_set k v d)) (k :: keys d).
Proof.
  induction d as [|[k0 v0] d IH]; simpl.
  - apply incl_refl.
  - destruct (String.eqb k0 k); simpl.
    + apply incl_cons; [now left | apply incl_tl, incl_tl, incl_refl].
    + apply incl_cons; [right; now left|].
      intros x Hx. destruct (IH x Hx) as [<- | Hx']; [now left|].
      right. now right.
Qed.

Lemma dict_get_in k v d : dict_get k d = Some v -> In (k, v) d.
Proof.
  induction d as [|[k0 v0] d IH]; simpl; [discriminate|].
  destruct (String.eqb_spec k0 k) as [-> | Hk].
  - intros [= ->]. now left.
  - auto.
Qed.

Lemma dict_get_keys k d : dict_get k d <> None <-> In k (keys d).
Proof.
  induction d as [|[k0 v0] d IH]; simpl.
  - split; [congruence | contradiction].
  - destruct (String.eqb_spec k0 k) as [-> | Hk].
    + split; [now left | discriminate].
    + rewrite IH. split; [now right | intros [E | H]; [congruence | exact H]].
Qed.

(** What [d.update(e)] holds under a key: what [e] assigned, or what [d]
    held. *)
Lemma dict_get_update k v d e :
  dict_get k (dict_update d e) = Some v ->
  In (k, v) e \/ dict_get k d = Some v.
Proof.
  unfold dict_update. revert d.
  induction e as [|[k0 v0] e IH]; intros d H; simpl in *.
  - now right.
  - destruct (IH _ H) as [Hin | Hd]; [left; now right|].
    rewrite dict_get_set in Hd.
    destruct (String.eqb_spec k0 k) as [-> | Hk].
    + injection Hd as ->. left. now left.
    + now right.
Qed.

Lemma dict_get_update_other k d e :
  ~ In k (keys e) -> dict_get k (dict_update d e) = dict_get k d.
Proof.
  unfold dict_update. revert d.
  induction e as [|[k0 v0] e IH]; intros d H; simpl in *.
  - reflexivity.
  - rewrite IH by tauto. rewrite dict_get_set.
    destruct (String.eqb_spec k0 k); [tauto | reflexivity].
Qed.

Lemma keys_update d e : incl (keys (dict_update d e)) (keys d ++ keys e).
Proof.
  unfold dict_update. revert d.
  induction e as [|[k0 v0] e IH]; intros d; simpl.
  - rewrite app_nil_r. apply incl_refl.
  - intros x Hx. apply IH in Hx. apply in_app_or in Hx as [Hx | Hx].
    + apply keys_set in Hx as [<- | Hx].
      * apply in_or_app. right. now left.
      * apply in_or_app. now left.
    + apply in_or_app. right. now right.
Qed.


(** ** The detail scan *)

(** The keys a detail pattern assigns. *)
Definition detail_keys (k : detail_kind) : list string :=
  match k with
  | card_details => ["card_number"; "location"]
  | web_payment_details => ["phone"; "time"; "location"]
  | original_amount => ["original_amount"]
  | currency_details =>
      ["currency_pair"; "exchange_rate"; "pln_amount"; "foreign_amount";
       "foreign_currency"]
  | transfer_details => ["account_number"; "recipient"; "reference"]
  end%string.

(** The lines the scan of the transaction at index [i] looks at. *)
Definition window (lines : list str) (i : nat) : list str :=
  firstn 4 (skipn (S i) lines).

Section Details.

Variable U : unicode_db.

(** The scan of a list of lines, one after the other. *)
Fixpoint scan_texts (ls : list str) (details : dict) : M dict :=
  match ls with
  | [] => ret details
  | l :: ls' => details' <- scan_line U l details ;; scan_texts ls' details'
  end.

Lemma detail_match_sound s k m :
  detail_match U s = Some (k, m) ->
  re_match (detail_patterns U k) s = Some m.
Proof.
  unfold detail_match.
  destruct (re_match (detail_patterns U card_details) s) eqn:E1;
    [now intros [= <- <-]|].
  destruct (re_match (detail_patterns U web_payment_details) s) eqn:E2;
    [now intros [= <- <-]|].
  destruct (re_match (detail_patterns U original_amount) s) eqn:E3;
    [now intros [= <- <-]|].
  destruct (re_match (detail_patterns U currency_details) s) eqn:E4;
    [now intros [= <- <-]|].
  destruct (re_match (detail_patterns U transfer_details) s) eqn:E5;
    [now intros [= <- <-] | discriminate].
Qed.

(** The fourth group of the currency pattern is digits, a point, digits. *)
Lemma currency_rate_group n0 w rest c c' :
  den n0 (detail_patterns U currency_details) w rest c c' ->
  exists ip fp,
    group 4 c' = ip ++ 46%N :: fp /\
    Forall (fun x => isdecimal U x = true) ip /\ ip <> [] /\
    Forall (fun x => isdecimal U x = true) fp /\ fp <> [].
Proof.
  cbn [detail_patterns den].
  intros (w0 & r0 & c0 & -> & (-> & -> & Hlen)
          & g1 & r1 & c1 & -> & (c1' & H1 & ->)
          & s1 & r2 & c2 & -> & Hs1
          & g2 & r3 & c3 & -> & (c3' & H2 & ->)
          & s2 & r4 & c4 & -> & Hs2
          & g3 & r5 & c5 & -> & (c5' & H3 & ->)
          & s3 & r6 & c6 & -> & Hs3
          & g4 & r7 & c7 & -> & (c7' & H4 & ->)
          & s4 & r8 & c8 & -> & Hs4
          & g5 & r9 & c9 & -> & (c9' & H5 & ->)
          & s5 & r10 & c10 & -> & Hs5
          & pln & r11 & c11 & -> & Hpln
          & s6 & r12 & c12 & -> & Hs6
          & g6 & r13 & c13 & -> & (c13' & H6 & ->)
          & s7 & g7 & c14 & -> & Hs7 & (c15 & H7 & ->)).
  apply den_matches in H7 as [_ ->]; [|reflexivity].
  apply den_matches in Hs7 as [_ ->]; [|reflexivity].
  apply den_matches in H6 as [_ ->]; [|reflexivity].
  apply den_matches in Hs6 as [_ ->]; [|reflexivity].
  apply den_matches in Hpln as [_ ->]; [|apply simple_lit_of].
  apply den_matches in Hs5 as [_ ->]; [|reflexivity].
  apply den_matches in H5 as [_ ->]; [|reflexivity].
  apply den_matches in Hs4 as [_ ->]; [|reflexivity].
  cbn [group Nat.eqb].
  destruct H4 as (ip & t & d1 & -> & Hip & p & fp & d2 & -> & Hp & Hfp).
  apply den_matches in Hip as [Hip _]; [|reflexivity].
  apply den_matches in Hfp as [Hfp _]; [|reflexivity].
  change (chr ".") with (Class (N.eqb 46)) in Hp.
  destruct Hp as (x & -> & Hx & _). apply N.eqb_eq in Hx. subst x.
  apply matches_class_rep in Hip as (Hip & Hl1 & _).
  apply matches_class_rep in Hfp as (Hfp & Hl2 & _).
  exists ip, fp. simpl.
  repeat split; auto; intros ->; simpl in *; lia.
Qed.

Lemma detail_fields_total k s m w :
  re_match (detail_patterns U k) s = Some m ->
  exists fs w', detail_fields U k m w = (Ok fs, w') /\
                keys fs = detail_keys k.
Proof.
  intros Hm. destruct k; cbn [detail_fields]; unfold bind, ret, lift.
  - eauto.
  - eauto.
  - destruct (clean_amount_total U (group 1 m) w) as (a & w1 & ->). eauto.
  - apply re_match_sound in Hm as (w0 & rest & _ & Hd).
    apply currency_rate_group in Hd
        as (ip & fp & E & Hip & Hne & Hfp & Hnf).
    destruct (py_float_decimal U Hip Hne Hfp Hnf) as (x & Ex).
    assert (Ex' : Float.py_float U (group 4 m) = Ok x)
      by (rewrite E; exact Ex).
    rewrite Ex'.
    destruct (clean_amount_total U (group 5 m) w) as (a & w1 & ->).
    destruct (clean_amount_total U (group 6 m) w1) as (b & w2 & ->).
    eauto.
  - eauto.
Qed.

(** The body of the scan, spelled out. *)
Lemma scan_line_eq line details w :
  scan_line U line details w =
  match detail_match U (strip line) with
  | Some (k, m) =>
      match detail_fields U k m w with
      | (Ok fs, w') => (Ok (dict_update details fs), w')
      | (Raise e, w') => (Raise e, w')
      end
  | None => (Ok details, w)
  end.
Proof.
  unfold scan_line. destruct (detail_match U (strip line)) as [[k m]|];
    [|reflexivity].
  unfold assign, bind, ret. now destruct (detail_fields U k m w) as [[fs|e] w'].
Qed.

Lemma scan_line_total line details w :
  exists d w', scan_line U line details w = (Ok d, w').
Proof.
  rewrite scan_line_eq.
  destruct (detail_match U (strip line)) as [[k m]|] eqn:E; [|eauto].
  apply detail_match_sound in E.
  destruct (detail_fields_total _ _ w E) as (fs & w' & -> & _). eauto.
Qed.

Lemma scan_texts_total ls : forall details w,
  exists d w', scan_texts ls details w = (Ok d, w').
Proof.
  induction ls as [|l ls IH]; intros details w; simpl.
  - unfold ret. eauto.
  - unfold bind. destruct (scan_line_total l details w) as (d & w' & ->).
    apply IH.
Qed.

Lemma scan_lines_texts lines js : forall details w,
  scan_lines U lines js details w
  = scan_texts (map (fun j => nth j lines []) js) details w.
Proof.
  induction js as [|j js IH]; intros details w; simpl; [reflexivity|].
  unfold bind. destruct (scan_line U (nth j lines []) details w) as [[d|e] w'];
    [apply IH | reflexivity].
Qed.

Lemma nth_seq_window (l : list str) a n :
  a + n <= length l ->
  map (fun j => nth j l []) (seq a n) = firstn n (skipn a l).
Proof.
  revert a l. induction n as [|n IH]; intros a l H; simpl.
  - reflexivity.
  - destruct (skipn a l) as [|x t] eqn:E.
    + apply (f_equal (@length str)) in E. rewrite length_skipn in E.
      simpl in E. lia.
    + f_equal.
      * rewrite <- (firstn_skipn a l), E, app_nth2;
          rewrite length_firstn, Nat.min_l by lia; [|lia].
        now rewrite Nat.sub_diag.
      * rewrite IH by lia. f_equal.
        replace (S a) with (1 + a) by lia.
        rewrite <- skipn_skipn, E. reflexivity.
Qed.

(** The scan reads the window and nothing else. *)
Lemma extract_window lines i w :
  extract_additional_details U lines i w = scan_texts (window lines i) [] w.
Proof.
  unfold extract_additional_details, window, range.
  rewrite scan_lines_texts. f_equal.
  replace (i + 1) with (S i) by lia.
  destruct (Nat.le_gt_cases (length lines) (S i)) as [Hle | Hgt].
  - replace (Nat.min (i + 5) (length lines) - S i) with 0 by lia.
    rewrite skipn_all2 by lia. reflexivity.
  - rewrite nth_seq_window by lia.
    destruct (Nat.le_gt_cases (i + 5) (length lines)) as [H5 | H5].
    + rewrite Nat.min_l by lia. f_equal. lia.
    + rewrite Nat.min_r by lia.
      rewrite (firstn_all2 (n := 4)) by (rewrite length_skipn; lia).
      apply firstn_all2. rewrite length_skipn. lia.
Qed.

Lemma extract_total lines i w :
  exists d w', extract_additional_details U lines i w = (Ok d, w').
Proof. rewrite extract_window. apply scan_texts_total. Qed.

End Details.


(** ** Where detail fields come from *)

Definition core_keys : list string :=
  ["date"; "transaction_id"; "type"; "description"; "amount"; "balance";
   "raw_line"; "pattern_used"; "source_file"; "page"]%string.

Definition all_detail_keys : list string :=
  flat_map detail_keys
    [card_details; web_payment_details; original_amount; currency_details;
     transfer_details].

Section Provenance.

Variable U : unicode_db.

Lemma detail_keys_all k : incl (detail_keys k) all_detail_keys.
Proof.
  intros x Hx. unfold all_detail_keys. apply in_flat_map. exists k.
  split; [destruct k; simpl; tauto | exact Hx].
Qed.

Lemma scan_line_step line details w d w' :
  scan_line U line details w = (Ok d, w') ->
  (d = details /\ detail_match U (strip line) = None) \/
  exists k m fs,
    detail_match U (strip line) = Some (k, m) /\
    detail_fields U k m w = (Ok fs, w') /\ keys fs = detail_keys k /\
    d = dict_update details fs.
Proof.
  rewrite scan_line_eq.
  destruct (detail_match U (strip line)) as [[k m]|] eqn:E.
  - pose proof (@detail_match_sound U _ _ _ E) as Hm.
    destruct (@detail_fields_total U k _ m w Hm) as (fs & w1 & Ef & Hk).
    rewrite Ef. intros [= <- <-]. right. exists k, m, fs. auto.
  - intros [= <- <-]. now left.
Qed.

Lemma scan_texts_keys ls : forall details w d w',
  scan_texts U ls details w = (Ok d, w') ->
  incl (keys d) (keys details ++ all_detail_keys).
Proof.
  induction ls as [|l ls IH]; intros details w d w'; simpl.
  - intros [= <- <-]. now apply incl_appl.
  - unfold bind. destruct (scan_line_total U l details w) as (d1 & w1 & E).
    rewrite E. intros H. apply IH in H.
    apply scan_line_step in E
        as [[-> _] | (k & m & fs & _ & _ & Hk & ->)]; [exact H|].
    intros x Hx. apply H in Hx. apply in_app_or in Hx as [Hx | Hx];
      [|apply in_or_app; now right].
    apply keys_update in Hx. apply in_app_or in Hx as [Hx | Hx];
      apply in_or_app; [now left | right].
    rewrite Hk in Hx. now apply (detail_keys_all k).
Qed.

(** Every field of the scan of a list of lines was assigned by the pattern
    that matched one of them. *)
Lemma scan_texts_provenance ls : forall details w d w' key v,
  scan_texts U ls details w = (Ok d, w') ->
  dict_get key d = Some v ->
  dict_get key details = Some v \/
  exists n k m fs w1 w2,
    n < length ls /\
    detail_match U (strip (nth n ls [])) = Some (k, m) /\
    detail_fields U k m w1 = (Ok fs, w2) /\ In (key, v) fs.
Proof.
  induction ls as [|l ls IH]; intros details w d w' key v; simpl.
  - intros [= <- <-] H. now left.
  - unfold bind. destruct (scan_line_total U l details w) as (d1 & w1 & E).
    rewrite E. intros H Hget.
    destruct (IH _ _ _ _ _ _ H Hget)
      as [Hd1 | (n & k & m & fs & wa & wb & Hn & Hm & Hf & Hin)].
    + apply scan_line_step in E
          as [[-> _] | (k & m & fs & Hm & Hf & _ & ->)]; [now left|].
      apply dict_get_update in Hd1 as [Hin | Hd]; [|now left].
      right. exists 0, k, m, fs, w, w1. repeat split; auto. lia.
    + right. exists (S n), k, m, fs, wa, wb. repeat split; auto. lia.
Qed.

Lemma window_length lines i : length (window lines i) <= 4.
Proof. unfold window. rewrite length_firstn. lia. Qed.

Lemma window_nth lines i n :
  n < length (window lines i) ->
  nth n (window lines i) [] = nth (S i + n) lines [] /\
  S i + n < length lines.
Proof.
  unfold window. rewrite length_firstn, length_skipn. intros H.
  split; [|lia].
  rewrite nth_firstn. destruct (Nat.ltb_spec n 4); [|lia].
  rewrite <- (firstn_skipn (S i) lines) at 2.
  rewrite app_nth2; rewrite length_firstn, Nat.min_l by lia; [|lia].
  f_equal. lia.
Qed.

End Provenance.

(** C9.  Merging the fields the scan returns into a transaction changes
    none of its core fields: under each of the ten core keys the record
    holds after [update] what it held before. *)
Theorem merge_keeps_core_fields (U : unicode_db) lines i w details w'
        (transaction : dict) key :
  extract_additional_details U lines i w = (Ok details, w') ->
  In key core_keys ->
  dict_get key (dict_update transaction details) = dict_get key transaction.
Proof.
  intros H Hkey. apply dict_get_update_other. intros Hin.
  rewrite extract_window in H. apply scan_texts_keys in H.
  apply H in Hin. simpl in Hin.
  unfold core_keys in Hkey. simpl in Hkey.
  repeat (destruct Hkey as [<- | Hkey];
          [repeat (destruct Hin as [Hin | Hin]; [discriminate|]);
           contradiction|]).
  contradiction.
Qed.

Definition second_line : str :=
  u "02.02.2024 XYZ9 ZAKUP PRZY UŻYCIU KARTY -10,00 890,00".
Definition card_line : str :=
  u "02.02.2024 Karta:425125****1234 Lokalizacja: WARSZAWA SKLEP Nr ref: 123".
Definition web_line : str :=
  u "03.02.2024 Tel:48123 Godz.12:00:01 Lokalizacja: WEB Nr ref: 1".
Definition orig_line : str := u "Kwota oryg.: 12,00 PLN".

Definition orig_caps : caps :=
  Eval vm_compute in
    match detail_match Latin.db orig_line with
    | Some (_, m) => m
    | None => []
    end.

Lemma merge_keeps_core_fields_witness :
  dict_get "amount"
    (dict_update sample_record
       [("original_amount"%string,
         VFloat (F_num false 6755399441055744 (-49)))])
  = dict_get "amount" sample_record.
Proof.
  apply (@merge_keeps_core_fields Latin.db [sample_line; orig_line] 0 world0
           [("original_amount"%string,
             VFloat (F_num false 6755399441055744 (-49)))]
           world0 sample_record "amount").
  - vm_compute. reflexivity.
  - simpl. tauto.
Defined.

(** The claim that the scan stops at the next transaction line: every field
    comes from a line of the window such that no line after the
    transaction's, up to and including that line, is itself matched by the
    catalog. *)
Definition fields_stop_at_next_transaction (U : unicode_db) : Prop :=
  forall lines i w details w' key v,
    extract_additional_details U lines i w = (Ok details, w') ->
    dict_get key details = Some v ->
    exists j k m fs w1 w2,
      i < j <= i + 4 /\ j < length lines /\
      (forall j', i < j' <= j ->
                  fst (parse_transaction_line U (nth j' lines []) world0)
                  = Ok None) /\
      detail_match U (strip (nth j lines [])) = Some (k, m) /\
      detail_fields U k m w1 = (Ok fs, w2) /\ In (key, v) fs.

(** C2, as stated, fails: with a second transaction line right after the
    first and a detail line after that, the detail line's field is attached
    to the first transaction although the second transaction's line stands
    in between. *)
Lemma window_crosses_next_transaction :
  ~ fields_stop_at_next_transaction Latin.db.
Proof.
  intros H.
  destruct (H [sample_line; second_line; orig_line] 0 world0
              [("original_amount"%string,
                VFloat (F_num false 6755399441055744 (-49)))]
              world0 "original_amount"%string
              (VFloat (F_num false 6755399441055744 (-49))))
    as (j & k & m & fs & w1 & w2 & Hj & Hlen & Htx & Hm & _);
    [vm_compute; reflexivity | reflexivity |].
  simpl in Hlen.
  assert (Hcase : j = 1 \/ j = 2) by lia.
  destruct Hcase as [-> | ->].
  - vm_compute in Hm. discriminate.
  - specialize (Htx 1). vm_compute in Htx.
    assert (Hc : 1 <= 1 /\ 1 <= 2) by lia.
    specialize (Htx Hc). discriminate.
Qed.

(** C2, amended.  Every field the scan attaches to the transaction at index
    [i] was assigned by the detail pattern that matched a line at an index
    [j] with i < j <= i + 4 inside the page, whether or not a line in
    between is itself a transaction line. *)
Theorem detail_fields_come_from_window (U : unicode_db) lines i w details w'
        key v :
  extract_additional_details U lines i w = (Ok details, w') ->
  dict_get key details = Some v ->
  exists j k m fs w1 w2,
    i < j <= i + 4 /\ j < length lines /\
    detail_match U (strip (nth j lines [])) = Some (k, m) /\
    detail_fields U k m w1 = (Ok fs, w2) /\ In (key, v) fs.
Proof.
  intros H Hget. rewrite extract_window in H.
  destruct (scan_texts_provenance _ _ _ _ _ H Hget)
    as [Hd | (n & k & m & fs & w1 & w2 & Hn & Hm & Hf & Hin)];
    [discriminate|].
  pose proof (window_length lines i) as Hw.
  destruct (window_nth lines i Hn) as [E Hlt].
  exists (S i + n), k, m, fs, w1, w2. rewrite <- E.
  repeat split; auto; lia.
Qed.

Lemma detail_fields_come_from_window_witness :
  exists j k m fs w1 w2,
    0 < j <= 0 + 4 /\ j < 3 /\
    detail_match Latin.db
      (strip (nth j [sample_line; second_line; orig_line] [])) = Some (k, m) /\
    detail_fields Latin.db k m w1 = (Ok fs, w2) /\
    In ("original_amount"%string,
        VFloat (F_num false 6755399441055744 (-49))) fs.
Proof.
  apply (@detail_fields_come_from_window Latin.db
           [sample_line; second_line; orig_line] 0 world0
           [("original_amount"%string,
             VFloat (F_num false 6755399441055744 (-49)))]
           world0 "original_amount"%string
           (VFloat (F_num false 6755399441055744 (-49)))).
  - vm_compute. reflexivity.
  - reflexivity.
Defined.


(** The claim that no key is populated by two detail patterns for one
    transaction: two lines of one window matched by different detail
    patterns never assign a common key. *)
Definition no_key_populated_twice (U : unicode_db) : Prop :=
  forall lines i a b k1 k2 m1 m2 fs1 fs2 w1 w1' w2 w2' key,
    detail_match U (strip (nth a (window lines i) [])) = Some (k1, m1) ->
    detail_match U (strip (nth b (window lines i) [])) = Some (k2, m2) ->
    k1 <> k2 ->
    detail_fields U k1 m1 w1 = (Ok fs1, w1') ->
    detail_fields U k2 m2 w2 = (Ok fs2, w2') ->
    In key (keys fs1) -> In key (keys fs2) -> False.

Definition card_caps : caps :=
  Eval vm_compute in
    match detail_match Latin.db card_line with
    | Some (_, m) => m
    | None => []
    end.

Definition web_caps : caps :=
  Eval vm_compute in
    match detail_match Latin.db web_line with
    | Some (_, m) => m
    | None => []
    end.

(** C3, as stated, fails: a card detail line and a web-payment detail line
    in the window of one transaction both assign [location], and the later
    one overwrites the earlier. *)
Lemma location_populated_twice :
  ~ no_key_populated_twice Latin.db /\
  fst (extract_additional_details Latin.db
         [sample_line; card_line; web_line] 0 world0)
  = Ok [("card_number", VStr (u "425125****1234"));
        ("location", VStr (u "WEB"));
        ("phone", VStr (u "48123"));
        ("time", VStr (u "12:00:01"))]%string.
Proof.
  split; [|vm_compute; reflexivity].
  intros H.
  apply (H [sample_line; card_line; web_line] 0 0 1
           card_details web_payment_details card_caps web_caps
           [("card_number", VStr (u "425125****1234"));
            ("location", VStr (u "WARSZAWA SKLEP"))]%string
           [("phone", VStr (u "48123")); ("time", VStr (u "12:00:01"));
            ("location", VStr (u "WEB"))]%string
           world0 world0 world0 world0 "location"%string);
    try (vm_compute; reflexivity).
  - discriminate.
  - simpl. tauto.
  - simpl. tauto.
Qed.

(** C3, amended.  Two different detail patterns assign a common key only
    when they are the card pattern and the web-payment pattern, and the key
    is then [location]; all other pairs of detail patterns have disjoint
    key sets. *)
Theorem shared_detail_key_is_location (U : unicode_db) s1 s2 k1 k2 m1 m2
        fs1 fs2 w1 w1' w2 w2' key :
  detail_match U s1 = Some (k1, m1) ->
  detail_match U s2 = Some (k2, m2) ->
  k1 <> k2 ->
  detail_fields U k1 m1 w1 = (Ok fs1, w1') ->
  detail_fields U k2 m2 w2 = (Ok fs2, w2') ->
  In key (keys fs1) -> In key (keys fs2) ->
  key = "location"%string /\
  ((k1 = card_details /\ k2 = web_payment_details) \/
   (k1 = web_payment_details /\ k2 = card_details)).
Proof.
  intros H1 H2 Hne Hf1 Hf2 Hk1 Hk2.
  apply detail_match_sound in H1, H2.
  destruct (@detail_fields_total U k1 s1 m1 w1 H1) as (f1 & x1 & E1 & K1).
  destruct (@detail_fields_total U k2 s2 m2 w2 H2) as (f2 & x2 & E2 & K2).
  rewrite E1 in Hf1. rewrite E2 in Hf2.
  injection Hf1 as <- _. injection Hf2 as <- _.
  rewrite K1 in Hk1. rewrite K2 in Hk2. clear - Hne Hk1 Hk2.
  destruct k1, k2; try congruence; simpl in Hk1, Hk2;
    repeat (destruct Hk1 as [Hk1 | Hk1]; try contradiction);
    subst key;
    repeat (destruct Hk2 as [Hk2 | Hk2]; try contradiction;
            try discriminate);
    auto.
Qed.

Lemma shared_detail_key_is_location_witness :
  "location"%string = "location"%string /\
  ((card_details = card_details /\
    web_payment_details = web_payment_details) \/
   (card_details = web_payment_details /\
    web_payment_details = card_details)).
Proof.
  apply (@shared_detail_key_is_location Latin.db card_line web_line
           card_details web_payment_details card_caps web_caps
           [("card_number", VStr (u "425125****1234"));
            ("location", VStr (u "WARSZAWA SKLEP"))]%string
           [("phone", VStr (u "48123")); ("time", VStr (u "12:00:01"));
            ("location", VStr (u "WEB"))]%string
           world0 world0 world0 world0 "location"%string);
    try (vm_compute; reflexivity).
  - discriminate.
  - simpl. tauto.
  - simpl. tauto.
Defined.


(** ** What the result owes to the world *)

(** A computation whose result does not depend on the clock and the log it
    starts from. *)
Definition world_blind {A : Type} (m : M A) : Prop :=
  forall w1 w2, fst (m w1) = fst (m w2).

Section Determinism.

Variable U : unicode_db.

Lemma blind_ret (A : Type) (a : A) : world_blind (ret a).
Proof. intros w1 w2. reflexivity. Qed.

Lemma blind_bind (A B : Type) (m : M A) (f : A -> M B) :
  world_blind m -> (forall a, world_blind (f a)) -> world_blind (bind m f).
Proof.
  intros Hm Hf w1 w2. unfold bind. specialize (Hm w1 w2).
  destruct (m w1) as [[a1|e1] w1'], (m w2) as [[a2|e2] w2']; simpl in Hm;
    try discriminate.
  - injection Hm as ->. apply Hf.
  - injection Hm as ->. reflexivity.
Qed.

Lemma blind_clean_amount s : world_blind (clean_amount U s).
Proof.
  intros w1 w2. rewrite !clean_amount_eq. destruct s; [reflexivity|].
  destruct (Float.py_float U (cleaned (c :: s))); reflexivity.
Qed.

Lemma blind_transaction_of name line m :
  world_blind (transaction_of U name line m).
Proof.
  unfold transaction_of. destruct (String.eqb name "balance_transfer").
  - apply blind_bind; [apply blind_clean_amount|]. intros b. apply blind_ret.
  - apply blind_bind; [apply blind_clean_amount|]. intros a.
    apply blind_bind; [apply blind_clean_amount|]. intros b. apply blind_ret.
Qed.

Lemma blind_try_patterns ps line : world_blind (try_patterns U ps line).
Proof.
  induction ps as [|[name pattern] ps IH]; simpl.
  - apply blind_ret.
  - destruct (re_match pattern line); [|exact IH].
    apply blind_bind; [apply blind_transaction_of|]. intros t.
    apply blind_ret.
Qed.

Lemma blind_parse_transaction_line line :
  world_blind (parse_transaction_line U line).
Proof.
  unfold parse_transaction_line. destruct (strip line).
  - apply blind_ret.
  - apply blind_try_patterns.
Qed.

Lemma blind_detail_fields k m : world_blind (detail_fields U k m).
Proof.
  destruct k; cbn [detail_fields]; try apply blind_ret.
  - apply blind_bind; [apply blind_clean_amount|]. intros a. apply blind_ret.
  - apply blind_bind; [intros w1 w2; reflexivity|]. intros rate.
    apply blind_bind; [apply blind_clean_amount|]. intros a.
    apply blind_bind; [apply blind_clean_amount|]. intros b. apply blind_ret.
Qed.

Lemma blind_scan_line line details : world_blind (scan_line U line details).
Proof.
  unfold scan_line. destruct (detail_match U (strip line)) as [[k m]|].
  - unfold assign. apply blind_bind; [apply blind_detail_fields|].
    intros fs. apply blind_ret.
  - apply blind_ret.
Qed.

Lemma blind_scan_lines lines js : forall details,
  world_blind (scan_lines U lines js details).
Proof.
  induction js as [|j js IH]; intros details; simpl.
  - apply blind_ret.
  - apply blind_bind; [apply blind_scan_line | exact IH].
Qed.

Lemma blind_extract lines i :
  world_blind (extract_additional_details U lines i).
Proof. apply blind_scan_lines. Qed.

Lemma blind_page_lines pdf_name page_num lines todo :
  forall i transactions w1 w2,
    fst (page_lines U pdf_name page_num lines i todo transactions w1)
    = fst (page_lines U pdf_name page_num lines i todo transactions w2).
Proof.
  induction todo as [|line todo IH]; intros i transactions w1 w2;
    cbn [page_lines]; [reflexivity|].
  pose proof (blind_parse_transaction_line line w1 w2) as Hp.
  destruct (parse_transaction_line U line w1) as [[o1|e1] a1],
           (parse_transaction_line U line w2) as [[o2|e2] a2];
    simpl in Hp; try discriminate; [|injection Hp as ->; reflexivity].
  injection Hp as ->. destruct o2 as [[|kv t]|]; [apply IH | | apply IH].
  pose proof (blind_extract lines i a1 a2) as He.
  destruct (extract_additional_details U lines i a1) as [[d1|x1] b1],
           (extract_additional_details U lines i a2) as [[d2|x2] b2];
    simpl in He; try discriminate; [|injection He as ->; reflexivity].
  injection He as ->. apply IH.
Qed.

Lemma blind_pdf_pages pdf_name ps :
  forall page_num transactions w1 w2,
    fst (pdf_pages U pdf_name page_num ps transactions w1)
    = fst (pdf_pages U pdf_name page_num ps transactions w2).
Proof.
  induction ps as [|[[|c text]|] ps IH]; intros page_num transactions w1 w2;
    cbn [pdf_pages]; [reflexivity | apply IH | | apply IH].
  pose proof (blind_page_lines pdf_name page_num
                (split_on 10 (c :: text)) (split_on 10 (c :: text))
                0 transactions w1 w2) as Hp.
  destruct (page_lines U pdf_name page_num _ 0 _ transactions w1)
    as [[ts1 [e1|]] a1],
    (page_lines U pdf_name page_num _ 0 _ transactions w2)
    as [[ts2 [e2|]] a2];
    simpl in Hp; try discriminate; injection Hp; intros; subst.
  - reflexivity.
  - apply IH.
Qed.

End Determinism.

(** C8.  The records the pipeline returns for a document are a function of
    the document alone: whatever the clock reads and whatever the log
    holds when a run starts, the same records come out in the same order,
    so that a second run over the same input, after the first has written
    to the log, repeats the first; the same holds for the classification of
    one line and for the association of details. *)
Theorem extraction_is_deterministic (U : unicode_db) :
  (forall f w1 w2, fst (parse_pdf_file U f w1) = fst (parse_pdf_file U f w2))
  /\
  (forall f w,
      fst (parse_pdf_file U f (snd (parse_pdf_file U f w)))
      = fst (parse_pdf_file U f w)) /\
  (forall line, world_blind (parse_transaction_line U line)) /\
  (forall lines i, world_blind (extract_additional_details U lines i)).
Proof.
  assert (H : forall f w1 w2,
             fst (parse_pdf_file U f w1) = fst (parse_pdf_file U f w2)).
  { intros f w1 w2. unfold parse_pdf_file.
    set (a1 := snd (logger INFO _ w1)). set (a2 := snd (logger INFO _ w2)).
    pose proof (blind_pdf_pages U (name f) (pages f) 1 [] a1 a2) as Hp.
    destruct (pdf_pages U (name f) 1 (pages f) [] a1) as [[ts1 [e1|]] b1],
             (pdf_pages U (name f) 1 (pages f) [] a2) as [[ts2 [e2|]] b2];
      simpl in Hp; try discriminate; injection Hp; intros; subst;
      reflexivity. }
  split; [exact H|]. split; [intros f w; apply H|].
  split; [apply blind_parse_transaction_line | apply blind_extract].
Qed.


(** ** The generic rule and the classifier *)

(** The six key phrases of [_categorize_transaction] and its seven labels. *)
Definition key_phrases : list str :=
  [u "zakup przy użyciu karty"; u "płatność web"; u "zwrot blik";
   u "przelew wychodzący"; u "przelew przychodzący"; u "wymiana w kantorze"].

Definition labels : list str :=
  [u "Card Purchase"; u "Web Payment"; u "BLIK Refund";
   u "Outgoing Transfer"; u "Incoming Transfer"; u "Currency Exchange";
   u "Other"].

Definition no_key_phrase (s : str) : Prop :=
  forall p, In p key_phrases -> contains p s = false.

Section Generic.

Variable U : unicode_db.

Lemma categorize_other description :
  no_key_phrase (lower U description) ->
  _categorize_transaction U description = u "Other".
Proof.
  intros H. unfold _categorize_transaction, key_phrases, no_key_phrase in *.
  rewrite (H _ (or_introl eq_refl)).
  rewrite (H _ (or_intror (or_introl eq_refl))).
  rewrite (H _ (or_intror (or_intror (or_introl eq_refl)))).
  rewrite (H _ (or_intror (or_intror (or_intror (or_introl eq_refl))))).
  rewrite (H _ (or_intror (or_intror (or_intror (or_intror
                  (or_introl eq_refl)))))).
  rewrite (H _ (or_intror (or_intror (or_intror (or_intror (or_intror
                  (or_introl eq_refl))))))).
  reflexivity.
Qed.

Lemma first_true_label (b1 b2 b3 b4 b5 b6 : bool) (l1 l2 l3 l4 l5 l6 l7 : str) :
  In (if b1 then l1 else if b2 then l2 else if b3 then l3 else
      if b4 then l4 else if b5 then l5 else if b6 then l6 else l7)
     [l1; l2; l3; l4; l5; l6; l7].
Proof.
  destruct b1, b2, b3, b4, b5, b6; simpl; tauto.
Qed.

Lemma categorize_label description :
  In (_categorize_transaction U description) labels.
Proof.
  unfold _categorize_transaction, labels. cbv zeta.
  apply first_true_label.
Qed.

Lemma categorize_lower d1 d2 :
  lower U d1 = lower U d2 ->
  _categorize_transaction U d1 = _categorize_transaction U d2.
Proof. unfold _categorize_transaction. now intros ->. Qed.

(** The record of a rule other than the carryover rule. *)
Lemma transaction_of_generic name line m w :
  String.eqb name "balance_transfer" = false ->
  exists a b w',
    transaction_of U name line m w
    = (Ok [("date", VStr (group 1 m));
           ("transaction_id", VStr (group 2 m));
           ("type", VStr (_categorize_transaction U (group 3 m)));
           ("description", VStr (group 3 m));
           ("amount", VFloat a);
           ("balance", VFloat b);
           ("raw_line", VStr line);
           ("pattern_used", VStr (u name))]%string, w').
Proof.
  intros Hn. unfold transaction_of. rewrite Hn. unfold bind, ret.
  destruct (clean_amount_total U (group 4 m) w) as (a & w1 & ->).
  destruct (clean_amount_total U (group 5 m) w1) as (b & w2 & ->).
  eauto.
Qed.

Lemma date_re_first date :
  matches (date_re U) date ->
  exists c t, date = c :: t /\ isdecimal U c = true.
Proof.
  unfold date_re. intros H.
  apply matches_seq in H as (w1 & w2 & -> & H1 & _); [|reflexivity..].
  apply matches_times in H1 as [Hl H1].
  destruct w1 as [|c w1]; [discriminate|].
  exists c, (w1 ++ w2). split; [reflexivity | now inversion H1].
Qed.

(** A line made of the five fields has no space on either side. *)
Lemma five_fields_strip desc date ws1 id ws2 d ws3 amt ws4 bal :
  five_fields U desc date ws1 id ws2 d ws3 amt ws4 bal ->
  let line := date ++ ws1 ++ id ++ ws2 ++ d ++ ws3 ++ amt ++ ws4 ++ bal in
  strip line = line /\ line <> [] /\
  exists front c, line = front ++ [c] /\ isdecimal U c = true.
Proof.
  intros [Hdate _ _ _ _ _ _ _ Hbal] line.
  apply date_re_first in Hdate as (c & t & -> & Hc).
  apply number_re_shape in Hbal as (d0 & body & d1 & d2 & -> & _ & _ & _ & H2).
  assert (Hline : line = ((c :: t) ++ ws1 ++ id ++ ws2 ++ d ++ ws3 ++ amt
                           ++ ws4 ++ (d0 :: body) ++ [44%N; d1]) ++ [d2]).
  { unfold line. repeat (rewrite <- app_assoc; simpl). reflexivity. }
  split; [|split; [rewrite Hline; now destruct ((c :: t) ++ _) | eauto]].
  unfold strip.
  assert (Hl : lstrip line = line).
  { unfold line. simpl. now rewrite (isdecimal_not_space U c Hc). }
  rewrite Hl, Hline. apply rstrip_keeps. now apply isdecimal_not_space with U.
Qed.

End Generic.

(** C7.  Every line of the five-field shape (date, identifier, description
    without a newline, signed amount, balance, separated by spaces) is
    matched by the generic rule: a record is emitted, it names
    [main_transaction], the description it carries is one under which the
    line has that shape, and when the lowercased description contains none
    of the six key phrases the record's category is Other.  The category is
    always one of the seven labels and depends on the description only
    through its lowercase form. *)
Theorem generic_rule_classifies (U : unicode_db) :
  (forall date ws1 id ws2 d ws3 amt ws4 bal w,
      five_fields U (plus_lazy any) date ws1 id ws2 d ws3 amt ws4 bal ->
      let line := date ++ ws1 ++ id ++ ws2 ++ d ++ ws3 ++ amt ++ ws4 ++ bal in
      exists t w' desc,
        parse_transaction_line U line w = (Ok (Some t), w') /\
        dict_get "pattern_used" t = Some (VStr (u "main_transaction")) /\
        dict_get "description" t = Some (VStr desc) /\
        dict_get "type" t = Some (VStr (_categorize_transaction U desc)) /\
        (exists date' ws1' id' ws2' ws3' amt' ws4' bal',
            five_fields U (plus_lazy any)
              date' ws1' id' ws2' desc ws3' amt' ws4' bal' /\
            line = date' ++ ws1' ++ id' ++ ws2' ++ desc ++ ws3' ++ amt'
                   ++ ws4' ++ bal') /\
        (no_key_phrase (lower U desc) ->
         dict_get "type" t = Some (VStr (u "Other")))) /\
  (forall description, In (_categorize_transaction U description) labels) /\
  (forall d1 d2,
      lower U d1 = lower U d2 ->
      _categorize_transaction U d1 = _categorize_transaction U d2) /\
  (forall description,
      no_key_phrase (lower U description) ->
      _categorize_transaction U description = u "Other").
Proof.
  split; [|split; [apply categorize_label
                  |split; [apply categorize_lower | apply categorize_other]]].
  intros date ws1 id ws2 d ws3 amt ws4 bal w Hff line.
  destruct (five_fields_strip Hff) as (Hstrip & Hne & front & c & Hlast & Hc).
  fold line in Hstrip, Hne, Hlast.
  assert (Hmatch : exists m, re_match (main_transaction U) line = Some m).
  { apply re_match_complete
      with (w := line) (rest := [])
           (m := [(5, bal); (4, amt); (3, d); (2, id); (1, date)] ++ []).
    - now rewrite app_nil_r.
    - unfold main_transaction. apply den_transaction_re; [reflexivity|].
      exists date, ws1, id, ws2, d, ws3, amt, ws4, bal.
      rewrite app_nil_r. auto. }
  destruct Hmatch as (m & Hm).
  destruct (transaction_of_generic U "main_transaction" line m w eq_refl)
    as (a & b & w' & Ht).
  eexists _, w', (group 3 m).
  split.
  { unfold parse_transaction_line. rewrite Hstrip.
    destruct line as [|x l] eqn:E; [congruence|]. rewrite <- E in *.
    unfold patterns. cbn [try_patterns]. rewrite Hm. unfold bind, ret.
    rewrite Ht. reflexivity. }
  split; [reflexivity|]. split; [reflexivity|]. split; [reflexivity|].
  split.
  - apply re_match_sound in Hm as (w0 & rest & Hs & Hd).
    unfold main_transaction in Hd.
    apply den_transaction_re in Hd; [|reflexivity].
    destruct Hd as (date' & ws1' & id' & ws2' & d' & ws3' & amt' & ws4'
                    & bal' & -> & _ & Hrest & Hff' & ->).
    cbn [group app Nat.eqb].
    exists date', ws1', id', ws2', ws3', amt', ws4', bal'.
    split; [exact Hff'|].
    destruct Hrest as [-> | ->]; [now rewrite app_nil_r in Hs|].
    exfalso. rewrite Hlast in Hs. apply app_inj_tail in Hs as [_ ->].
    rewrite isdecimal_ascii in Hc by reflexivity. discriminate.
  - intros Hno. simpl. now rewrite categorize_other.
Qed.

(** C1.  On the line "01.02.2024 ABC123 PRZELEW WYCHODZĄCY -100,00 900,00"
    the transfer rule matches, but the record is made by the generic rule,
    which stands first in [patterns]: [pattern_used] is [main_transaction].
    The category is Outgoing Transfer, the amount -100.00 and the balance
    900.00 (their binary64 values). *)
Theorem generic_rule_shadows_transfer_rule :
  (forall w, parse_transaction_line Latin.db sample_line w
             = (Ok (Some sample_record), w)) /\
  (exists m, re_match (transfer_transaction Latin.db) sample_line = Some m) /\
  dict_get "pattern_used" sample_record
  = Some (VStr (u "main_transaction")) /\
  u "main_transaction" <> u "transfer_transaction" /\
  dict_get "type" sample_record = Some (VStr (u "Outgoing Transfer")) /\
  dict_get "amount" sample_record
  = Some (VFloat (Float.of_decimal true 10000 (-2))) /\
  dict_get "balance" sample_record
  = Some (VFloat (Float.of_decimal false 90000 (-2))).
Proof.
  split; [intros w; destruct w as [c l]; vm_compute; reflexivity|].
  split; [eexists; vm_compute; reflexivity|].
  split; [vm_compute; reflexivity|].
  split; [intros E; vm_compute in E; discriminate|].
  split; [vm_compute; reflexivity|].
  split; vm_compute; reflexivity.
Qed.


(** ** Lines and surrounding whitespace *)

Definition blank (s : str) : Prop := Forall (fun c => isspace c = true) s.

Lemma lstrip_blank pre s : blank pre -> lstrip (pre ++ s) = lstrip s.
Proof.
  induction 1 as [|c pre Hc _ IH]; simpl; [reflexivity|]. now rewrite Hc.
Qed.

Lemma lstrip_head s :
  lstrip s = [] \/ exists c t, lstrip s = c :: t /\ isspace c = false.
Proof.
  induction s as [|c s IH]; simpl; [now left|].
  destruct (isspace c) eqn:E; [exact IH | right; eauto].
Qed.

Lemma lstrip_nil_blank s : lstrip s = [] -> blank s.
Proof.
  induction s as [|c s IH]; simpl; [constructor|].
  destruct (isspace c) eqn:E; [|discriminate].
  intros H. constructor; [exact E | exact (IH H)].
Qed.

Lemma lstrip_app_keeps s x : lstrip s <> [] -> lstrip (s ++ x) = lstrip s ++ x.
Proof.
  induction s as [|c s IH]; simpl; [congruence|].
  destruct (isspace c); [exact IH | reflexivity].
Qed.

Lemma blank_rev s : blank s -> blank (rev s).
Proof. apply Forall_rev. Qed.

Lemma blank_app s t : blank s -> blank t -> blank (s ++ t).
Proof. intros Hs Ht. apply Forall_app. now split. Qed.

Lemma rstrip_blank s post : blank post -> rstrip (s ++ post) = rstrip s.
Proof.
  intros H. unfold rstrip. rewrite rev_app_distr.
  now rewrite lstrip_blank by now apply blank_rev.
Qed.

Lemma strip_blank s : blank s -> strip s = [].
Proof.
  intros H. unfold strip.
  rewrite <- (app_nil_r s), lstrip_blank by exact H. reflexivity.
Qed.

Lemma strip_surrounded pre s post :
  blank pre -> blank post -> strip (pre ++ s ++ post) = strip s.
Proof.
  intros Hpre Hpost. unfold strip. rewrite lstrip_blank by exact Hpre.
  destruct (lstrip s) as [|c t] eqn:E.
  - apply lstrip_nil_blank in E.
    assert (Hb : blank (s ++ post)) by now apply blank_app.
    fold (strip (s ++ post)). now rewrite strip_blank.
  - rewrite lstrip_app_keeps by congruence. rewrite E.
    now apply rstrip_blank.
Qed.

Lemma strip_idempotent s : strip (strip s) = strip s.
Proof.
  assert (H : exists pre post, blank pre /\ blank post /\
                               s = pre ++ strip s ++ post).
  { unfold strip, rstrip.
    assert (Hl : forall x, exists pre, blank pre /\ x = pre ++ lstrip x).
    { induction x as [|c x (pre & Hp & IH)]; simpl.
      - exists []. split; [constructor | reflexivity].
      - destruct (isspace c) eqn:E.
        + exists (c :: pre). split; [now constructor | simpl; now f_equal].
        + exists []. split; [constructor | reflexivity]. }
    destruct (Hl s) as (pre & Hpre & Es).
    destruct (Hl (rev (lstrip s))) as (post & Hpost & Er).
    exists pre, (rev post). split; [exact Hpre|].
    split; [now apply blank_rev|].
    rewrite Es at 1. f_equal.
    rewrite <- (rev_involutive (lstrip s)) at 1. rewrite Er at 1.
    now rewrite rev_app_distr. }
  destruct H as (pre & post & Hpre & Hpost & E).
  rewrite E at 2. symmetry. now apply strip_surrounded.
Qed.

(** ** What a call writes to the log *)

(** A warning about an amount that [float()] refused. *)
Definition amount_warning (r : log_record) : Prop :=
  levelname r = WARNING /\ exists s, msg r = Could_not_parse_amount s.

(** [w'] is [w] with at most [n] amount warnings appended to the log. *)
Definition warned (n : nat) (w w' : world) : Prop :=
  clock w' = clock w /\
  exists new, log w' = log w ++ new /\ Forall amount_warning new /\
              length new <= n.

Lemma warned_refl n w : warned n w w.
Proof.
  split; [reflexivity|]. exists []. rewrite app_nil_r.
  split; [reflexivity|]. split; [constructor | simpl; lia].
Qed.

Lemma warned_trans n1 n2 w1 w2 w3 :
  warned n1 w1 w2 -> warned n2 w2 w3 -> warned (n1 + n2) w1 w3.
Proof.
  intros (Hc1 & new1 & E1 & F1 & L1) (Hc2 & new2 & E2 & F2 & L2).
  split; [congruence|]. exists (new1 ++ new2).
  split; [now rewrite E2, E1, app_assoc|].
  split; [now apply Forall_app | rewrite length_app; lia].
Qed.

Lemma warned_le n m w w' : n <= m -> warned n w w' -> warned m w w'.
Proof.
  intros Hle (Hc & new & E & F & L). split; [exact Hc|].
  exists new. split; [exact E|]. split; [exact F | lia].
Qed.

Section Logging.

Variable U : unicode_db.

Lemma clean_amount_warned s w x w' :
  clean_amount U s w = (Ok x, w') -> warned 1 w w'.
Proof.
  rewrite clean_amount_eq. destruct s as [|c s].
  - intros [= _ <-]. apply warned_refl.
  - destruct (Float.py_float U (cleaned (c :: s))).
    + intros [= _ <-]. apply warned_refl.
    + intros [= _ <-]. split; [reflexivity|]. simpl.
      eexists. split; [reflexivity|].
      split; [|simpl; lia]. constructor; [|constructor].
      split; [reflexivity | now exists (c :: s)].
Qed.

Lemma transaction_of_warned name line m w t w' :
  transaction_of U name line m w = (Ok t, w') -> warned 2 w w'.
Proof.
  unfold transaction_of, bind, ret.
  destruct (String.eqb name "balance_transfer").
  - destruct (clean_amount U (group 1 m) w) as [[b|e] w1] eqn:E;
      [|discriminate].
    intros [= _ <-]. apply warned_le with 1; [lia|].
    eapply clean_amount_warned; eauto.
  - destruct (clean_amount U (group 4 m) w) as [[a|e] w1] eqn:E1;
      [|discriminate].
    destruct (clean_amount U (group 5 m) w1) as [[b|e] w2] eqn:E2;
      [|discriminate].
    intros [= _ <-]. apply (@warned_trans 1 1 w w1 w2);
      eapply clean_amount_warned; eauto.
Qed.

Lemma parse_transaction_line_warned line w r w' :
  parse_transaction_line U line w = (Ok r, w') -> warned 2 w w'.
Proof.
  destruct r as [t|].
  - intros H. apply parse_transaction_line_some in H
      as (name & pattern & m & _ & _ & H).
    eapply transaction_of_warned; eauto.
  - unfold parse_transaction_line. destruct (strip line) as [|c l].
    + intros [= <-]. apply warned_refl.
    + generalize (c :: l). intros s. generalize (patterns U).
      induction l0 as [|[name pattern] ps IH]; simpl.
      * intros [= <-]. apply warned_refl.
      * destruct (re_match pattern s) as [m|]; [|exact IH].
        unfold bind, ret.
        destruct (transaction_of U name s m w) as [[t|e] w1];
          discriminate.
Qed.

Lemma parse_transaction_line_total line w :
  exists r w', parse_transaction_line U line w = (Ok r, w').
Proof.
  unfold parse_transaction_line. destruct (strip line) as [|c l];
    [unfold ret; eauto|].
  generalize (c :: l). intros s. generalize (patterns U).
  induction l0 as [|[name pattern] ps IH]; simpl; [unfold ret; eauto|].
  destruct (re_match pattern s) as [m|]; [|exact IH].
  unfold bind, ret.
  destruct (transaction_of_total U name s m w) as (t & w1 & ->). eauto.
Qed.

End Logging.

(** ** The two kinds of record *)

Section Records.

Variable U : unicode_db.

Local Open Scope string_scope.

(** Every record is made either by the generic rule or, when that one does
    not match, by the carryover rule. *)
Lemma record_cases line w t w' :
  parse_transaction_line U line w = (Ok (Some t), w') ->
  strip line <> [] /\
  ((exists m a b w1,
       re_match (main_transaction U) (strip line) = Some m /\
       clean_amount U (group 4 m) w = (Ok a, w1) /\
       clean_amount U (group 5 m) w1 = (Ok b, w') /\
       t = [("date", VStr (group 1 m));
            ("transaction_id", VStr (group 2 m));
            ("type", VStr (_categorize_transaction U (group 3 m)));
            ("description", VStr (group 3 m));
            ("amount", VFloat a);
            ("balance", VFloat b);
            ("raw_line", VStr (strip line));
            ("pattern_used", VStr (u "main_transaction"))]) \/
   (exists m b,
       re_match (main_transaction U) (strip line) = None /\
       re_match (balance_transfer U) (strip line) = Some m /\
       clean_amount U (group 1 m) w = (Ok b, w') /\
       t = [("date", VNone);
            ("transaction_id", VStr (u "BALANCE_TRANSFER"));
            ("type", VStr (u "Saldo z przeniesienia"));
            ("description",
             VStr (u "Balance transfer from previous period"));
            ("amount", VFloat Float.zero);
            ("balance", VFloat b);
            ("raw_line", VStr (strip line));
            ("pattern_used", VStr (u "balance_transfer"))])).
Proof.
  intros H. pose proof (specific_rules_unreachable U _ _ H) as Hrule.
  revert H Hrule.
  unfold parse_transaction_line. destruct (strip line) as [|c l] eqn:E;
    [discriminate|].
  set (s := c :: l). intros H Hrule. split; [discriminate|].
  revert H. unfold patterns. cbn [try_patterns].
  destruct (re_match (main_transaction U) s) as [m|] eqn:Emain.
  - unfold bind, ret, transaction_of. cbn [String.eqb Ascii.eqb Bool.eqb].
    unfold bind, ret.
    destruct (clean_amount U (group 4 m) w) as [[a|e] w1] eqn:E1;
      [|discriminate].
    destruct (clean_amount U (group 5 m) w1) as [[b|e] w2] eqn:E2;
      [|discriminate].
    intros [= <- <-]. left. exists m, a, b, w1. auto.
  - intros H. right.
    destruct (re_match (card_transaction U) s) as [m|].
    { exfalso. revert H. unfold bind, ret.
      destruct (transaction_of_generic U "card_transaction" s m w eq_refl)
        as (a & b & w1 & ->).
      intros [= <- <-]. destruct Hrule as [Hr | Hr]; cbn in Hr;
        injection Hr as Hr; vm_compute in Hr; discriminate. }
    destruct (re_match (transfer_transaction U) s) as [m|].
    { exfalso. revert H. unfold bind, ret.
      destruct (transaction_of_generic U "transfer_transaction" s m w
                  eq_refl) as (a & b & w1 & ->).
      intros [= <- <-]. destruct Hrule as [Hr | Hr]; cbn in Hr;
        injection Hr as Hr; vm_compute in Hr; discriminate. }
    destruct (re_match (currency_exchange U) s) as [m|].
    { exfalso. revert H. unfold bind, ret.
      destruct (transaction_of_generic U "currency_exchange" s m w eq_refl)
        as (a & b & w1 & ->).
      intros [= <- <-]. destruct Hrule as [Hr | Hr]; cbn in Hr;
        injection Hr as Hr; vm_compute in Hr; discriminate. }
    destruct (re_match (balance_transfer U) s) as [m|]; [|discriminate].
    revert H. unfold bind, ret, transaction_of.
    cbn [String.eqb Ascii.eqb Bool.eqb]. unfold bind, ret.
    destruct (clean_amount U (group 1 m) w) as [[b|e] w1] eqn:E1;
      [|discriminate].
    intros [= <- <-]. exists m, b. auto.
Qed.

End Records.

Lemma parse_none_world (U : unicode_db) line w w' :
  parse_transaction_line U line w = (Ok None, w') -> w' = w.
Proof.
  unfold parse_transaction_line. destruct (strip line) as [|c l].
  - now intros [= <-].
  - generalize (c :: l). intros s. generalize (patterns U).
    induction l0 as [|[name pattern] ps IH]; simpl.
    + now intros [= <-].
    + destruct (re_match pattern s) as [m|]; [|exact IH].
      unfold bind, ret.
      destruct (transaction_of U name s m w) as [[t|e] w1]; discriminate.
Qed.

(** X1.  A line made of whitespace only gives no record and writes nothing
    to the log. *)
Theorem blank_line_gives_no_record (U : unicode_db) line w :
  blank line -> parse_transaction_line U line w = (Ok None, w).
Proof.
  intros H. unfold parse_transaction_line. now rewrite strip_blank.
Qed.

Lemma blank_line_gives_no_record_witness :
  blank [32%N; 9%N; 160%N] /\
  parse_transaction_line Latin.db [32%N; 9%N; 160%N] world0
  = (Ok None, world0).
Proof.
  assert (H : blank [32%N; 9%N; 160%N]) by (repeat constructor).
  split; [exact H|].
  exact (blank_line_gives_no_record Latin.db world0 H).
Defined.

(** X2.  Whitespace before and after a line does not change what the line
    is parsed to: the record, its [raw_line] included, and the log are
    those of the bare line. *)
Theorem surrounding_whitespace_is_ignored (U : unicode_db)
        pre line post w :
  blank pre -> blank post ->
  parse_transaction_line U (pre ++ line ++ post) w
  = parse_transaction_line U line w.
Proof.
  intros Hpre Hpost. unfold parse_transaction_line.
  now rewrite strip_surrounded.
Qed.

Lemma surrounding_whitespace_is_ignored_witness :
  blank [32%N] /\ blank [9%N; 13%N] /\
  parse_transaction_line Latin.db
    ([32%N] ++ sample_line ++ [9%N; 13%N]) world0
  = parse_transaction_line Latin.db sample_line world0.
Proof.
  assert (H1 : blank [32%N]) by (repeat constructor).
  assert (H2 : blank [9%N; 13%N]) by (repeat constructor).
  split; [exact H1|]. split; [exact H2|].
  exact (surrounding_whitespace_is_ignored Latin.db sample_line world0
           H1 H2).
Defined.

(** X3.  Every record has the eight keys of the two dict literals, in their
    order, and its [raw_line] is the line with the whitespace at both ends
    removed, which is not empty and is left alone by a second [strip]. *)
Theorem record_keys_and_raw_line (U : unicode_db) line w t w' :
  parse_transaction_line U line w = (Ok (Some t), w') ->
  keys t = ["date"; "transaction_id"; "type"; "description"; "amount";
            "balance"; "raw_line"; "pattern_used"]%string /\
  exists raw, dict_get "raw_line" t = Some (VStr raw) /\
              raw = strip line /\ raw <> [] /\ strip raw = raw.
Proof.
  intros H. apply record_cases in H
    as [Hne [(m & a & b & w1 & _ & _ & _ & ->) | (m & b & _ & _ & _ & ->)]];
    (split; [reflexivity|]); exists (strip line);
    (split; [reflexivity|]); (split; [reflexivity|]);
    (split; [exact Hne | apply strip_idempotent]).
Qed.

Lemma record_keys_and_raw_line_witness :
  keys sample_record
  = ["date"; "transaction_id"; "type"; "description"; "amount";
     "balance"; "raw_line"; "pattern_used"]%string /\
  exists raw, dict_get "raw_line" sample_record = Some (VStr raw) /\
              raw = strip sample_line /\ raw <> [] /\ strip raw = raw.
Proof.
  apply (@record_keys_and_raw_line Latin.db sample_line world0
           sample_record world0).
  vm_compute. reflexivity.
Defined.

(** X4.  [parse_transaction_line] raises for no line: it returns, the clock
    is not touched, the log grows by at most two warnings about amounts
    (one for the amount, one for the balance), and by nothing when no
    record is returned. *)
Theorem parse_transaction_line_never_raises (U : unicode_db) line w :
  exists r w',
    parse_transaction_line U line w = (Ok r, w') /\
    warned 2 w w' /\ (r = None -> w' = w).
Proof.
  destruct (parse_transaction_line_total U line w) as (r & w' & E).
  exists r, w'. split; [exact E|].
  split; [eapply parse_transaction_line_warned; exact E|].
  intros ->. eapply parse_none_world; exact E.
Qed.

(** X5.  A record is made by one of two rules only.  Made by the generic
    rule, its date has the shape dd.mm.yyyy, its identifier is a non-empty
    run of capitals and digits, and its type is the category of its
    description; made by the carryover rule, which needs the generic rule
    not to match, it has no date, the amount 0.0 and the fixed identifier,
    type and description. *)
Theorem record_is_generic_or_carryover (U : unicode_db) line w t w' :
  parse_transaction_line U line w = (Ok (Some t), w') ->
  (dict_get "pattern_used" t = Some (VStr (u "main_transaction")) /\
   exists date id description,
     dict_get "date" t = Some (VStr date) /\ matches (date_re U) date /\
     dict_get "transaction_id" t = Some (VStr id) /\
     matches (plus upper_digit) id /\
     dict_get "description" t = Some (VStr description) /\
     matches (plus_lazy any) description /\
     dict_get "type" t
     = Some (VStr (_categorize_transaction U description))) \/
  (dict_get "pattern_used" t = Some (VStr (u "balance_transfer")) /\
   re_match (main_transaction U) (strip line) = None /\
   dict_get "date" t = Some VNone /\
   dict_get "transaction_id" t = Some (VStr (u "BALANCE_TRANSFER")) /\
   dict_get "type" t = Some (VStr (u "Saldo z przeniesienia")) /\
   dict_get "description" t
   = Some (VStr (u "Balance transfer from previous period")) /\
   dict_get "amount" t = Some (VFloat Float.zero)).
Proof.
  intros H. apply record_cases in H
    as [Hne [(m & a & b & w1 & Hm & _ & _ & ->) | (m & b & Hn & _ & _ & ->)]].
  - left. split; [reflexivity|].
    apply re_match_sound in Hm as (w0 & rest & Hs & Hd).
    unfold main_transaction in Hd.
    apply den_transaction_re in Hd; [|reflexivity].
    destruct Hd as (date & ws1 & id & ws2 & d & ws3 & amt & ws4 & bal
                    & _ & _ & _ & Hff & ->).
    destruct Hff as [Hdate _ Hid _ Hdesc _ _ _ _].
    cbn [group app Nat.eqb].
    exists date, id, d. repeat (split; [first [reflexivity | assumption]|]).
    reflexivity.
  - right. split; [reflexivity|]. split; [exact Hn|].
    repeat (split; [reflexivity|]). reflexivity.
Qed.

Lemma record_is_generic_or_carryover_witness :
  (dict_get "pattern_used" sample_record
   = Some (VStr (u "main_transaction")) /\
   exists date id description,
     dict_get "date" sample_record = Some (VStr date) /\
     matches (date_re Latin.db) date /\
     dict_get "transaction_id" sample_record = Some (VStr id) /\
     matches (plus upper_digit) id /\
     dict_get "description" sample_record = Some (VStr description) /\
     matches (plus_lazy any) description /\
     dict_get "type" sample_record
     = Some (VStr (_categorize_transaction Latin.db description))) \/
  (dict_get "pattern_used" sample_record
   = Some (VStr (u "balance_transfer")) /\
   re_match (main_transaction Latin.db) (strip sample_line) = None /\
   dict_get "date" sample_record = Some VNone /\
   dict_get "transaction_id" sample_record
   = Some (VStr (u "BALANCE_TRANSFER")) /\
   dict_get "type" sample_record = Some (VStr (u "Saldo z przeniesienia")) /\
   dict_get "description" sample_record
   = Some (VStr (u "Balance transfer from previous period")) /\
   dict_get "amount" sample_record = Some (VFloat Float.zero)).
Proof.
  apply (@record_is_generic_or_carryover Latin.db sample_line world0
           sample_record world0).
  vm_compute. reflexivity.
Defined.

(** ** What the detail scan writes to the log *)

Section DetailLog.

Variable U : unicode_db.

Lemma detail_fields_warned k m w fs w' :
  detail_fields U k m w = (Ok fs, w') -> warned 2 w w'.
Proof.
  destruct k; cbn [detail_fields]; unfold bind, ret, lift.
  - intros [= _ <-]. apply warned_refl.
  - intros [= _ <-]. apply warned_refl.
  - destruct (clean_amount U (group 1 m) w) as [[a|e] w1] eqn:E;
      [|discriminate].
    intros [= _ <-]. apply warned_le with 1; [lia|].
    eapply clean_amount_warned; eauto.
  - destruct (Float.py_float U (group 4 m)) as [rate|e0]; [|discriminate].
    destruct (clean_amount U (group 5 m) w) as [[a|e] w1] eqn:E1;
      [|discriminate].
    destruct (clean_amount U (group 6 m) w1) as [[b|e] w2] eqn:E2;
      [|discriminate].
    intros [= _ <-]. apply (@warned_trans 1 1 w w1 w2);
      eapply clean_amount_warned; eauto.
  - intros [= _ <-]. apply warned_refl.
Qed.

Lemma scan_line_warned line details w d w' :
  scan_line U line details w = (Ok d, w') -> warned 2 w w'.
Proof.
  intros H. pose proof (scan_line_step _ _ _ _ H)
    as [[_ Hn] | (k & m & fs & _ & Hf & _ & _)].
  - rewrite scan_line_eq, Hn in H. injection H as _ <-. apply warned_refl.
  - eapply detail_fields_warned; exact Hf.
Qed.

Lemma scan_texts_warned ls : forall details w d w',
  scan_texts U ls details w = (Ok d, w') -> warned (2 * length ls) w w'.
Proof.
  induction ls as [|l ls IH]; intros details w d w'; simpl.
  - intros [= _ <-]. apply warned_refl.
  - unfold bind. destruct (scan_line U l details w) as [[d1|e] w1] eqn:E;
      [|discriminate].
    intros H. apply IH in H. apply scan_line_warned in E.
    replace (S (length ls + S (length ls + 0)))
      with (2 + 2 * length ls) by lia.
    eapply warned_trans; eauto.
Qed.

Lemma extract_warned lines i w d w' :
  extract_additional_details U lines i w = (Ok d, w') -> warned 8 w w'.
Proof.
  rewrite extract_window. intros H. apply scan_texts_warned in H.
  eapply warned_le; [|exact H]. pose proof (window_length lines i). lia.
Qed.

Lemma scan_texts_none ls details w :
  Forall (fun l => detail_match U (strip l) = None) ls ->
  scan_texts U ls details w = (Ok details, w).
Proof.
  induction 1 as [|l ls Hl _ IH]; simpl; [reflexivity|].
  unfold bind. now rewrite scan_line_eq, Hl.
Qed.

End DetailLog.

(** X6.  [extract_additional_details] raises for no page and no index: the
    call of [float()] on the exchange rate cannot fail, since the pattern
    lets through digits, a dot and digits only.  The keys of the mapping it
    returns are among the thirteen detail keys, the clock is not touched and
    the log grows by at most eight warnings about amounts. *)
Theorem extract_additional_details_never_raises (U : unicode_db)
        lines i w :
  exists details w',
    extract_additional_details U lines i w = (Ok details, w') /\
    incl (keys details) all_detail_keys /\ warned 8 w w'.
Proof.
  destruct (extract_total U lines i w) as (d & w' & E).
  exists d, w'. split; [exact E|]. split.
  - rewrite extract_window in E. apply scan_texts_keys in E. exact E.
  - eapply extract_warned; exact E.
Qed.

(** X7.  When none of the lines at offsets +1 to +4 that the page has is
    matched by a detail pattern (in particular when the transaction stands
    on the last line), the mapping is empty and nothing is logged. *)
Theorem no_detail_line_no_fields (U : unicode_db) lines i w :
  (forall j, i < j <= i + 4 -> j < length lines ->
             detail_match U (strip (nth j lines [])) = None) ->
  extract_additional_details U lines i w = (Ok [], w).
Proof.
  intros H. rewrite extract_window. apply scan_texts_none.
  apply Forall_forall. intros l Hl.
  apply (In_nth _ _ []) in Hl as (n & Hn & <-).
  pose proof (window_length lines i) as Hw.
  destruct (window_nth lines i Hn) as [E Hlt].
  pose proof (Nat.lt_le_trans _ _ _ Hn Hw) as Hn4.
  assert (Hj : i < S i + n <= i + 4) by lia.
  pose proof (H (S i + n) Hj Hlt) as G.
  cbv beta. etransitivity; [|exact G]. do 2 f_equal. exact E.
Qed.

Lemma no_detail_line_no_fields_witness :
  (forall j, 0 < j <= 0 + 4 -> j < length [sample_line; second_line] ->
             detail_match Latin.db (strip (nth j [sample_line; second_line]
                                                []))
             = None) /\
  extract_additional_details Latin.db [sample_line; second_line] 0 world0
  = (Ok [], world0).
Proof.
  assert (H : forall j, 0 < j <= 0 + 4 ->
                        j < length [sample_line; second_line] ->
                        detail_match Latin.db
                          (strip (nth j [sample_line; second_line] []))
                        = None).
  { intros j Hj Hl. simpl in Hl.
    assert (E : j = 1) by lia. subst j. vm_compute. reflexivity. }
  split; [exact H|].
  exact (@no_detail_line_no_fields Latin.db [sample_line; second_line] 0
           world0 H).
Defined.

(** ** The records of a document, page by page *)

(** [enumerate(l, start)] *)
Fixpoint enumerate {A : Type} (start : nat) (l : list A) : list (nat * A) :=
  match l with
  | [] => []
  | x :: l' => (start, x) :: enumerate (S start) l'
  end.

Fixpoint enumerate_pages {A : Type} (start : Z) (l : list A)
  : list (Z * A) :=
  match l with
  | [] => []
  | x :: l' => (start, x) :: enumerate_pages (start + 1)%Z l'
  end.

Section Pages.

Variable U : unicode_db.

(** What the line at index [i] of a page adds to the list of a document:
    nothing, or its record with the file name, the page number and the
    details of the lines after it. *)
Definition line_record (pdf_name : str) (page_num : Z) (lines : list str)
           (i : nat) (line : str) : list dict :=
  match fst (parse_transaction_line U line world0) with
  | Ok (Some (kv :: t)) =>
      match fst (extract_additional_details U lines i world0) with
      | Ok details =>
          [dict_update
             (dict_set "page"%string (VInt page_num)
                (dict_set "source_file"%string (VStr pdf_name) (kv :: t)))
             details]
      | Raise _ => []
      end
  | _ => []
  end.

Definition lines_records (pdf_name : str) (page_num : Z) (lines : list str)
           (numbered : list (nat * str)) : list dict :=
  flat_map (fun il => line_record pdf_name page_num lines (fst il) (snd il))
           numbered.

Definition page_records (pdf_name : str) (page_num : Z) (text : str)
  : list dict :=
  let lines := split_on 10%N text in
  lines_records pdf_name page_num lines (enumerate 0 lines).

Definition pages_records (pdf_name : str)
           (numbered : list (Z * option str)) : list dict :=
  flat_map (fun np => match snd np with
                      | Some text => page_records pdf_name (fst np) text
                      | None => []
                      end) numbered.

Definition pdf_records (f : pdf) : list dict :=
  pages_records (name f) (enumerate_pages 1%Z (pages f)).

Lemma page_lines_records pdf_name page_num lines todo :
  forall i transactions w,
  exists w',
    page_lines U pdf_name page_num lines i todo transactions w
    = ((transactions
        ++ lines_records pdf_name page_num lines (enumerate i todo), None),
       w') /\
    warned (10 * length todo) w w'.
Proof.
  induction todo as [|line todo IH]; intros i transactions w;
    cbn [page_lines enumerate lines_records flat_map].
  - exists w. rewrite app_nil_r. split; [reflexivity | apply warned_refl].
  - fold (lines_records pdf_name page_num lines (enumerate (S i) todo)).
    cbn [fst snd]. unfold line_record.
    destruct (parse_transaction_line_total U line w) as (r & w1 & E).
    pose proof (blind_parse_transaction_line U line world0 w) as Hb.
    rewrite E in Hb. cbn [fst] in Hb. rewrite E, Hb.
    pose proof (parse_transaction_line_warned U _ _ E) as Hw1.
    assert (Hskip : forall w2, warned 2 w w2 ->
              exists w',
                page_lines U pdf_name page_num lines (S i) todo
                  transactions w2
                = ((transactions ++ [] ++
                    lines_records pdf_name page_num lines
                      (enumerate (S i) todo), None), w') /\
                warned (10 * length (line :: todo)) w w').
    { intros w2 Hw2. destruct (IH (S i) transactions w2) as (w' & Ew & Hw).
      exists w'. split; [exact Ew|].
      eapply warned_le; [|eapply warned_trans; [exact Hw2 | exact Hw]].
      simpl. lia. }
    destruct r as [[|kv t]|]; [now apply Hskip | | now apply Hskip].
    destruct (extract_total U lines i w1) as (d & w2 & Ex).
    pose proof (blind_extract U lines i world0 w1) as Hbx.
    rewrite Ex in Hbx. cbn [fst] in Hbx. rewrite Ex, Hbx.
    pose proof (extract_warned U _ _ _ Ex) as Hw2.
    destruct (IH (S i)
                (transactions
                 ++ [dict_update
                       (dict_set "page"%string (VInt page_num)
                          (dict_set "source_file"%string (VStr pdf_name) (kv :: t)))
                       d]) w2) as (w' & Ew & Hw).
    exists w'. split.
    + rewrite Ew. now rewrite <- app_assoc.
    + eapply warned_le;
        [|eapply warned_trans;
          [eapply warned_trans; [exact Hw1 | exact Hw2] | exact Hw]].
      simpl. lia.
Qed.

End Pages.

(** [w'] is [w] with amount warnings appended to the log. *)
Definition warned_only (w w' : world) : Prop := exists n, warned n w w'.

Section Document.

Variable U : unicode_db.

Lemma pdf_pages_records pdf_name ps :
  forall page_num transactions w,
  exists w',
    pdf_pages U pdf_name page_num ps transactions w
    = ((transactions
        ++ pages_records U pdf_name (enumerate_pages page_num ps), None),
       w') /\
    warned_only w w'.
Proof.
  induction ps as [|[[|c text]|] ps IH]; intros page_num transactions w;
    cbn [pdf_pages enumerate_pages pages_records flat_map fst snd].
  - exists w. rewrite app_nil_r.
    split; [reflexivity | exists 0; apply warned_refl].
  - apply IH.
  - fold (pages_records U pdf_name (enumerate_pages (page_num + 1) ps)).
    destruct (page_lines_records U pdf_name page_num
                (split_on 10 (c :: text)) (split_on 10 (c :: text))
                0 transactions w) as (w1 & E1 & Hw1).
    rewrite E1.
    destruct (IH (page_num + 1)%Z
                (transactions
                 ++ lines_records U pdf_name page_num
                      (split_on 10 (c :: text))
                      (enumerate 0 (split_on 10 (c :: text)))) w1)
      as (w2 & E2 & n2 & Hw2).
    exists w2. split.
    + rewrite E2. unfold page_records. now rewrite <- app_assoc.
    + eexists. eapply warned_trans; [exact Hw1 | exact Hw2].
  - apply IH.
Qed.

Lemma parse_pdf_file_records f w :
  exists new,
    parse_pdf_file U f w
    = (pdf_records U f,
       {| clock := clock w;
          log := log w
                 ++ {| asctime := clock w; levelname := INFO;
                       msg := Processing (name f) (length (pages f)) |}
                 :: new |}) /\
    Forall amount_warning new.
Proof.
  unfold parse_pdf_file.
  set (w0 := snd (logger INFO (Processing (name f) (length (pages f))) w)).
  destruct (pdf_pages_records (name f) (pages f) 1%Z [] w0)
    as (w1 & E & n & Hc & new & El & Hf & _).
  rewrite E. exists new. split; [|exact Hf].
  cbn [app]. unfold pdf_records. f_equal.
  destruct w1 as [c1 l1]. cbn [clock log] in *. subst c1 l1.
  unfold w0. cbn [logger snd clock log]. now rewrite <- app_assoc.
Qed.

End Document.

Lemma in_enumerate (A : Type) (l : list A) : forall s i x,
  In (i, x) (enumerate s l) ->
  s <= i /\ nth_error l (i - s) = Some x.
Proof.
  induction l as [|a l IH]; intros s i x; simpl; [contradiction|].
  intros [[= <- <-] | H].
  - rewrite Nat.sub_diag. split; [lia | reflexivity].
  - apply IH in H as [Hle Hn]. split; [lia|].
    replace (i - s) with (S (i - S s)) by lia. exact Hn.
Qed.

Lemma in_enumerate_pages (A : Type) (l : list A) : forall s n x,
  In (n, x) (enumerate_pages s l) ->
  exists k, n = (s + Z.of_nat k)%Z /\ nth_error l k = Some x.
Proof.
  induction l as [|a l IH]; intros s n x; simpl; [contradiction|].
  intros [[= <- <-] | H].
  - exists 0. split; [simpl; lia | reflexivity].
  - apply IH in H as (k & -> & Hk). exists (S k). split; [lia | exact Hk].
Qed.

Definition sample_pdf : pdf :=
  {| path := u "assets/filesToProcess/a.pdf"; name := u "a.pdf";
     pages := [None; Some (sample_line ++ 10%N :: orig_line); Some []] |}.

Definition sample_pdf_records : list dict :=
  Eval vm_compute in fst (parse_pdf_file Latin.db sample_pdf world0).

Definition record_keys : list string :=
  ["date"; "transaction_id"; "type"; "description"; "amount"; "balance";
   "raw_line"; "pattern_used"]%string.

Section DocumentRecords.

Variable U : unicode_db.

Lemma in_line_record pdf_name page_num lines i line t :
  In t (line_record U pdf_name page_num lines i line) ->
  exists t0 details,
    fst (parse_transaction_line U line world0) = Ok (Some t0) /\
    fst (extract_additional_details U lines i world0) = Ok details /\
    t = dict_update
          (dict_set "page" (VInt page_num)
             (dict_set "source_file" (VStr pdf_name) t0)) details.
Proof.
  unfold line_record.
  destruct (fst (parse_transaction_line U line world0))
    as [[[|kv t0]|]|e]; try contradiction.
  destruct (fst (extract_additional_details U lines i world0))
    as [d|e]; [|contradiction].
  intros [<- | []]. eauto.
Qed.

Lemma in_pdf_records f t :
  In t (pdf_records U f) ->
  exists k text i line t0 details,
    nth_error (pages f) k = Some (Some text) /\
    nth_error (split_on 10 text) i = Some line /\
    fst (parse_transaction_line U line world0) = Ok (Some t0) /\
    fst (extract_additional_details U (split_on 10 text) i world0)
    = Ok details /\
    t = dict_update
          (dict_set "page" (VInt (Z.of_nat k + 1))
             (dict_set "source_file" (VStr (name f)) t0)) details.
Proof.
  unfold pdf_records, pages_records. intros H.
  apply in_flat_map in H as ([n [text|]] & Hin & Ht);
    cbn [fst snd] in Ht; [|contradiction].
  apply in_enumerate_pages in Hin as (k & -> & Hk).
  unfold page_records, lines_records in Ht.
  apply in_flat_map in Ht as ([i line] & Hil & Ht). cbn [fst snd] in Ht.
  apply in_enumerate in Hil as [_ Hi]. rewrite Nat.sub_0_r in Hi.
  apply in_line_record in Ht as (t0 & details & Hp & Hx & ->).
  exists k, text, i, line, t0, details.
  replace (Z.of_nat k + 1)%Z with (1 + Z.of_nat k)%Z by lia. auto.
Qed.

Lemma extract_keys_world0 lines i details :
  fst (extract_additional_details U lines i world0) = Ok details ->
  incl (keys details) all_detail_keys.
Proof.
  destruct (extract_additional_details U lines i world0) as [o w'] eqn:E.
  cbn [fst]. intros ->. rewrite extract_window in E.
  apply scan_texts_keys in E. exact E.
Qed.

End DocumentRecords.

(** The number of lines of the pages that have text. *)
Definition line_count (ps : list (option str)) : nat :=
  list_sum (map (fun p => match p with
                          | Some text => length (split_on 10%N text)
                          | None => 0
                          end) ps).

Lemma lines_records_length (U : unicode_db) pdf_name page_num lines numbered :
  length (lines_records U pdf_name page_num lines numbered)
  <= length numbered.
Proof.
  induction numbered as [|[i line] numbered IH]; simpl; [lia|].
  rewrite length_app.
  assert (length (line_record U pdf_name page_num lines i line) <= 1);
    [|lia].
  unfold line_record.
  destruct (fst (parse_transaction_line U line world0))
    as [[[|kv t0]|]|e]; simpl; try lia.
  destruct (fst (extract_additional_details U lines i world0));
    simpl; lia.
Qed.

Lemma enumerate_length (A : Type) (l : list A) : forall s,
  length (enumerate s l) = length l.
Proof. induction l as [|a l IH]; intros s; simpl; [|rewrite IH]; lia. Qed.

Lemma page_records_length (U : unicode_db) pdf_name page_num text :
  length (page_records U pdf_name page_num text)
  <= length (split_on 10%N text).
Proof.
  unfold page_records.
  pose proof (lines_records_length U pdf_name page_num (split_on 10 text)
                (enumerate 0 (split_on 10 text))) as H.
  now rewrite enumerate_length in H.
Qed.

Lemma pages_records_cons (U : unicode_db) pdf_name n p rest :
  pages_records U pdf_name ((n, p) :: rest)
  = match p with
    | Some text => page_records U pdf_name n text
    | None => []
    end ++ pages_records U pdf_name rest.
Proof. reflexivity. Qed.

Lemma line_count_cons p ps :
  line_count (p :: ps)
  = match p with
    | Some text => length (split_on 10%N text)
    | None => 0
    end + line_count ps.
Proof. reflexivity. Qed.

Lemma pages_records_length (U : unicode_db) pdf_name ps : forall s,
  length (pages_records U pdf_name (enumerate_pages s ps)) <= line_count ps.
Proof.
  induction ps as [|p ps IH]; intros s; [simpl; lia|].
  cbn [enumerate_pages]. rewrite pages_records_cons, line_count_cons.
  rewrite length_app. specialize (IH (s + 1)%Z).
  destruct p as [text|]; [|simpl; lia].
  pose proof (page_records_length U pdf_name s text). lia.
Qed.

(** X8.  For a document that opens, the list [parse_pdf_file] returns is
    the one got page by page and line by line: for each page with text, in
    the order of the pages and numbered from 1, for each line of the page
    in order, the record of the line, if it has one, with the file name,
    the page number and the details of the lines that follow it.  The
    loops, the list they append to and the log add nothing to this. *)
Theorem parse_pdf_file_page_by_page (U : unicode_db) f w :
  fst (parse_pdf_file U f w) = pdf_records U f.
Proof.
  destruct (parse_pdf_file_records U f w) as (new & E & _).
  now rewrite E.
Qed.

(** X9.  For a document that opens, [parse_pdf_file] never reaches its
    [except] branch: what it appends to the log is the INFO record with the
    file name and the number of pages, followed by warnings about amounts
    only, and no ERROR record; the clock is not touched. *)
Theorem parse_pdf_file_logs_no_error (U : unicode_db) f w :
  exists new,
    snd (parse_pdf_file U f w)
    = {| clock := clock w;
         log := log w
                ++ {| asctime := clock w; levelname := INFO;
                      msg := Processing (name f) (length (pages f)) |}
                :: new |} /\
    Forall amount_warning new /\
    Forall (fun r => levelname r <> ERROR) new.
Proof.
  destruct (parse_pdf_file_records U f w) as (new & E & Hf).
  exists new. rewrite E. split; [reflexivity|]. split; [exact Hf|].
  eapply Forall_impl; [|exact Hf]. intros r [Hl _]. rewrite Hl. discriminate.
Qed.

(** X10.  Every record of a document comes from one line of one of its
    pages: it carries the file name under [source_file] and the number of
    that page, counted from 1, under [page], and under the eight keys of
    [parse_transaction_line] it holds what that function returns for the
    line; the details merged into it overwrite none of these. *)
Theorem record_of_document (U : unicode_db) f w t :
  In t (fst (parse_pdf_file U f w)) ->
  exists k text i line t0,
    nth_error (pages f) k = Some (Some text) /\
    nth_error (split_on 10 text) i = Some line /\
    fst (parse_transaction_line U line world0) = Ok (Some t0) /\
    dict_get "source_file" t = Some (VStr (name f)) /\
    dict_get "page" t = Some (VInt (Z.of_nat k + 1)) /\
    forall key, In key record_keys -> dict_get key t = dict_get key t0.
Proof.
  destruct (parse_pdf_file_records U f w) as (new & E & _).
  rewrite E. cbn [fst]. intros H.
  apply in_pdf_records in H
    as (k & text & i & line & t0 & details & Hk & Hi & Hp & Hx & ->).
  apply extract_keys_world0 in Hx.
  exists k, text, i, line, t0. repeat (split; [assumption|]).
  assert (Hother : forall key,
             In key core_keys ->
             dict_get key (dict_update
                             (dict_set "page" (VInt (Z.of_nat k + 1))
                                (dict_set "source_file" (VStr (name f)) t0))
                             details)
             = dict_get key (dict_set "page" (VInt (Z.of_nat k + 1))
                               (dict_set "source_file" (VStr (name f)) t0))).
  { intros key Hkey. apply dict_get_update_other. intros Hin.
    apply Hx in Hin. revert Hkey Hin. unfold core_keys. simpl.
    intros Hkey Hin.
    repeat (destruct Hkey as [<- | Hkey];
            [repeat (destruct Hin as [Hin | Hin]; [discriminate|]);
             contradiction|]).
    contradiction. }
  split; [|split].
  - rewrite Hother by (unfold core_keys; simpl; tauto).
    now rewrite !dict_get_set.
  - rewrite Hother by (unfold core_keys; simpl; tauto).
    now rewrite dict_get_set.
  - intros key Hkey. rewrite Hother.
    + rewrite !dict_get_set. unfold record_keys in Hkey. simpl in Hkey.
      repeat (destruct Hkey as [<- | Hkey]; [reflexivity|]). contradiction.
    + unfold record_keys in Hkey. unfold core_keys. simpl in *. tauto.
Qed.

Lemma record_of_document_witness :
  exists k text i line t0,
    nth_error (pages sample_pdf) k = Some (Some text) /\
    nth_error (split_on 10 text) i = Some line /\
    fst (parse_transaction_line Latin.db line world0) = Ok (Some t0) /\
    dict_get "source_file" (hd [] sample_pdf_records)
    = Some (VStr (name sample_pdf)) /\
    dict_get "page" (hd [] sample_pdf_records)
    = Some (VInt (Z.of_nat k + 1)) /\
    forall key, In key record_keys ->
                dict_get key (hd [] sample_pdf_records) = dict_get key t0.
Proof.
  apply (@record_of_document Latin.db sample_pdf world0
           (hd [] sample_pdf_records)).
  vm_compute. left. reflexivity.
Defined.

(** X11.  A document none of whose pages has text (the reader gives [None]
    or the empty string for each) yields no record. *)
Theorem textless_document_gives_nothing (U : unicode_db) f w :
  Forall (fun p => p = None \/ p = Some []) (pages f) ->
  fst (parse_pdf_file U f w) = [].
Proof.
  destruct (parse_pdf_file_records U f w) as (new & E & _).
  rewrite E. cbn [fst]. unfold pdf_records. clear E. intros H.
  generalize 1%Z.
  induction H as [|p ps Hp _ IH]; intros s; [reflexivity|].
  cbn [enumerate_pages]. rewrite pages_records_cons, IH.
  destruct Hp as [-> | ->]; reflexivity.
Qed.

Lemma textless_document_gives_nothing_witness :
  Forall (fun p => p = None \/ p = Some [])
         (pages {| path := u "b.pdf"; name := u "b.pdf";
                   pages := [None; Some []] |}) /\
  fst (parse_pdf_file Latin.db
         {| path := u "b.pdf"; name := u "b.pdf"; pages := [None; Some []] |}
         world0) = [].
Proof.
  assert (H : Forall (fun p => p = None \/ p = Some [])
                (pages {| path := u "b.pdf"; name := u "b.pdf";
                          pages := [None; Some []] |})).
  { simpl. constructor; [now left|]. constructor; [now right|].
    constructor. }
  split; [exact H|].
  exact (@textless_document_gives_nothing Latin.db _ world0 H).
Defined.

(** X12.  A line gives at most one record: a document yields no more
    records than its pages with text have lines. *)
Theorem at_most_one_record_per_line (U : unicode_db) f w :
  length (fst (parse_pdf_file U f w)) <= line_count (pages f).
Proof.
  destruct (parse_pdf_file_records U f w) as (new & E & _).
  rewrite E. cbn [fst]. unfold pdf_records.
  exact (pages_records_length U (name f) (pages f) 1%Z).
Qed.

(** ** The value of an amount *)

Section AmountValue.

Variable U : unicode_db.

Import Float.

(** What [number] does after an optional minus and a run of digits. *)
Lemma number_after_digits (neg : bool) ip rest :
  ascii_digits ip -> ip <> [] ->
  match rest with c :: _ => ascii_digit c = false | [] => True end ->
  number ((if neg then [45%N] else []) ++ ip ++ rest)
  = let (fp, s2) :=
      match rest with
      | c :: t => if (c =? 46)%N then span_digits t else ([], rest)
      | [] => ([], [])
      end in
    match ip ++ fp, exponent s2 with
    | (_ :: _) as d, Some e =>
        Some (of_decimal neg (digits_value d) (e - Z.of_nat (length fp)))
    | _, _ => None
    end.
Proof.
  intros Hip Hne Hrest. unfold number.
  destruct ip as [|c ip]; [congruence|].
  inversion Hip as [|? ? Hc Hip']; subst.
  pose proof (proj1 (ascii_digit_spec c) Hc) as Hr.
  assert (Hs : take_sign ((if neg then [45%N] else []) ++ (c :: ip) ++ rest)
               = (neg, (c :: ip) ++ rest)).
  { destruct neg; [reflexivity|]. simpl.
    destruct (N.eqb_spec c 45); [lia|].
    destruct (N.eqb_spec c 43); [lia | reflexivity]. }
  rewrite Hs.
  assert (Hlow : ascii_lower c = c).
  { unfold ascii_lower, between.
    destruct (N.leb_spec 65 c), (N.leb_spec c 90); simpl; try reflexivity;
      lia. }
  assert (Hname : forall n l, (n =? c)%N = false ->
            Text.eqb (map ascii_lower ((c :: ip) ++ rest)) (n :: l) = false).
  { intros n l Hn. simpl. rewrite Hlow, N.eqb_sym, Hn. reflexivity. }
  change (u "inf") with [105; 110; 102]%N.
  change (u "infinity") with [105; 110; 102; 105; 110; 105; 116; 121]%N.
  change (u "nan") with [110; 97; 110]%N.
  rewrite !Hname by (apply N.eqb_neq; lia). simpl orb. cbv iota.
  rewrite (@span_digits_app (c :: ip) rest Hip Hrest). reflexivity.
Qed.

(** [float()] leaves alone a text of amount characters that begins with a
    minus or a digit and ends with a digit, and hands it to [number]. *)
Lemma py_float_number s :
  s <> [] ->
  Forall (fun c => c <> 95%N) (map (to_ascii U) s) ->
  ascii_space (hd 0%N (map (to_ascii U) s)) = false ->
  ascii_space (last (map (to_ascii U) s) 0%N) = false ->
  py_float U s
  = match number (map (to_ascii U) s) with
    | Some x => Ok x
    | None => Raise (ValueError s)
    end.
Proof.
  intros Hne Hu Hh Hl. unfold py_float.
  set (s' := map (to_ascii U) s) in *.
  assert (Hne' : s' <> []).
  { unfold s'. destruct s; [congruence | discriminate]. }
  assert (H1 : lstrip_ascii s' = s').
  { destruct s' as [|c t]; [congruence|]. simpl in Hh |- *. now rewrite Hh. }
  rewrite H1.
  assert (H2 : lstrip_ascii (rev s') = rev s').
  { destruct (exists_last Hne') as (t & c & E). rewrite E in Hl |- *.
    rewrite last_last in Hl. rewrite rev_app_distr. simpl. now rewrite Hl. }
  rewrite H2, rev_involutive.
  rewrite underscores_none; [reflexivity | exact Hu | discriminate].
Qed.

End AmountValue.

(** The sign of an amount, its digits as [float()] reads them, and the
    amounts whose separators are the space U+0020 only. *)
Definition minus_sign (amount_str : str) : bool :=
  match amount_str with
  | c :: _ => (c =? 45)%N
  | [] => false
  end.

Definition digits_of (U : unicode_db) (amount_str : str) : str :=
  map (Float.to_ascii U) (filter (isdecimal U) amount_str).

Definition odd_separator (c : char) : bool :=
  isspace c && negb (c =? 32)%N.

Section AmountShape.

Variable U : unicode_db.

Import Float.

Lemma decimal_not_sep c :
  isdecimal U c = true -> c <> 32%N /\ c <> 44%N /\ c <> 45%N.
Proof.
  intros H. destruct (N.ltb_spec c 128) as [Hc | Hc]; [|lia].
  rewrite isdecimal_ascii in H by exact Hc. apply between_spec in H. lia.
Qed.

Lemma space_not_comma c : isspace c = true -> c <> 44%N /\ c <> 45%N.
Proof. intros H. apply isspace_spec in H. lia. Qed.

Lemma digit_or_space_not_comma c :
  digit_or_space U c = true -> c <> 44%N.
Proof.
  unfold digit_or_space. intros H. apply orb_prop in H as [H | H].
  - now apply decimal_not_sep in H.
  - now apply space_not_comma in H.
Qed.

Lemma replace_none (a b : char) s :
  Forall (fun c => c <> a) s -> replace_char a b s = s.
Proof.
  unfold replace_char. induction 1 as [|c s Hc _ IH]; simpl; [reflexivity|].
  destruct (N.eqb_spec c a); [contradiction | now rewrite IH].
Qed.

Lemma replace_app (a b : char) s t :
  replace_char a b (s ++ t) = replace_char a b s ++ replace_char a b t.
Proof. unfold replace_char. apply map_app. Qed.

Lemma remove_keeps_digits body :
  Forall (fun x => digit_or_space U x = true) body ->
  Forall (fun x => digit_or_space U x = true) (remove_char 32 body).
Proof.
  unfold remove_char. intros H. apply Forall_forall. intros x Hx.
  apply filter_In in Hx as [Hx _].
  exact (proj1 (Forall_forall _ _) H x Hx).
Qed.

(** The cleaned text of an amount of the shape the patterns let through. *)
Lemma cleaned_shape (neg : bool) d0 body d1 d2 :
  isdecimal U d0 = true ->
  Forall (fun x => digit_or_space U x = true) body ->
  isdecimal U d1 = true -> isdecimal U d2 = true ->
  cleaned ((if neg then [45%N] else []) ++ (d0 :: body) ++ [44%N; d1; d2])
  = (if neg then [45%N] else []) ++ (d0 :: remove_char 32 body)
    ++ [46%N; d1; d2].
Proof.
  intros H0 Hb H1 H2. unfold cleaned.
  destruct (decimal_not_sep _ H0) as (A0 & B0 & _).
  destruct (decimal_not_sep _ H1) as (A1 & B1 & _).
  destruct (decimal_not_sep _ H2) as (A2 & B2 & _).
  assert (Hrem : remove_char 32
                   ((if neg then [45%N] else []) ++ (d0 :: body)
                    ++ [44%N; d1; d2])
                 = (if neg then [45%N] else []) ++ (d0 :: remove_char 32 body)
                   ++ [44%N; d1; d2]).
  { unfold remove_char. rewrite !filter_app. f_equal; [now destruct neg|].
    simpl.
    destruct (N.eqb_spec d0 32), (N.eqb_spec d1 32), (N.eqb_spec d2 32);
      try contradiction. reflexivity. }
  rewrite Hrem, !replace_app. f_equal; [now destruct neg|].
  rewrite replace_none.
  - f_equal. unfold replace_char. simpl.
    destruct (N.eqb_spec d1 44), (N.eqb_spec d2 44); try contradiction.
    reflexivity.
  - constructor; [exact B0|].
    eapply Forall_impl; [|apply remove_keeps_digits; exact Hb].
    apply digit_or_space_not_comma.
Qed.

(** Without odd separators, what is left are the digits. *)
Lemma remove_plain body :
  Forall (fun x => digit_or_space U x = true) body ->
  Forall (fun x => odd_separator x = false) body ->
  remove_char 32 body = filter (isdecimal U) body.
Proof.
  unfold remove_char. induction 1 as [|c body Hc _ IH]; intros Hp;
    [reflexivity|].
  inversion Hp as [|? ? Hc' Hp']; subst. simpl. rewrite (IH Hp').
  unfold digit_or_space in Hc. unfold odd_separator in Hc'.
  destruct (isdecimal U c) eqn:Ed.
  - destruct (decimal_not_sep _ Ed) as (A & _).
    destruct (N.eqb_spec c 32); [contradiction | reflexivity].
  - simpl in Hc. rewrite Hc in Hc'. simpl in Hc'.
    destruct (N.eqb_spec c 32); [reflexivity | discriminate].
Qed.

(** With one, the cleaned text has a space after some digits. *)
Lemma remove_odd body :
  Forall (fun x => digit_or_space U x = true) body ->
  Exists (fun x => odd_separator x = true) body ->
  exists ds c t,
    remove_char 32 body = ds ++ c :: t /\
    Forall (fun x => isdecimal U x = true) ds /\
    isspace c = true /\
    Forall (fun x => digit_or_space U x = true) t.
Proof.
  unfold remove_char. induction 1 as [|c body Hc Hb IH]; intros He;
    [inversion He|].
  simpl. unfold digit_or_space in Hc.
  destruct (isdecimal U c) eqn:Ed.
  - destruct (decimal_not_sep _ Ed) as (A & _).
    destruct (N.eqb_spec c 32); [contradiction|]. simpl.
    inversion He as [? ? Ho | ? ? He']; subst.
    + unfold odd_separator in Ho.
      rewrite (isdecimal_not_space U c Ed) in Ho. discriminate.
    + destruct (IH He') as (ds & c' & t & E & Hds & Hc' & Ht).
      exists (c :: ds), c', t. rewrite E. auto.
  - simpl in Hc. destruct (N.eqb_spec c 32) as [-> | Hn]; simpl.
    + inversion He as [? ? Ho | ? ? He']; subst; [discriminate|].
      exact (IH He').
    + exists [], c, (filter (fun c0 => negb (c0 =? 32)%N) body).
      split; [reflexivity|]. split; [constructor|]. split; [exact Hc|].
      apply remove_keeps_digits. exact Hb.
Qed.

End AmountShape.

Section AmountRead.

Variable U : unicode_db.

Import Float.

Lemma ascii_digit_not_space c : ascii_digit c = true -> ascii_space c = false.
Proof.
  intros H. apply ascii_digit_spec in H. unfold ascii_space, between.
  destruct (N.leb_spec 9 c), (N.leb_spec c 13), (N.eqb_spec c 32); simpl;
    try reflexivity; lia.
Qed.

Lemma to_ascii_space c :
  isspace c = true -> (to_ascii U c <= 32)%N.
Proof.
  intros H. unfold to_ascii. destruct (N.ltb_spec c 127) as [Hc | Hc].
  - apply isspace_spec in H. lia.
  - rewrite H. lia.
Qed.

Lemma to_ascii_not_underscore c :
  digit_or_space U c = true -> to_ascii U c <> 95%N.
Proof.
  unfold digit_or_space. intros H. apply orb_prop in H as [H | H].
  - apply (to_ascii_digit U) in H. apply ascii_digit_spec in H. lia.
  - apply to_ascii_space in H. lia.
Qed.

(** The text [float()] gets for an amount goes to [number] as it is. *)
Lemma py_float_cleaned (neg : bool) d0 X d1 d2 :
  isdecimal U d0 = true ->
  Forall (fun x => digit_or_space U x = true) X ->
  isdecimal U d1 = true -> isdecimal U d2 = true ->
  let s := (if neg then [45%N] else []) ++ (d0 :: X) ++ [46%N; d1; d2] in
  py_float U s
  = match number ((if neg then [45%N] else [])
                  ++ (to_ascii U d0 :: map (to_ascii U) X)
                  ++ [46%N; to_ascii U d1; to_ascii U d2]) with
    | Some x => Ok x
    | None => Raise (ValueError s)
    end.
Proof.
  intros H0 HX H1 H2 s.
  assert (Hmap : map (to_ascii U) s
                 = (if neg then [45%N] else [])
                   ++ (to_ascii U d0 :: map (to_ascii U) X)
                   ++ [46%N; to_ascii U d1; to_ascii U d2]).
  { unfold s. rewrite !map_app. now destruct neg. }
  rewrite <- Hmap. apply py_float_number.
  - unfold s. now destruct neg.
  - rewrite Hmap. apply Forall_app. split; [destruct neg; repeat constructor;
                                             discriminate|].
    apply Forall_app. split.
    + constructor.
      * apply to_ascii_not_underscore. unfold digit_or_space. now rewrite H0.
      * apply Forall_map. eapply Forall_impl; [|exact HX].
        apply to_ascii_not_underscore.
    + repeat constructor; [discriminate | |];
        apply to_ascii_not_underscore; unfold digit_or_space;
        [now rewrite H1 | now rewrite H2].
  - rewrite Hmap. destruct neg; [reflexivity|]. simpl.
    apply ascii_digit_not_space. now apply to_ascii_digit.
  - rewrite Hmap.
    replace ((if neg then [45%N] else [])
             ++ (to_ascii U d0 :: map (to_ascii U) X)
             ++ [46%N; to_ascii U d1; to_ascii U d2])
      with (((if neg then [45%N] else [])
             ++ (to_ascii U d0 :: map (to_ascii U) X)
             ++ [46%N; to_ascii U d1]) ++ [to_ascii U d2])
      by (rewrite <- !app_assoc; reflexivity).
    rewrite last_last. apply ascii_digit_not_space. now apply to_ascii_digit.
Qed.

End AmountRead.

Section AmountTheorems.

Variable U : unicode_db.

Import Float.

Lemma signed_shape amt :
  matches (signed_re U) amt ->
  exists (neg : bool) d0 body d1 d2,
    amt = (if neg then [45%N] else []) ++ (d0 :: body) ++ [44%N; d1; d2] /\
    isdecimal U d0 = true /\
    Forall (fun x => digit_or_space U x = true) body /\
    isdecimal U d1 = true /\ isdecimal U d2 = true.
Proof.
  intros H. apply signed_re_shape in H as (sign & n & -> & Hs & Hn).
  apply number_re_shape in Hn as (d0 & body & d1 & d2 & -> & H).
  destruct Hs as [-> | ->]; [exists false | exists true];
    exists d0, body, d1, d2; split; auto.
Qed.

Lemma span_two d1 d2 :
  ascii_digit d1 = true -> ascii_digit d2 = true ->
  span_digits [d1; d2] = ([d1; d2], []).
Proof. intros H1 H2. simpl. now rewrite H1, H2. Qed.

Lemma clean_amount_plain amt w :
  matches (signed_re U) amt ->
  Forall (fun c => odd_separator c = false) amt ->
  clean_amount U amt w
  = (Ok (of_decimal (minus_sign amt) (digits_value (digits_of U amt)) (-2)),
     w).
Proof.
  intros Hm Hp.
  apply signed_shape in Hm as (neg & d0 & body & d1 & d2 & -> & H0 & Hb
                               & H1 & H2).
  assert (Hpb : Forall (fun c => odd_separator c = false) body).
  { apply Forall_app in Hp as [_ Hp]. apply Forall_app in Hp as [Hp _].
    now inversion Hp. }
  destruct (decimal_not_sep U _ H0) as (_ & _ & M0).
  rewrite clean_amount_eq.
  destruct ((if neg then [45%N] else []) ++ (d0 :: body) ++ [44%N; d1; d2])
    as [|c0 l0] eqn:Eamt; [destruct neg; discriminate|]. rewrite <- Eamt.
  set (cl := cleaned _).
  assert (Ecl : cl = (if neg then [45%N] else [])
                     ++ (d0 :: remove_char 32 body) ++ [46%N; d1; d2])
    by exact (@cleaned_shape U neg d0 body d1 d2 H0 Hb H1 H2).
  clearbody cl. subst cl.
  rewrite py_float_cleaned by (try assumption; now apply remove_keeps_digits).
  rewrite (remove_plain U Hb Hpb).
  assert (Hds : ascii_digits (to_ascii U d0
                              :: map (to_ascii U) (filter (isdecimal U) body))).
  { constructor; [now apply to_ascii_digit|].
    apply Forall_map, Forall_forall. intros x Hx.
    apply filter_In in Hx as [_ Hx]. now apply to_ascii_digit. }
  rewrite (@number_after_digits neg _
             [46%N; to_ascii U d1; to_ascii U d2] Hds);
    [|discriminate | reflexivity].
  rewrite N.eqb_refl.
  rewrite span_two by now apply to_ascii_digit.
  cbn [exponent length Z.of_nat app].
  assert (Hdig : digits_of U ((if neg then [45%N] else []) ++ (d0 :: body)
                              ++ [44%N; d1; d2])
                 = (to_ascii U d0
                    :: map (to_ascii U) (filter (isdecimal U) body))
                   ++ [to_ascii U d1; to_ascii U d2]).
  { assert (E45 : isdecimal U 45%N = false)
      by (rewrite isdecimal_ascii by reflexivity; reflexivity).
    assert (E44 : isdecimal U 44%N = false)
      by (rewrite isdecimal_ascii by reflexivity; reflexivity).
    assert (F1 : filter (isdecimal U) (if neg then [45%N] else []) = [])
      by (destruct neg; simpl; [rewrite E45|]; reflexivity).
    assert (F2 : filter (isdecimal U) (d0 :: body)
                 = d0 :: filter (isdecimal U) body)
      by (simpl; now rewrite H0).
    assert (F3 : filter (isdecimal U) [44%N; d1; d2] = [d1; d2])
      by (simpl; now rewrite E44, H1, H2).
    transitivity (map (to_ascii U)
                    ([] ++ (d0 :: filter (isdecimal U) body) ++ [d1; d2]));
      [|rewrite app_nil_l, map_app; reflexivity].
    unfold digits_of. f_equal. rewrite !filter_app.
    f_equal; [exact F1|]. f_equal; [exact F2 | exact F3]. }
  assert (Hsign : minus_sign ((if neg then [45%N] else []) ++ (d0 :: body)
                              ++ [44%N; d1; d2]) = neg).
  { destruct neg; simpl; [reflexivity|]. now apply N.eqb_neq. }
  set (dg := digits_of U _).
  assert (Edg : dg = (to_ascii U d0
                      :: map (to_ascii U) (filter (isdecimal U) body))
                     ++ [to_ascii U d1; to_ascii U d2]) by exact Hdig.
  set (ms := minus_sign _).
  assert (Ems : ms = neg) by exact Hsign.
  clearbody dg ms. subst dg ms.
  cbn [app]. reflexivity.
Qed.

Lemma clean_amount_odd amt w :
  matches (signed_re U) amt ->
  Exists (fun c => odd_separator c = true) amt ->
  clean_amount U amt w
  = (Ok zero,
     {| clock := clock w;
        log := log w ++ [{| asctime := clock w; levelname := WARNING;
                            msg := Could_not_parse_amount amt |}] |}).
Proof.
  intros Hm He.
  apply signed_shape in Hm as (neg & d0 & body & d1 & d2 & -> & H0 & Hb
                               & H1 & H2).
  assert (Hnot : forall c, isdecimal U c = true -> odd_separator c = false).
  { intros c Hc. unfold odd_separator.
    now rewrite (isdecimal_not_space U c Hc). }
  assert (Heb : Exists (fun c => odd_separator c = true) body).
  { apply Exists_app in He as [He | He].
    - destruct neg; [|inversion He].
      inversion He as [? ? Ho | ? ? Ho]; subst; [discriminate | inversion Ho].
    - apply Exists_app in He as [He | He].
      + inversion He as [? ? Ho | ? ? Ho]; subst; [|exact Ho].
        rewrite (Hnot _ H0) in Ho. discriminate.
      + exfalso.
        inversion He as [? ? Ho | ? ? Ho1]; subst; [discriminate|].
        inversion Ho1 as [? ? Ho | ? ? Ho2]; subst;
          [rewrite (Hnot _ H1) in Ho; discriminate|].
        inversion Ho2 as [? ? Ho | ? ? Ho3]; subst;
          [rewrite (Hnot _ H2) in Ho; discriminate | inversion Ho3]. }
  rewrite clean_amount_eq.
  destruct ((if neg then [45%N] else []) ++ (d0 :: body) ++ [44%N; d1; d2])
    as [|c0 l0] eqn:Eamt; [destruct neg; discriminate|]. rewrite <- Eamt.
  set (cl := cleaned _).
  assert (Ecl : cl = (if neg then [45%N] else [])
                     ++ (d0 :: remove_char 32 body) ++ [46%N; d1; d2])
    by exact (@cleaned_shape U neg d0 body d1 d2 H0 Hb H1 H2).
  clearbody cl. subst cl.
  rewrite py_float_cleaned by (try assumption; now apply remove_keeps_digits).
  destruct (remove_odd U Hb Heb) as (ds & c & t & -> & Hds & Hc & Ht).
  assert (Hip : ascii_digits (to_ascii U d0 :: map (to_ascii U) ds)).
  { constructor; [now apply to_ascii_digit|].
    apply Forall_map. eapply Forall_impl; [|exact Hds].
    intros x. apply to_ascii_digit. }
  pose proof (to_ascii_space U c Hc) as Hle.
  assert (Hcd : ascii_digit (to_ascii U c) = false).
  { destruct (ascii_digit (to_ascii U c)) eqn:E; [|reflexivity].
    apply ascii_digit_spec in E. lia. }
  replace ((to_ascii U d0 :: map (to_ascii U) (ds ++ c :: t))
           ++ [46%N; to_ascii U d1; to_ascii U d2])
    with ((to_ascii U d0 :: map (to_ascii U) ds)
          ++ to_ascii U c
             :: (map (to_ascii U) t ++ [46%N; to_ascii U d1; to_ascii U d2]))
    by (rewrite map_app; simpl; rewrite <- app_assoc; reflexivity).
  rewrite (@number_after_digits neg _ _ Hip); [|discriminate | exact Hcd].
  destruct (N.eqb_spec (to_ascii U c) 46) as [E46 | _]; [lia|].
  assert (Hexp : exponent
                   (to_ascii U c
                    :: map (to_ascii U) t
                       ++ [46%N; to_ascii U d1; to_ascii U d2]) = None).
  { unfold exponent, ascii_lower, between.
    destruct (N.leb_spec 65 (to_ascii U c)); [lia|]. simpl.
    destruct (N.eqb_spec (to_ascii U c) 101); [lia | reflexivity]. }
  rewrite Hexp.
  destruct ((to_ascii U d0 :: map (to_ascii U) ds) ++ []); reflexivity.
Qed.

End AmountTheorems.

(** X13.  What [clean_amount] reads from an amount the patterns let
    through, when the digit groups are separated by the space U+0020 or by
    nothing: the binary64 value nearest to the digits, taken as a number of
    hundredths, with a minus sign when the text begins with one.  Nothing is
    logged. *)
Theorem clean_amount_reads_hundredths (U : unicode_db) amount_str w :
  matches (signed_re U) amount_str ->
  Forall (fun c => odd_separator c = false) amount_str ->
  clean_amount U amount_str w
  = (Ok (Float.of_decimal (minus_sign amount_str)
           (Float.digits_value (digits_of U amount_str)) (-2)), w).
Proof. apply clean_amount_plain. Qed.

Lemma clean_amount_reads_hundredths_witness :
  matches (signed_re Latin.db) (u "-1 234,56") /\
  Forall (fun c => odd_separator c = false) (u "-1 234,56") /\
  clean_amount Latin.db (u "-1 234,56") world0
  = (Ok (Float.of_decimal (minus_sign (u "-1 234,56"))
           (Float.digits_value (digits_of Latin.db (u "-1 234,56"))) (-2)),
     world0).
Proof.
  assert (H1 : matches (signed_re Latin.db) (u "-1 234,56"))
    by (apply fullmatch_matches; vm_compute; reflexivity).
  assert (H2 : Forall (fun c => odd_separator c = false) (u "-1 234,56"))
    by (vm_compute; repeat constructor).
  split; [exact H1|]. split; [exact H2|].
  exact (@clean_amount_reads_hundredths Latin.db _ world0 H1 H2).
Defined.

(** X14.  The patterns accept any whitespace character between the digit
    groups of an amount, but [clean_amount] removes the space U+0020 only:
    an amount with a tab, a no-break space or any other such separator is
    read as 0.0, and one warning naming the amount is logged. *)
Theorem odd_separator_reads_zero (U : unicode_db) amount_str w :
  matches (signed_re U) amount_str ->
  Exists (fun c => odd_separator c = true) amount_str ->
  clean_amount U amount_str w
  = (Ok Float.zero,
     {| clock := clock w;
        log := log w ++ [{| asctime := clock w; levelname := WARNING;
                            msg := Could_not_parse_amount amount_str |}] |}).
Proof. apply clean_amount_odd. Qed.

Lemma odd_separator_reads_zero_witness :
  matches (signed_re Latin.db) (u "1" ++ 160%N :: u "234,56") /\
  Exists (fun c => odd_separator c = true) (u "1" ++ 160%N :: u "234,56") /\
  clean_amount Latin.db (u "1" ++ 160%N :: u "234,56") world0
  = (Ok Float.zero,
     {| clock := clock world0;
        log := log world0
               ++ [{| asctime := clock world0; levelname := WARNING;
                      msg := Could_not_parse_amount
                               (u "1" ++ 160%N :: u "234,56") |}] |}).
Proof.
  assert (H1 : matches (signed_re Latin.db) (u "1" ++ 160%N :: u "234,56"))
    by (apply fullmatch_matches; vm_compute; reflexivity).
  assert (H2 : Exists (fun c => odd_separator c = true)
                 (u "1" ++ 160%N :: u "234,56"))
    by (vm_compute; right; left; reflexivity).
  split; [exact H1|]. split; [exact H2|].
  exact (@odd_separator_reads_zero Latin.db _ world0 H1 H2).
Defined.

(** ** The columns of the CSV file *)

(** [column_order] of [save_to_csv]. *)
Definition column_order : list string :=
  ["date"; "transaction_id"; "type"; "description"; "amount"; "balance";
   "source_file"; "page"; "card_number"; "location"; "phone"; "time";
   "original_amount"; "currency_pair"; "exchange_rate"; "pln_amount";
   "foreign_amount"; "foreign_currency"; "account_number"; "recipient";
   "reference"; "raw_line"; "pattern_used"]%string.

(** [[col for col in column_order if col in df.columns]], for the columns
    of the data frame, which are the keys of the records. *)
Definition existing_columns (columns : list string) : list string :=
  filter (fun col => existsb (String.eqb col) columns) column_order.

Ltac find_in_list :=
  solve [repeat (first [left; reflexivity | right])].

Lemma column_order_exact key :
  In key column_order <-> In key core_keys \/ In key all_detail_keys.
Proof.
  unfold column_order, core_keys, all_detail_keys. simpl. split.
  - intros H.
    repeat (destruct H as [<- | H];
            [first [left; find_in_list | right; find_in_list]|]).
    contradiction.
  - intros [H | H];
      repeat (destruct H as [<- | H]; [find_in_list|]); contradiction.
Qed.

Section Columns.

Variable U : unicode_db.

Lemma parsed_keys line t :
  fst (parse_transaction_line U line world0) = Ok (Some t) ->
  keys t = record_keys.
Proof.
  destruct (parse_transaction_line U line world0) as [o w'] eqn:E.
  cbn [fst]. intros ->. apply record_cases in E
    as [_ [(m & a & b & w1 & _ & _ & _ & ->) | (m & b & _ & _ & _ & ->)]];
    reflexivity.
Qed.

Lemma document_record_keys f t :
  In t (pdf_records U f) -> incl (keys t) (core_keys ++ all_detail_keys).
Proof.
  intros H. apply in_pdf_records in H
    as (k & text & i & line & t0 & details & _ & _ & Hp & Hx & ->).
  apply parsed_keys in Hp. apply extract_keys_world0 in Hx.
  intros key Hkey. apply keys_update in Hkey.
  apply in_or_app. apply in_app_or in Hkey as [Hkey | Hkey];
    [left | right; now apply Hx].
  apply keys_set in Hkey as [<- | Hkey]; [find_in_list|].
  apply keys_set in Hkey as [<- | Hkey]; [find_in_list|].
  rewrite Hp in Hkey. unfold record_keys in Hkey. simpl in Hkey.
  repeat (destruct Hkey as [<- | Hkey]; [find_in_list|]). contradiction.
Qed.

End Columns.

(** X15.  The reordering of the columns in [save_to_csv] drops no field:
    every key of every record of a document is in [column_order], so it is
    among the columns written whenever it is a column of the data frame. *)
Theorem csv_columns_cover_every_field (U : unicode_db) f w t key columns :
  In t (fst (parse_pdf_file U f w)) ->
  In key (keys t) ->
  In key columns ->
  In key column_order /\ In key (existing_columns columns).
Proof.
  intros Ht Hkey Hcol.
  destruct (parse_pdf_file_records U f w) as (new & E & _).
  rewrite E in Ht. cbn [fst] in Ht.
  apply document_record_keys in Ht. apply Ht in Hkey.
  assert (Hin : In key column_order).
  { apply column_order_exact. now apply in_app_or. }
  split; [exact Hin|]. unfold existing_columns. apply filter_In.
  split; [exact Hin|]. apply existsb_exists. exists key.
  split; [exact Hcol | apply String.eqb_refl].
Qed.

Lemma csv_columns_cover_every_field_witness :
  In "original_amount"%string column_order /\
  In "original_amount"%string
     (existing_columns (keys (hd [] sample_pdf_records))).
Proof.
  apply (@csv_columns_cover_every_field Latin.db sample_pdf world0
           (hd [] sample_pdf_records) "original_amount"%string
           (keys (hd [] sample_pdf_records))).
  - vm_compute. left. reflexivity.
  - vm_compute. do 10 right. left. reflexivity.
  - vm_compute. do 10 right. left. reflexivity.
Defined.

Lemma filter_member_incl (l columns : list string) :
  incl (filter (fun col => existsb (String.eqb col) columns) l) columns.
Proof.
  intros key H. apply filter_In in H as [_ H].
  apply existsb_exists in H as (x & Hx & E).
  apply String.eqb_eq in E. now subst.
Qed.

(** X16.  [column_order] names each column once, and its entries are
    exactly the keys the parser can put into a record: the ten core keys
    and the keys of the five detail patterns.  The columns written are
    columns of the data frame. *)
Theorem column_order_is_exact :
  NoDup column_order /\
  (forall key,
      In key column_order <-> In key core_keys \/ In key all_detail_keys) /\
  (forall columns, incl (existing_columns columns) columns).
Proof.
  split; [|split; [exact column_order_exact|]].
  - assert (E : nodup string_dec column_order = column_order)
      by (vm_compute; reflexivity).
    rewrite <- E. apply NoDup_nodup.
  - intros columns. unfold existing_columns. apply filter_member_incl.
Qed.

(** ** The folder *)

(** The folder as the file system shows it: whether it exists, and the
    files [glob("*.pdf")] lists, in the order it lists them.  Every file is
    taken to open. *)
Record folder := {
  folder_path : str;
  folder_exists : bool;
  pdf_files : list pdf
}.

(** The four messages of [parse_all_files]. *)
Inductive notice :=
| Folder_does_not_exist (folder_path : str)
| No_PDF_files_found (folder_path : str)
| Found_PDF_files (n : nat)
| Extracted (n : nat) (name : str).

(** A line of the log of a run: one written while a file is parsed, or one
    written by [parse_all_files] itself. *)
Inductive journal_line :=
| Parser_record (r : log_record)
| Runner_record (asctime : Z) (levelname : level) (text : notice).

Record session := { now : Z; journal : list journal_line }.

Definition note (l : level) (n : notice) (s : session) : session :=
  {| now := now s; journal := journal s ++ [Runner_record (now s) l n] |}.

(** A call of the parser inside a run: what it logs goes to the journal. *)
Definition in_session {A : Type} (m : world -> A * world) (s : session)
  : A * session :=
  let (a, w) := m {| clock := now s; log := [] |} in
  (a, {| now := clock w;
         journal := journal s ++ map Parser_record (log w) |}).

(** [<] on [str]: by code points, a proper prefix first. *)
Fixpoint str_ltb (a b : str) : bool :=
  match a, b with
  | _, [] => false
  | [], _ :: _ => true
  | x :: a', y :: b' => (x <? y)%N || ((x =? y)%N && str_ltb a' b')
  end.

(** [<] on the paths of one folder, which differ in their last part. *)
Definition path_ltb (f g : pdf) : bool := str_ltb (name f) (name g).

(** [sorted]: stable, and using [<] only. *)
Fixpoint insert_sorted (f : pdf) (l : list pdf) : list pdf :=
  match l with
  | [] => [f]
  | g :: l' => if path_ltb f g then f :: l else g :: insert_sorted f l'
  end.

Definition sorted (l : list pdf) : list pdf :=
  fold_left (fun acc f => insert_sorted f acc) l [].

Section Folder.

Variable U : unicode_db.

(** The loop of [parse_all_files] over the sorted files. *)
Fixpoint files_loop (files : list pdf) (all_transactions : list dict)
         (s : session) : list dict * session :=
  match files with
  | [] => (all_transactions, s)
  | pdf_file :: files' =>
      let (transactions, s1) := in_session (parse_pdf_file U pdf_file) s in
      files_loop files' (all_transactions ++ transactions)
        (note INFO (Extracted (length transactions) (name pdf_file)) s1)
  end.

(** [parse_all_files] *)
Definition parse_all_files (d : folder) (s : session)
  : list dict * session :=
  if negb (folder_exists d) then
    ([], note ERROR (Folder_does_not_exist (folder_path d)) s)
  else
    match pdf_files d with
    | [] => ([], note WARNING (No_PDF_files_found (folder_path d)) s)
    | _ :: _ =>
        files_loop (sorted (pdf_files d)) []
          (note INFO (Found_PDF_files (length (pdf_files d))) s)
    end.

End Folder.

(** ** A line of no known category *)

Definition other_line : str :=
  u "01.02.2024 ABC123 OPLATA ZA KARTE -5,00 895,00".

Definition other_record : dict :=
  Eval vm_compute in
    match fst (parse_transaction_line Latin.db other_line world0) with
    | Ok (Some t) => t
    | _ => []
    end.

Lemma other_description_no_key_phrase :
  no_key_phrase (lower Latin.db (u "OPLATA ZA KARTE")).
Proof.
  intros p Hp. unfold key_phrases in Hp.
  destruct Hp as [<- | [<- | [<- | [<- | [<- | [<- | []]]]]]];
    vm_compute; reflexivity.
Qed.

Lemma generic_rule_classifies_witness :
  five_fields Latin.db (plus_lazy any)
    (u "01.02.2024") (u " ") (u "ABC123") (u " ") (u "OPLATA ZA KARTE")
    (u " ") (u "-5,00") (u " ") (u "895,00") /\
  no_key_phrase (lower Latin.db (u "OPLATA ZA KARTE")) /\
  (exists t w',
      parse_transaction_line Latin.db
        (u "01.02.2024" ++ u " " ++ u "ABC123" ++ u " "
         ++ u "OPLATA ZA KARTE" ++ u " " ++ u "-5,00" ++ u " "
         ++ u "895,00") world0 = (Ok (Some t), w') /\
      dict_get "pattern_used" t = Some (VStr (u "main_transaction")) /\
      dict_get "description" t = Some (VStr (u "OPLATA ZA KARTE")) /\
      dict_get "type" t = Some (VStr (u "Other"))) /\
  _categorize_transaction Latin.db (u "OPLATA ZA KARTE") = u "Other".
Proof.
  assert (Hsp : spaces (u " ")).
  { split; [intros E; vm_compute in E; discriminate|].
    vm_compute. repeat constructor. }
  assert (H : five_fields Latin.db (plus_lazy any)
                (u "01.02.2024") (u " ") (u "ABC123") (u " ")
                (u "OPLATA ZA KARTE") (u " ") (u "-5,00") (u " ")
                (u "895,00")).
  { constructor; try exact Hsp;
      apply fullmatch_matches; vm_compute; reflexivity. }
  pose proof other_description_no_key_phrase as Hno.
  split; [exact H|]. split; [exact Hno|]. split.
  - destruct (proj1 (generic_rule_classifies Latin.db) _ _ _ _ _ _ _ _ _
                world0 H)
      as (t & w' & desc & Hp & Hpat & Hdesc & _ & _ & Hother).
    assert (E : parse_transaction_line Latin.db
                  (u "01.02.2024" ++ u " " ++ u "ABC123" ++ u " "
                   ++ u "OPLATA ZA KARTE" ++ u " " ++ u "-5,00" ++ u " "
                   ++ u "895,00") world0
                = (Ok (Some other_record), world0))
      by (vm_compute; reflexivity).
    cbv zeta in Hp. rewrite E in Hp. injection Hp as <- <-.
    assert (Ed : desc = u "OPLATA ZA KARTE").
    { vm_compute in Hdesc. injection Hdesc as <-. vm_compute. reflexivity. }
    subst desc.
    exists other_record, world0.
    split; [exact E|]. split; [exact Hpat|]. split; [exact Hdesc|].
    exact (Hother Hno).
  - exact (proj2 (proj2 (proj2 (generic_rule_classifies Latin.db)))
             (u "OPLATA ZA KARTE") Hno).
Defined.

(** ** Which lines the scan reads, and what it attaches *)

Lemma dict_get_update_in key e : forall d,
  In key (keys e) ->
  exists v, In (key, v) e /\ dict_get key (dict_update d e) = Some v.
Proof.
  unfold dict_update.
  induction e as [|[k0 v0] e IH]; intros d Hin; simpl in *; [contradiction|].
  destruct (in_dec string_dec key (keys e)) as [Hi | Hn].
  - destruct (IH (dict_set k0 v0 d) Hi) as (v & Hv & E).
    exists v. split; [now right | exact E].
  - destruct Hin as [-> | Hin]; [|contradiction].
    exists v0. split; [now left|].
    fold (dict_update (dict_set key v0 d) e).
    rewrite dict_get_update_other by exact Hn.
    now rewrite dict_get_set, String.eqb_refl.
Qed.

Lemma window_length_eq lines i :
  length (window lines i) = Nat.min 4 (length lines - S i).
Proof. unfold window. now rewrite length_firstn, length_skipn. Qed.

Section DetailAttach.

Variable U : unicode_db.

(** Lines whose pattern does not assign a key leave it as it is. *)
Lemma scan_texts_untouched ls key : forall d0 w d w',
  scan_texts U ls d0 w = (Ok d, w') ->
  (forall n k m,
      n < length ls ->
      detail_match U (strip (nth n ls [])) = Some (k, m) ->
      ~ In key (detail_keys k)) ->
  dict_get key d = dict_get key d0.
Proof.
  induction ls as [|l ls IH]; intros d0 w d w'; simpl.
  - now intros [= <- _] _.
  - unfold bind.
    destruct (scan_line U l d0 w) as [[d1|e] w1] eqn:E; [|discriminate].
    intros H Hno.
    assert (Htail : forall n k m,
               n < length ls ->
               detail_match U (strip (nth n ls [])) = Some (k, m) ->
               ~ In key (detail_keys k)).
    { intros n k m Hn Hm. apply (Hno (S n) k m); [lia | exact Hm]. }
    rewrite (IH _ _ _ _ H Htail).
    apply scan_line_step in E
        as [[-> _] | (k & m & fs & Hm & _ & Hk & ->)]; [reflexivity|].
    apply dict_get_update_other. rewrite Hk.
    apply (Hno 0 k m); [lia | exact Hm].
Qed.

(** A line matched by a detail pattern puts each key of the pattern into
    the mapping, with the value the pattern gives it, unless a later line
    assigns the key again. *)
Lemma scan_texts_attach ls : forall n d0 w d w' k m key,
  scan_texts U ls d0 w = (Ok d, w') ->
  n < length ls ->
  detail_match U (strip (nth n ls [])) = Some (k, m) ->
  In key (detail_keys k) ->
  (forall n' k' m',
      n < n' -> n' < length ls ->
      detail_match U (strip (nth n' ls [])) = Some (k', m') ->
      ~ In key (detail_keys k')) ->
  exists v fs w1 w2,
    detail_fields U k m w1 = (Ok fs, w2) /\ In (key, v) fs /\
    dict_get key d = Some v.
Proof.
  induction ls as [|l ls IH]; intros n d0 w d w' k m key; simpl; [lia|].
  unfold bind.
  destruct (scan_line U l d0 w) as [[d1|e] w1] eqn:E; [|discriminate].
  intros H Hn Hm Hkey Hlater. destruct n as [|n].
  - apply scan_line_step in E
        as [[_ Hnone] | (k1 & m1 & fs & Hm1 & Hf & Hk & ->)].
    + rewrite Hm in Hnone. discriminate.
    + rewrite Hm in Hm1. injection Hm1 as <- <-.
      destruct (dict_get_update_in key fs d0) as (v & Hv & Eg);
        [rewrite Hk; exact Hkey|].
      exists v, fs, w, w1. split; [exact Hf|]. split; [exact Hv|].
      rewrite (scan_texts_untouched _ _ _ _ H); [exact Eg|].
      intros n' k' m' Hn' Hm'.
      apply (Hlater (S n') k' m'); [lia | lia | exact Hm'].
  - apply (IH n d1 w1 d w' k m key H); [lia | exact Hm | exact Hkey|].
    intros n' k' m' H1 H2 Hm'.
    apply (Hlater (S n') k' m'); [lia | lia | exact Hm'].
Qed.

(** The fields of a matched line do not depend on the log and the clock. *)
Lemma detail_fields_any_world k m w1 fs w2 :
  detail_fields U k m w1 = (Ok fs, w2) ->
  forall w, exists w', detail_fields U k m w = (Ok fs, w').
Proof.
  intros H w. pose proof (blind_detail_fields U k m w w1) as Hb.
  rewrite H in Hb. destruct (detail_fields U k m w) as [o w'].
  simpl in Hb. subst o. eauto.
Qed.

(** The line at offset [o] of the transaction at [i] is line [o - 1] of the
    window. *)
Lemma window_offset lines i o :
  1 <= o <= 4 -> i + o < length lines ->
  o - 1 < length (window lines i) /\
  nth (o - 1) (window lines i) [] = nth (i + o) lines [].
Proof.
  intros Ho Hl.
  assert (Hn : o - 1 < length (window lines i))
    by (rewrite window_length_eq; lia).
  split; [exact Hn|].
  destruct (window_nth lines i Hn) as [E _].
  replace (S i + (o - 1)) with (i + o) in E by lia. exact E.
Qed.

Lemma offset_window lines i n :
  n < length (window lines i) ->
  1 <= S n <= 4 /\ i + S n < length lines /\
  nth n (window lines i) [] = nth (i + S n) lines [].
Proof.
  intros Hn. pose proof Hn as Hn'. rewrite window_length_eq in Hn'.
  destruct (window_nth lines i Hn) as [E Hl].
  replace (S i + n) with (i + S n) in E, Hl by lia.
  split; [lia|]. split; [exact Hl | exact E].
Qed.

End DetailAttach.

Section DetailWindow.

Variable U : unicode_db.

Lemma extract_attach lines i w details w' o k m key :
  extract_additional_details U lines i w = (Ok details, w') ->
  1 <= o <= 4 -> i + o < length lines ->
  detail_match U (strip (nth (i + o) lines [])) = Some (k, m) ->
  In key (detail_keys k) ->
  (forall o' k' m',
      o < o' <= 4 -> i + o' < length lines ->
      detail_match U (strip (nth (i + o') lines [])) = Some (k', m') ->
      ~ In key (detail_keys k')) ->
  exists v,
    dict_get key details = Some v /\
    forall w1, exists fs w2,
      detail_fields U k m w1 = (Ok fs, w2) /\ In (key, v) fs.
Proof.
  intros H Ho Hl Hm Hkey Hlater. rewrite extract_window in H.
  destruct (window_offset lines i Ho Hl) as [Hn En].
  assert (Hm' : detail_match U (strip (nth (o - 1) (window lines i) []))
                = Some (k, m)).
  { etransitivity; [|exact Hm]. do 2 f_equal. exact En. }
  destruct (scan_texts_attach U _ _ _ _ H Hn Hm' Hkey)
    as (v & fs & w1 & w2 & Hf & Hv & Hg).
  - intros n' k' m' Hlt Hn' Hm''.
    destruct (offset_window lines i Hn') as (Ho' & Hl' & En').
    apply (Hlater (S n') k' m'); [lia | exact Hl'|].
    etransitivity; [|exact Hm'']. do 2 f_equal. symmetry. exact En'.
  - exists v. split; [exact Hg|]. intros w0.
    destruct (detail_fields_any_world U _ _ _ Hf w0) as (w0' & E0).
    exists fs, w0'. split; [exact E0 | exact Hv].
Qed.

Lemma extract_provenance lines i w details w' key v :
  extract_additional_details U lines i w = (Ok details, w') ->
  dict_get key details = Some v ->
  exists o k m,
    1 <= o <= 4 /\ i + o < length lines /\
    detail_match U (strip (nth (i + o) lines [])) = Some (k, m) /\
    In key (detail_keys k) /\
    forall w1, exists fs w2,
      detail_fields U k m w1 = (Ok fs, w2) /\ In (key, v) fs.
Proof.
  intros H Hget. rewrite extract_window in H.
  destruct (scan_texts_provenance _ _ _ _ _ H Hget)
    as [Hd | (n & k & m & fs & w1 & w2 & Hn & Hm & Hf & Hin)];
    [discriminate|].
  destruct (offset_window lines i Hn) as (Ho & Hl & En).
  exists (S n), k, m. split; [exact Ho|]. split; [exact Hl|]. split.
  { etransitivity; [|exact Hm]. do 2 f_equal. symmetry. exact En. }
  split.
  - pose proof (@detail_match_sound U _ _ _ Hm) as Hs.
    destruct (@detail_fields_total U k _ m w1 Hs) as (fs' & w2' & Ef & Hk).
    rewrite Hf in Ef. injection Ef as <- _. rewrite <- Hk.
    apply (in_map fst) in Hin. exact Hin.
  - intros w0.
    destruct (detail_fields_any_world U _ _ _ Hf w0) as (w0' & E0).
    exists fs, w0'. split; [exact E0 | exact Hin].
Qed.

End DetailWindow.

(** C5.  The scan of the transaction at index [i] reads exactly the lines
    at offsets +1 to +4, as far as the page has them.  It reads nothing
    else: two pages with the same window give the same fields, so whatever
    stands at offset +5 or beyond is never attached, and every key of the
    result was assigned by a detail line at one of these offsets.  It reads
    each of them: a line at offset +1, +2, +3 or +4 that a detail pattern
    matches has each key of the pattern in the result, with the value the
    pattern gives it, unless a later line of the window assigns that key
    again.  In particular, when the page has a detail line at offset +4
    and the three lines before it match no detail pattern, the result
    consists of the fields of that line, each key present with its value. *)
Theorem detail_window_four_lines (U : unicode_db) :
  (forall lines lines' i w,
      window lines i = window lines' i ->
      extract_additional_details U lines i w
      = extract_additional_details U lines' i w) /\
  (forall pre t win post post' w,
      length win = 4 ->
      extract_additional_details U (pre ++ t :: win ++ post) (length pre) w
      = extract_additional_details U (pre ++ t :: win ++ post')
          (length pre) w) /\
  (forall lines i k m w,
      i + 4 < length lines ->
      detail_match U (strip (nth (i + 1) lines [])) = None ->
      detail_match U (strip (nth (i + 2) lines [])) = None ->
      detail_match U (strip (nth (i + 3) lines [])) = None ->
      detail_match U (strip (nth (i + 4) lines [])) = Some (k, m) ->
      exists fs w',
        detail_fields U k m w = (Ok fs, w') /\ keys fs = detail_keys k /\
        extract_additional_details U lines i w
        = (Ok (dict_update [] fs), w') /\
        forall key, In key (detail_keys k) ->
                    exists v, In (key, v) fs /\
                              dict_get key (dict_update [] fs) = Some v) /\
  (forall lines i w details w' o k m key,
      extract_additional_details U lines i w = (Ok details, w') ->
      1 <= o <= 4 -> i + o < length lines ->
      detail_match U (strip (nth (i + o) lines [])) = Some (k, m) ->
      In key (detail_keys k) ->
      (forall o' k' m',
          o < o' <= 4 -> i + o' < length lines ->
          detail_match U (strip (nth (i + o') lines [])) = Some (k', m') ->
          ~ In key (detail_keys k')) ->
      exists v,
        dict_get key details = Some v /\
        forall w1, exists fs w2,
          detail_fields U k m w1 = (Ok fs, w2) /\ In (key, v) fs) /\
  (forall lines i w details w' key v,
      extract_additional_details U lines i w = (Ok details, w') ->
      dict_get key details = Some v ->
      exists o k m,
        1 <= o <= 4 /\ i + o < length lines /\
        detail_match U (strip (nth (i + o) lines [])) = Some (k, m) /\
        In key (detail_keys k) /\
        forall w1, exists fs w2,
          detail_fields U k m w1 = (Ok fs, w2) /\ In (key, v) fs).
Proof.
  assert (H1 : forall lines lines' i w,
             window lines i = window lines' i ->
             extract_additional_details U lines i w
             = extract_additional_details U lines' i w).
  { intros lines lines' i w H. rewrite !extract_window. now rewrite H. }
  split; [exact H1|]. split; [|split; [|split]].
  - intros pre t win post post' w Hlen. apply H1. unfold window.
    assert (Hs : forall post0,
               skipn (S (length pre)) (pre ++ t :: win ++ post0)
               = win ++ post0).
    { intros post0. replace (S (length pre)) with (length (pre ++ [t]))
        by (rewrite length_app; simpl; lia).
      replace (pre ++ t :: win ++ post0) with ((pre ++ [t]) ++ win ++ post0)
        by (now rewrite <- app_assoc).
      rewrite skipn_app, Nat.sub_diag, skipn_all. reflexivity. }
    rewrite !Hs, !firstn_app, Hlen, Nat.sub_diag. reflexivity.
  - intros lines i k m w Hlen E1 E2 E3 E4.
    pose proof (@detail_match_sound U _ _ _ E4) as Hm.
    destruct (@detail_fields_total U k _ m w Hm) as (fs & w' & Ef & Hk).
    exists fs, w'. split; [exact Ef|]. split; [exact Hk|]. split.
    + rewrite extract_window. unfold window.
      assert (Hx : S i + 4 <= length lines) by lia.
      rewrite <- (@nth_seq_window lines (S i) 4 Hx).
      cbn [seq map scan_texts]. unfold bind.
      replace (S i) with (i + 1) by lia.
      replace (S (i + 1)) with (i + 2) by lia.
      replace (S (i + 2)) with (i + 3) by lia.
      replace (S (i + 3)) with (i + 4) by lia.
      unfold str, char in *.
      rewrite scan_line_eq, E1. cbv beta iota.
      rewrite scan_line_eq, E2. cbv beta iota.
      rewrite scan_line_eq, E3. cbv beta iota.
      rewrite scan_line_eq, E4, Ef. reflexivity.
    + intros key Hkey. apply dict_get_update_in. now rewrite Hk.
  - intros lines i w details w' o k m key. apply extract_attach.
  - intros lines i w details w' key v. apply extract_provenance.
Qed.

Lemma detail_window_four_lines_witness :
  extract_additional_details Latin.db
    [sample_line; []; []; []; orig_line; card_line] 0 world0
  = extract_additional_details Latin.db
      [sample_line; []; []; []; orig_line; web_line] 0 world0 /\
  (exists fs w' v,
      extract_additional_details Latin.db
        [sample_line; []; []; []; orig_line; card_line] 0 world0
      = (Ok (dict_update [] fs), w') /\
      In ("original_amount"%string, v) fs /\
      dict_get "original_amount" (dict_update [] fs) = Some v) /\
  (exists v,
      dict_get "original_amount"
        [("original_amount"%string,
          VFloat (F_num false 6755399441055744 (-49)))] = Some v /\
      forall w1, exists fs w2,
        detail_fields Latin.db original_amount orig_caps w1 = (Ok fs, w2) /\
        In ("original_amount"%string, v) fs) /\
  (exists v,
      dict_get "location"
        [("card_number"%string, VStr (u "425125****1234"));
         ("location"%string, VStr (u "WEB"));
         ("phone"%string, VStr (u "48123"));
         ("time"%string, VStr (u "12:00:01"))] = Some v /\
      forall w1, exists fs w2,
        detail_fields Latin.db web_payment_details web_caps w1
        = (Ok fs, w2) /\
        In ("location"%string, v) fs) /\
  (exists o k m,
      1 <= o <= 4 /\ 0 + o < length [sample_line; orig_line] /\
      detail_match Latin.db (strip (nth (0 + o) [sample_line; orig_line] []))
      = Some (k, m) /\
      In "original_amount"%string (detail_keys k) /\
      forall w1, exists fs w2,
        detail_fields Latin.db k m w1 = (Ok fs, w2) /\
        In ("original_amount"%string,
            VFloat (F_num false 6755399441055744 (-49))) fs).
Proof.
  pose proof (detail_window_four_lines Latin.db)
    as (_ & Hpost & Hfour & Hattach & Hfrom).
  split; [|split; [|split; [|split]]].
  - apply (Hpost [] sample_line [[]; []; []; orig_line]
             [card_line] [web_line]).
    reflexivity.
  - destruct (Hfour [sample_line; []; []; []; orig_line; card_line] 0
                original_amount orig_caps world0)
      as (fs & w' & _ & _ & E & Hkeys);
      [simpl; lia | vm_compute; reflexivity ..|].
    destruct (Hkeys "original_amount"%string) as (v & Hv & Hg);
      [simpl; now left|].
    exists fs, w', v. split; [exact E|]. split; [exact Hv | exact Hg].
  - apply (Hattach [sample_line; orig_line] 0 world0
             [("original_amount"%string,
               VFloat (F_num false 6755399441055744 (-49)))]
             world0 1 original_amount orig_caps "original_amount"%string).
    + vm_compute. reflexivity.
    + lia.
    + simpl. lia.
    + vm_compute. reflexivity.
    + simpl. now left.
    + intros o' k' m' Ho' Hl'. simpl in Hl'. lia.
  - apply (Hattach [sample_line; card_line; web_line] 0 world0
             [("card_number"%string, VStr (u "425125****1234"));
              ("location"%string, VStr (u "WEB"));
              ("phone"%string, VStr (u "48123"));
              ("time"%string, VStr (u "12:00:01"))]
             world0 2 web_payment_details web_caps "location"%string).
    + vm_compute. reflexivity.
    + lia.
    + simpl. lia.
    + vm_compute. reflexivity.
    + simpl. tauto.
    + intros o' k' m' Ho' Hl'. simpl in Hl'. lia.
  - apply (Hfrom [sample_line; orig_line] 0 world0
             [("original_amount"%string,
               VFloat (F_num false 6755399441055744 (-49)))]
             world0 "original_amount"%string).
    + vm_compute. reflexivity.
    + reflexivity.
Defined.

(** ** The order of the files *)

Lemma str_ltb_irrefl a : str_ltb a a = false.
Proof.
  induction a as [|x a IH]; simpl; [reflexivity|].
  now rewrite N.ltb_irrefl, N.eqb_refl, IH.
Qed.

Lemma str_ltb_trans a : forall b c,
  str_ltb a b = true -> str_ltb b c = true -> str_ltb a c = true.
Proof.
  induction a as [|x a IH]; intros [|y b] [|z c]; simpl;
    try discriminate; try reflexivity.
  destruct (N.ltb_spec x y), (N.eqb_spec x y), (N.ltb_spec y z),
    (N.eqb_spec y z), (N.ltb_spec x z), (N.eqb_spec x z);
    simpl; try reflexivity; try discriminate; try lia.
  apply IH.
Qed.

Lemma str_ltb_asym a : forall b, str_ltb a b = true -> str_ltb b a = false.
Proof.
  induction a as [|x a IH]; intros [|y b]; simpl;
    try discriminate; try reflexivity.
  destruct (N.ltb_spec x y), (N.eqb_spec x y), (N.ltb_spec y x),
    (N.eqb_spec y x); simpl; try reflexivity; try discriminate; try lia.
  apply IH.
Qed.

Lemma str_ltb_total a : forall b,
  str_ltb a b = false -> str_ltb b a = false -> a = b.
Proof.
  induction a as [|x a IH]; intros [|y b]; simpl;
    try discriminate; try reflexivity.
  destruct (N.ltb_spec x y), (N.eqb_spec x y), (N.ltb_spec y x),
    (N.eqb_spec y x); simpl; try discriminate; try lia.
  intros H1 H2. subst. f_equal. now apply IH.
Qed.

Lemma path_ltb_either f g :
  name f <> name g ->
  (path_ltb f g = true /\ path_ltb g f = false) \/
  (path_ltb f g = false /\ path_ltb g f = true).
Proof.
  unfold path_ltb. intros Hne.
  destruct (str_ltb (name f) (name g)) eqn:E1.
  - left. split; [reflexivity | now apply str_ltb_asym].
  - right. split; [reflexivity|].
    destruct (str_ltb (name g) (name f)) eqn:E2; [reflexivity|].
    exfalso. apply Hne. now apply str_ltb_total.
Qed.

Lemma insert_sorted_comm f g : forall l,
  name f <> name g ->
  insert_sorted f (insert_sorted g l) = insert_sorted g (insert_sorted f l).
Proof.
  intros l Hne. induction l as [|h l IH].
  - simpl. destruct (@path_ltb_either f g Hne) as [[-> ->] | [-> ->]]; reflexivity.
  - cbn [insert_sorted].
    destruct (path_ltb g h) eqn:Egh, (path_ltb f h) eqn:Efh;
      cbn [insert_sorted]; rewrite ?Egh, ?Efh.
    + destruct (@path_ltb_either f g Hne) as [[-> ->] | [-> ->]]; reflexivity.
    + destruct (path_ltb f g) eqn:Efg; [|reflexivity].
      unfold path_ltb in *.
      rewrite (@str_ltb_trans _ _ _ Efg Egh) in Efh. discriminate.
    + destruct (path_ltb g f) eqn:Egf; [|reflexivity].
      unfold path_ltb in *.
      rewrite (@str_ltb_trans _ _ _ Egf Efh) in Egh. discriminate.
    + now rewrite IH.
Qed.


Lemma sorted_fold l : sorted l = fold_right insert_sorted [] (rev l).
Proof. unfold sorted. symmetry. apply fold_left_rev_right. Qed.

Lemma fold_insert_perm l1 l2 :
  Permutation l1 l2 -> NoDup (map name l1) ->
  fold_right insert_sorted [] l1 = fold_right insert_sorted [] l2.
Proof.
  induction 1 as [|x l l' _ IH|x y l|l l' l'' H1 IH1 H2 IH2]; intros Hn.
  - reflexivity.
  - simpl. inversion Hn; subst. now rewrite IH.
  - simpl. apply insert_sorted_comm.
    inversion Hn as [|? ? Hx _]; subst. intros E. apply Hx. left.
    now symmetry.
  - rewrite IH1 by exact Hn. apply IH2.
    eapply Permutation_NoDup; [|exact Hn]. now apply Permutation_map.
Qed.


Lemma sorted_listing l1 l2 :
  Permutation l1 l2 -> NoDup (map name l1) -> sorted l1 = sorted l2.
Proof.
  intros Hp Hn. rewrite !sorted_fold. apply fold_insert_perm.
  - now rewrite <- !Permutation_rev.
  - rewrite map_rev. now apply NoDup_rev.
Qed.




(** ** A run over a folder *)

(** The numbers of transactions [parse_all_files] reports, file by file. *)
Definition extracted_counts (j : list journal_line) : list nat :=
  flat_map (fun l => match l with
                     | Runner_record _ INFO (Extracted n _) => [n]
                     | _ => []
                     end) j.

Definition is_error (l : journal_line) : bool :=
  match l with
  | Parser_record {| levelname := ERROR |} => true
  | Runner_record _ ERROR _ => true
  | _ => false
  end.

Section FolderFacts.

Variable U : unicode_db.

Lemma in_session_parse f s :
  exists new,
    in_session (parse_pdf_file U f) s
    = (pdf_records U f,
       {| now := now s;
          journal := journal s ++ map Parser_record new |}) /\
    Forall (fun r => levelname r <> ERROR) new.
Proof.
  unfold in_session.
  destruct (parse_pdf_file_records U f {| clock := now s; log := [] |})
    as (new & E & Hf).
  rewrite E. cbn [clock log app].
  eexists. split; [reflexivity|].
  constructor; [discriminate|].
  eapply Forall_impl; [|exact Hf]. intros r [Hl _]. rewrite Hl. discriminate.
Qed.

Lemma extracted_counts_app j1 j2 :
  extracted_counts (j1 ++ j2) = extracted_counts j1 ++ extracted_counts j2.
Proof. unfold extracted_counts. apply flat_map_app. Qed.

Lemma extracted_counts_parser new :
  extracted_counts (map Parser_record new) = [].
Proof. induction new as [|r new IH]; simpl; [reflexivity | exact IH]. Qed.

Lemma no_error_parser new :
  Forall (fun r => levelname r <> ERROR) new ->
  Forall (fun l => is_error l = false) (map Parser_record new).
Proof.
  intros H. apply Forall_map. eapply Forall_impl; [|exact H].
  intros [t l m] Hl. simpl in *. now destruct l.
Qed.

Lemma files_loop_spec files : forall all_transactions s,
  exists new,
    files_loop U files all_transactions s
    = (all_transactions ++ flat_map (pdf_records U) files,
       {| now := now s; journal := journal s ++ new |}) /\
    extracted_counts new = map (fun f => length (pdf_records U f)) files /\
    Forall (fun l => is_error l = false) new.
Proof.
  induction files as [|f files IH]; intros all_transactions s;
    cbn [files_loop flat_map map].
  - exists []. rewrite !app_nil_r. destruct s. repeat split. constructor.
  - destruct (in_session_parse f s) as (new & E & Hn). rewrite E.
    match goal with
    | |- context [files_loop U files ?a ?s1] =>
        destruct (IH a s1) as (new' & E' & Hc & He)
    end.
    rewrite E'. cbn [now journal note].
    exists (map Parser_record new
            ++ Runner_record (now s) INFO
                 (Extracted (length (pdf_records U f)) (name f)) :: new').
    split; [|split].
    + f_equal; [now rewrite <- app_assoc|].
      f_equal. rewrite <- !app_assoc. reflexivity.
    + rewrite extracted_counts_app, extracted_counts_parser. simpl.
      now rewrite Hc.
    + apply Forall_app. split; [now apply no_error_parser|].
      constructor; [reflexivity | exact He].
Qed.

End FolderFacts.



(** X18.  The order in which the folder lists its files does not matter:
    two listings of the same files, no two of them with the same name,
    give the same list of records, whatever was logged before. *)
Theorem listing_order_is_irrelevant (U : unicode_db) d1 d2 s1 s2 :
  folder_exists d1 = folder_exists d2 ->
  Permutation (pdf_files d1) (pdf_files d2) ->
  NoDup (map name (pdf_files d1)) ->
  fst (parse_all_files U d1 s1) = fst (parse_all_files U d2 s2).
Proof.
  intros He Hp Hn.
  unfold parse_all_files. rewrite <- He.
  destruct (folder_exists d1); [|reflexivity]. cbn [negb].
  pose proof (sorted_listing Hp Hn) as Hs.
  destruct (pdf_files d1) as [|f1 l1] eqn:E1.
  - apply Permutation_nil in Hp. now rewrite Hp.
  - destruct (pdf_files d2) as [|f2 l2] eqn:E2.
    + symmetry in Hp. apply Permutation_nil in Hp. discriminate.
    + rewrite <- Hs.
      match goal with
      | |- fst (files_loop U ?fs ?a ?x1) = fst (files_loop U ?fs ?a ?x2) =>
          destruct (files_loop_spec U fs a x1) as (n1 & -> & _);
          destruct (files_loop_spec U fs a x2) as (n2 & -> & _)
      end.
      reflexivity.
Qed.

Definition second_pdf : pdf :=
  {| path := u "assets/filesToProcess/b.pdf"; name := u "b.pdf";
     pages := [Some carryover_line] |}.

Definition session0 : session := {| now := 0; journal := [] |}.

Lemma listing_order_is_irrelevant_witness :
  fst (parse_all_files Latin.db
         {| folder_path := u "assets/filesToProcess"; folder_exists := true;
            pdf_files := [second_pdf; sample_pdf] |} session0)
  = fst (parse_all_files Latin.db
           {| folder_path := u "assets/filesToProcess"; folder_exists := true;
              pdf_files := [sample_pdf; second_pdf] |} session0).
Proof.
  apply listing_order_is_irrelevant.
  - reflexivity.
  - apply perm_swap.
  - simpl. constructor.
    + intros [H | []]. vm_compute in H. discriminate.
    + constructor; [intros [] | constructor].
Defined.

